(** * Securemsgsys: the session protocol of [secure-messaging-system.js]

    A shallow embedding of the class [SecureMessaging]
    (src/secure_messaging/secure_messaging/secure-messaging-system.js) and the
    properties of its session protocol: establishment, the symmetric ratchet,
    authenticated encryption and decryption, replay rejection.

    Conventions.
    - A JavaScript string is the list of its UTF-16 code units, a [Buffer]
      the list of its bytes; both are lists of [Z].
    - A JavaScript number that holds an integer is a [Z]; the one arithmetic
      operation of the class, [+= 1], is [js_incr], which is exact on the
      safe integers and rounds as IEEE-754 doubles do beyond them.
    - The functions of Node's [crypto] module and the base64 codec are
      variables of a section, with the laws the proofs rely on as its
      hypotheses.  The UTF-8 codec, [JSON.stringify] and the hexadecimal
      encoding are written out.
    - A method is a computation [M A]: it takes the world (the instance, the
      entropy the process will draw, the trace of calls into [crypto]) and
      returns a completion, normal or abrupt, with the world as the method
      left it.  A [throw] does not roll the world back. *)

From Stdlib Require Import ZArith List Bool Lia String Ascii.
From Stdlib Require Import DecimalZ.
From stdpp Require Import base option list gmap.

Local Open Scope Z_scope.

(** ** Strings and buffers *)

Definition JsString := list Z.
Definition Buffer := list Z.

(** A code unit is a number of 16 bits. *)
Definition is_code_unit (u : Z) : bool := (0 <=? u) && (u <? 65536).

(** A string literal of the source, as code units. *)
Definition lit (s : string) : JsString :=
  List.map (fun a => Z.of_nat (nat_of_ascii a)) (list_ascii_of_string s).

Definition is_high_surrogate (u : Z) : bool := (0xD800 <=? u) && (u <=? 0xDBFF).
Definition is_low_surrogate (u : Z) : bool := (0xDC00 <=? u) && (u <=? 0xDFFF).

(** A string is well formed when every code unit is in range and every
    surrogate is half of a pair. *)
Fixpoint well_formed (s : JsString) : bool :=
  match s with
  | [] => true
  | u :: rest =>
      if is_high_surrogate u then
        match rest with
        | lo :: rest' => is_low_surrogate lo && well_formed rest'
        | [] => false
        end
      else if is_low_surrogate u then false
      else is_code_unit u && well_formed rest
  end.

Definition plain_unit (u : Z) : bool :=
  is_code_unit u && negb (is_high_surrogate u) && negb (is_low_surrogate u).

(** ** UTF-8

    What Node does with the encoding ['utf8']: in [Buffer.from(s)], in
    [hmac.update(s)] and [cipher.update(s, 'utf8', ...)] to encode, in
    [decipher.update(..., 'utf8')] and [final('utf8')] to decode. *)

Module Utf8.

Definition replacement : Buffer := [0xEF; 0xBF; 0xBD].

(** The bytes of one code point. *)
Definition encode_code_point (cp : Z) : Buffer :=
  if cp <? 0x80 then [cp]
  else if cp <? 0x800 then [0xC0 + cp / 64; 0x80 + cp mod 64]
  else if cp <? 0x10000 then
    [0xE0 + cp / 4096; 0x80 + (cp / 64) mod 64; 0x80 + cp mod 64]
  else
    [0xF0 + cp / 262144; 0x80 + (cp / 4096) mod 64;
     0x80 + (cp / 64) mod 64; 0x80 + cp mod 64].

Definition pair_code_point (hi lo : Z) : Z :=
  0x10000 + (hi - 0xD800) * 1024 + (lo - 0xDC00).

(** Encoding a string: a surrogate pair is one code point of four bytes,
    an unpaired surrogate is written as U+FFFD. *)
Fixpoint encode (s : JsString) : Buffer :=
  match s with
  | [] => []
  | u :: rest =>
      if is_high_surrogate u then
        match rest with
        | lo :: rest' =>
            if is_low_surrogate lo
            then encode_code_point (pair_code_point u lo) ++ encode rest'
            else replacement ++ encode rest
        | [] => replacement
        end
      else if is_low_surrogate u then replacement ++ encode rest
      else encode_code_point u ++ encode rest
  end.

(** The decoder is the state machine of the Encoding standard: the code
    point read so far, the continuation bytes it still needs, and the
    bounds of the next byte. *)
Record state := State {
  code_point : Z;
  needed : nat;
  lower : Z;
  upper : Z
}.

Definition initial : state := State 0 0 0x80 0xBF.

Definition code_units (cp : Z) : JsString :=
  if cp <? 0x10000 then [cp]
  else [0xD800 + (cp - 0x10000) / 1024; 0xDC00 + (cp - 0x10000) mod 1024].

(** A byte read with no sequence open. *)
Definition start (b : Z) : JsString * state :=
  if (0 <=? b) && (b <? 0x80) then ([b], initial)
  else if (0xC2 <=? b) && (b <=? 0xDF) then ([], State (b - 0xC0) 1 0x80 0xBF)
  else if (0xE0 <=? b) && (b <=? 0xEF) then
    ([], State (b - 0xE0) 2 (if b =? 0xE0 then 0xA0 else 0x80)
                             (if b =? 0xED then 0x9F else 0xBF))
  else if (0xF0 <=? b) && (b <=? 0xF4) then
    ([], State (b - 0xF0) 3 (if b =? 0xF0 then 0x90 else 0x80)
                             (if b =? 0xF4 then 0x8F else 0xBF))
  else ([0xFFFD], initial).

Fixpoint decode_from (st : state) (bs : Buffer) : JsString :=
  match bs with
  | [] => match needed st with O => [] | S _ => [0xFFFD] end
  | b :: bs' =>
      match needed st with
      | O => let '(out, st') := start b in out ++ decode_from st' bs'
      | S n =>
          if (lower st <=? b) && (b <=? upper st) then
            let cp := code_point st * 64 + (b - 0x80) in
            match n with
            | O => code_units cp ++ decode_from initial bs'
            | S _ => decode_from (State cp n 0x80 0xBF) bs'
            end
          else
            let '(out, st') := start b in
            0xFFFD :: out ++ decode_from st' bs'
      end
  end.

Definition decode (bs : Buffer) : JsString := decode_from initial bs.

End Utf8.

(** ** JavaScript values and [JSON.stringify] *)

Set Warnings "-register-all".

(** The values the class handles: the fields of a bundle or a package, and
    whatever [verify] is given as [data].  An object is the list of its own
    enumerable properties in property order. *)
Inductive JsValue :=
| JUndefined
| JNull
| JBoolean (b : bool)
| JNumber (n : Z)
| JBigInt (n : Z)
| JString (s : JsString)
| JArray (items : list JsValue)
| JObject (props : list (JsString * JsValue)).

Module Json.

Definition hex_digit (d : Z) : Z := if d <? 10 then 48 + d else 87 + d.

(** [\uXXXX], four lower-case hexadecimal digits. *)
Definition unicode_escape (u : Z) : JsString :=
  [92; 117; hex_digit (u / 4096 mod 16); hex_digit (u / 256 mod 16);
   hex_digit (u / 16 mod 16); hex_digit (u mod 16)].

(** One code unit that is not the first half of a pair. *)
Definition quote_unit (u : Z) : JsString :=
  if u =? 8 then [92; 98]          (* backspace: \b *)
  else if u =? 9 then [92; 116]    (* tab: \t *)
  else if u =? 10 then [92; 110]   (* line feed: \n *)
  else if u =? 12 then [92; 102]   (* form feed: \f *)
  else if u =? 13 then [92; 114]   (* carriage return: \r *)
  else if u =? 34 then [92; 34]    (* quotation mark *)
  else if u =? 92 then [92; 92]    (* reverse solidus *)
  else if (u <? 32) || is_low_surrogate u then unicode_escape u
  else [u].

Fixpoint quote_units (s : JsString) : JsString :=
  match s with
  | [] => []
  | u :: rest =>
      if is_high_surrogate u then
        match rest with
        | lo :: rest' =>
            if is_low_surrogate lo then u :: lo :: quote_units rest'
            else unicode_escape u ++ quote_units rest
        | [] => unicode_escape u
        end
      else quote_unit u ++ quote_units rest
  end.

(** QuoteJSONString (ECMAScript 2019: an unpaired surrogate is written as
    an escape). *)
Definition quote (s : JsString) : JsString := 34 :: quote_units s ++ [34].

Fixpoint digits (d : Decimal.uint) : JsString :=
  match d with
  | Decimal.Nil => []
  | Decimal.D0 d => 48 :: digits d
  | Decimal.D1 d => 49 :: digits d
  | Decimal.D2 d => 50 :: digits d
  | Decimal.D3 d => 51 :: digits d
  | Decimal.D4 d => 52 :: digits d
  | Decimal.D5 d => 53 :: digits d
  | Decimal.D6 d => 54 :: digits d
  | Decimal.D7 d => 55 :: digits d
  | Decimal.D8 d => 56 :: digits d
  | Decimal.D9 d => 57 :: digits d
  end.

(** Number::toString of an integer (the decimal form, which JavaScript
    uses below 10^21). *)
Definition number_to_string (n : Z) : JsString :=
  match Z.to_int n with
  | Decimal.Pos d => digits d
  | Decimal.Neg d => 45 :: digits d
  end.

Fixpoint join (sep : JsString) (parts : list JsString) : JsString :=
  match parts with
  | [] => []
  | [p] => p
  | p :: rest => p ++ sep ++ join sep rest
  end.

(** What SerializeJSONProperty gives: a text, [undefined], or a thrown
    TypeError (a BigInt). *)
Inductive result :=
| Text (t : JsString)
| Undefined
| Throws.

(** The elements of an array: [undefined] is written [null]. *)
Definition elements_with (serialize : JsValue -> result)
  : list JsValue -> option (list JsString) :=
  fix elements (l : list JsValue) : option (list JsString) :=
    match l with
    | [] => Some []
    | x :: l' =>
        match serialize x with
        | Text t => cons t <$> elements l'
        | Undefined => cons (lit "null") <$> elements l'
        | Throws => None
        end
    end.

(** The members of an object: a property whose value is [undefined] is
    left out. *)
Definition members_with (serialize : JsValue -> result)
  : list (JsString * JsValue) -> option (list JsString) :=
  fix members (l : list (JsString * JsValue)) : option (list JsString) :=
    match l with
    | [] => Some []
    | (k, x) :: l' =>
        match serialize x with
        | Text t => cons (quote k ++ lit ":" ++ t) <$> members l'
        | Undefined => members l'
        | Throws => None
        end
    end.

Fixpoint serialize (v : JsValue) : result :=
  match v with
  | JUndefined => Undefined
  | JNull => Text (lit "null")
  | JBoolean b => Text (if b then lit "true" else lit "false")
  | JNumber n => Text (number_to_string n)
  | JBigInt _ => Throws
  | JString s => Text (quote s)
  | JArray items =>
      match elements_with serialize items with
      | Some parts => Text (lit "[" ++ join (lit ",") parts ++ lit "]")
      | None => Throws
      end
  | JObject props =>
      match members_with serialize props with
      | Some parts => Text (lit "{" ++ join (lit ",") parts ++ lit "}")
      | None => Throws
      end
  end.

(** [JSON.stringify(value)]. *)
Definition stringify (v : JsValue) : result := serialize v.

(** *** Reading a quoted string back (used to show that quoting loses
    nothing) *)

Definition valid_string (s : JsString) : bool := forallb is_code_unit s.

Definition unhex (c : Z) : Z := if c <? 58 then c - 48 else c - 87.

Definition unescape (c : Z) : Z :=
  if c =? 98 then 8 else if c =? 116 then 9 else if c =? 110 then 10
  else if c =? 102 then 12 else if c =? 114 then 13 else c.

Definition push (u : Z) (r : option (JsString * JsString))
  : option (JsString * JsString) :=
  match r with
  | Some (s, rest) => Some (u :: s, rest)
  | None => None
  end.

(** Reads the body of a quoted string up to its closing quotation mark and
    returns the string and what follows the mark. *)
Fixpoint unquote_units (t : JsString) : option (JsString * JsString) :=
  match t with
  | [] => None
  | c :: r =>
      if c =? 34 then Some ([], r)
      else if c =? 92 then
        match r with
        | [] => None
        | x :: r1 =>
            if x =? 117 then
              match r1 with
              | h1 :: h2 :: h3 :: h4 :: r2 =>
                  push (4096 * unhex h1 + 256 * unhex h2 + 16 * unhex h3 + unhex h4)
                       (unquote_units r2)
              | _ => None
              end
            else push (unescape x) (unquote_units r1)
        end
      else push c (unquote_units r)
  end.

Definition is_ascii (u : Z) : bool := (0 <=? u) && (u <? 128).

End Json.

(** ** Numbers *)

(** [c + 1] on a number that holds the integer [c]: exact while the result is
    a safe integer, rounded to the nearest double (ties to even) beyond. *)
Definition js_incr (c : Z) : Z :=
  if (- 2 ^ 53 <=? c) && (c <? 2 ^ 53) then c + 1
  else if (Z.abs c <? 2 ^ 54) && (c mod 4 =? 2) then c + 2
  else c.

(** ** Buffers *)

(** [buf.slice(from, to)]. *)
Definition slice (from to : nat) (buf : Buffer) : Buffer :=
  take (to - from) (drop from buf).

(** [buf.toString('hex')]. *)
Definition hex (buf : Buffer) : JsString :=
  flat_map (fun b => [Json.hex_digit (b / 16 mod 16); Json.hex_digit (b mod 16)]) buf.

(** ** The instance, its sessions and the packages it exchanges *)

Record KeyPair := {
  publicKey : JsString;
  privateKey : JsString
}.

Record Session := {
  recipientId : JsString;
  encryptionKey : Buffer;
  macKey : Buffer;
  chainKey : Buffer;
  messageCounter : Z
}.

(** The fields the constructor gives an instance.  [instanceCounter] is
    [this.messageCounter], which no method reads or writes. *)
Record SecureMessaging := {
  identityKeyPair : option KeyPair;
  preKeyPair : option KeyPair;
  oneTimePreKeys : list KeyPair;
  sessionKeys : gmap JsString Session;
  instanceCounter : Z
}.

Definition constructor : SecureMessaging :=
  {| identityKeyPair := None; preKeyPair := None; oneTimePreKeys := [];
     sessionKeys := ∅; instanceCounter := 0 |}.

(** A registration bundle, as [register] builds it. *)
Record Bundle := {
  userId : JsString;
  identityKey : JsString;
  preKey : JsString;
  bundleOneTimePreKeys : list JsString;
  signature : JsString
}.

(** A message package: the five properties [encryptMessage] gives it, in
    that order, and the properties added to it afterwards, in the order
    they were added ([sender], [recipient] and [timestamp] by the
    client). *)
Record MessagePackage := {
  sessionId : JsString;
  counter : Z;
  iv : JsString;
  ciphertext : JsString;
  mac : JsString;
  extra : list (JsString * JsValue)
}.

(** [obj[key] = value] on the property list of an object: a property the
    object has keeps its place, a new one comes last. *)
Fixpoint set_property (key : JsString) (value : JsValue)
    (props : list (JsString * JsValue)) : list (JsString * JsValue) :=
  match props with
  | [] => [(key, value)]
  | (k, v) :: rest =>
      if bool_decide (k = key) then (k, value) :: rest
      else (k, v) :: set_property key value rest
  end.

Definition unsigned_properties (p : MessagePackage) : list (JsString * JsValue) :=
  [(lit "sessionId", JString (sessionId p));
   (lit "counter", JNumber (counter p));
   (lit "iv", JString (iv p));
   (lit "ciphertext", JString (ciphertext p))].

Definition package_properties (p : MessagePackage) : list (JsString * JsValue) :=
  unsigned_properties p ++ [(lit "mac", JString (mac p))] ++ extra p.

(** [{ ...messagePackage, mac: undefined }], the object a package is
    checked against. *)
Definition authenticated_object (p : MessagePackage) : JsValue :=
  JObject (set_property (lit "mac") JUndefined (package_properties p)).

(** The text of [authenticated_object p], up to the properties added after
    [mac]. *)
Definition authenticated_prefix (p : MessagePackage) : JsString :=
  lit "{" ++ Json.quote (lit "sessionId") ++ lit ":" ++ Json.quote (sessionId p)
  ++ lit "," ++ Json.quote (lit "counter") ++ lit ":"
  ++ Json.number_to_string (counter p)
  ++ lit "," ++ Json.quote (lit "iv") ++ lit ":" ++ Json.quote (iv p)
  ++ lit "," ++ Json.quote (lit "ciphertext") ++ lit ":"
  ++ Json.quote (ciphertext p).

Definition closing (parts : list JsString) : JsString :=
  match parts with
  | [] => lit "}"
  | _ => lit "," ++ Json.join (lit ",") parts ++ lit "}"
  end.

Definition valid_package (p : MessagePackage) : bool :=
  Json.valid_string (sessionId p) && Json.valid_string (iv p)
  && Json.valid_string (ciphertext p).

(** ** Effects *)

(** What a method does outside the instance: calls into [crypto], in program
    order, and lines written to the console. *)
Inductive Event :=
| RandomBytes (n : nat)
| CreateHash
| CreateHmac
| CreateCipheriv
| CreateDecipheriv
| CreateVerify
| ConsoleError.

Inductive Exception :=
| Error (message : string)
| TypeError
| CryptoError (reason : string).

Definition InvalidBundleSignature : Exception :=
  Error "Invalid signature on recipient bundle".
Definition SessionNotFound : Exception := Error "Session not found".
Definition ReplayDetected : Exception := Error "Potential replay attack detected".
Definition MacMismatch : Exception := Error "Message authentication failed".

Inductive Completion (A : Type) :=
| Normal (a : A)
| Throw (e : Exception).
Arguments Normal {A} a.
Arguments Throw {A} e.

(** The world of a running instance: the instance, the bytes its process
    will draw from the system's random source with the number drawn so far,
    and the events so far. *)
Record World := {
  this : SecureMessaging;
  entropy : nat -> Z;
  drawn : nat;
  trace : list Event
}.

Definition M (A : Type) : Type := World -> Completion A * World.

#[export] Instance M_ret : MRet M := fun A a w => (Normal a, w).

#[export] Instance M_bind : MBind M := fun A B f m w =>
  match m w with
  | (Normal a, w') => f a w'
  | (Throw e, w') => (Throw e, w')
  end.

Definition throw {A : Type} (e : Exception) : M A := fun w => (Throw e, w).

Definition record (e : Event) (w : World) : World :=
  {| this := this w; entropy := entropy w; drawn := drawn w;
     trace := trace w ++ [e] |}.

Definition emit (e : Event) : M unit := fun w => (Normal tt, record e w).

Definition with_sessions (f : gmap JsString Session -> gmap JsString Session)
    (w : World) : World :=
  {| this :=
       {| identityKeyPair := identityKeyPair (this w);
          preKeyPair := preKeyPair (this w);
          oneTimePreKeys := oneTimePreKeys (this w);
          sessionKeys := f (sessionKeys (this w));
          instanceCounter := instanceCounter (this w) |};
     entropy := entropy w; drawn := drawn w; trace := trace w |}.

(** [this.sessionKeys.get(id)] *)
Definition sessionKeys_get (id : JsString) : M (option Session) := fun w =>
  (Normal (sessionKeys (this w) !! id), w).

(** [this.sessionKeys.set(id, session)] *)
Definition sessionKeys_set (id : JsString) (s : Session) : M unit := fun w =>
  (Normal tt, with_sessions (insert id s) w).

(** [crypto.randomBytes(n)]: the next [n] bytes of the entropy. *)
Definition next_bytes (n : nat) (w : World) : Buffer :=
  List.map (entropy w) (seq (drawn w) n).

Definition draw (n : nat) (w : World) : World :=
  {| this := this w; entropy := entropy w; drawn := (drawn w + n)%nat;
     trace := trace w ++ [RandomBytes n] |}.

Definition randomBytes (n : nat) : M Buffer := fun w =>
  (Normal (next_bytes n w), draw n w).

(** The world after a generator other than [crypto.randomBytes] has used
    [n] bytes of the entropy: the trace keeps to the calls listed above. *)
Definition consume (n : nat) (w : World) : World :=
  {| this := this w; entropy := entropy w; drawn := (drawn w + n)%nat;
     trace := trace w |}.

Definition with_this (f : SecureMessaging -> SecureMessaging) (w : World) : World :=
  {| this := f (this w); entropy := entropy w; drawn := drawn w;
     trace := trace w |}.

(** [this.identityKeyPair = pair] *)
Definition set_identityKeyPair (pair : KeyPair) : M unit := fun w =>
  (Normal tt,
   with_this (fun t =>
     {| identityKeyPair := Some pair;
        preKeyPair := preKeyPair t;
        oneTimePreKeys := oneTimePreKeys t;
        sessionKeys := sessionKeys t;
        instanceCounter := instanceCounter t |}) w).

(** [this.preKeyPair = pair] *)
Definition set_preKeyPair (pair : KeyPair) : M unit := fun w =>
  (Normal tt,
   with_this (fun t =>
     {| identityKeyPair := identityKeyPair t;
        preKeyPair := Some pair;
        oneTimePreKeys := oneTimePreKeys t;
        sessionKeys := sessionKeys t;
        instanceCounter := instanceCounter t |}) w).

(** [this.oneTimePreKeys.push(pair)] *)
Definition oneTimePreKeys_push (pair : KeyPair) : M unit := fun w =>
  (Normal tt,
   with_this (fun t =>
     {| identityKeyPair := identityKeyPair t;
        preKeyPair := preKeyPair t;
        oneTimePreKeys := oneTimePreKeys t ++ [pair];
        sessionKeys := sessionKeys t;
        instanceCounter := instanceCounter t |}) w).

(** The world of a process that has just run [new SecureMessaging()]. *)
Definition fresh (e : nat -> Z) : World :=
  {| this := constructor; entropy := e; drawn := 0; trace := [] |}.

Definition ClientNotInitialized : Exception := Error "Client not initialized".

(** ** The world of the client [SecureMessagingClient]
    (src/secure_messaging/secure_messaging/secure-messaging-client.js)

    The client holds an instance of the class, a map from users to session
    identifiers, and talks to the relay through [makeRequest].  What the
    relay answers is not the client's to decide: the answers are part of
    the world, one for each request the client will make.  An answer is
    taken to have the shape the client reads it in: a bundle for
    [/get-user], messages with the eight properties [sendMessage] posts
    for [/get-messages].  A method is modelled as it runs when no other
    method of the client runs between its steps. *)

(** A message as [sendMessage] posts it and the relay hands it on: the
    five properties [encryptMessage] gave the package, then [sender],
    [recipient] and [timestamp]. *)
Record Message := {
  sealed : MessagePackage;
  sender : JsString;
  recipient : JsString;
  timestamp : Z
}.

(** The object [decryptMessage] is given for a message. *)
Definition message_object (m : Message) : MessagePackage :=
  {| sessionId := sessionId (sealed m);
     counter := counter (sealed m);
     iv := iv (sealed m);
     ciphertext := ciphertext (sealed m);
     mac := mac (sealed m);
     extra := [(lit "sender", JString (sender m));
               (lit "recipient", JString (recipient m));
               (lit "timestamp", JNumber (timestamp m))] |}.

(** An element of the array [receiveMessages] returns:
    [{from, content, timestamp}]. *)
Record Decrypted := {
  from : JsString;
  content : JsString;
  decryptedTimestamp : Z
}.

(** How the promise of [makeRequest] settles: resolved with the parsed
    answer, or rejected with an [Error] that carries a message. *)
Inductive Outcome (A : Type) :=
| Resolved (a : A)
| Rejected (message : JsString).
Arguments Resolved {A} a.
Arguments Rejected {A} message.

(** The answers of the relay, by endpoint; the [n]-th request the client
    makes is answered by the entry [n] of its endpoint. *)
Record Relay := {
  get_user : nat -> Outcome Bundle;
  send_message : nat -> Outcome unit;
  get_messages : nat -> Outcome (list Message);
  list_users : nat -> Outcome JsValue
}.

(** A request, with the data it carries. *)
Inductive Request :=
| GetUser (user : JsString)
| SendMessage (message : Message)
| GetMessages (user : JsString)
| ListUsers.

(** What the client's [try] blocks catch and its methods throw. *)
Inductive ClientException :=
| Thrown (e : Exception)
| RequestFailed (message : JsString)
| UserNotFound (recipientId : JsString).

(** A line on the console: [console.log(text)], or
    [console.error(prefix + error.message)]. *)
Inductive Line :=
| Log (text : JsString)
| LogError (prefix : JsString) (error : ClientException).

(** The world of a client: its fields ([this.userId], [this.messaging]
    with the process it runs in, [this.activeSessions]), the relay, the
    clock [Date.now()] reads, and what the client has done so far: the
    requests it made, the maps it wrote to its session file, the lines it
    wrote to the console. *)
Record ClientWorld := {
  this_userId : JsString;
  messaging : World;
  activeSessions : gmap JsString JsString;
  relay : Relay;
  clock : nat -> Z;
  requests : list Request;
  saved : list (gmap JsString JsString * gmap JsString Session);
  console : list Line
}.

(** The world of a client that has just run
    [new SecureMessagingClient(user)]. *)
Definition new_client (user : JsString) (answers : Relay) (time : nat -> Z)
    (e : nat -> Z) : ClientWorld :=
  {| this_userId := user; messaging := fresh e; activeSessions := ∅;
     relay := answers; clock := time; requests := []; saved := [];
     console := [] |}.

Inductive ClientCompletion (A : Type) :=
| Returned (a : A)
| Raised (e : ClientException).
Arguments Returned {A} a.
Arguments Raised {A} e.

Definition CM (A : Type) : Type := ClientWorld -> ClientCompletion A * ClientWorld.

#[export] Instance CM_ret : MRet CM := fun A a cw => (Returned a, cw).

#[export] Instance CM_bind : MBind CM := fun A B f m cw =>
  match m cw with
  | (Returned a, cw') => f a cw'
  | (Raised e, cw') => (Raised e, cw')
  end.

Definition raise {A : Type} (e : ClientException) : CM A := fun cw => (Raised e, cw).

(** [try { body } catch (error) { handler }] *)
Definition try_catch {A : Type} (body : CM A) (handler : ClientException -> CM A)
    : CM A := fun cw =>
  match body cw with
  | (Returned a, cw') => (Returned a, cw')
  | (Raised e, cw') => handler e cw'
  end.

Definition with_messaging (w : World) (cw : ClientWorld) : ClientWorld :=
  {| this_userId := this_userId cw; messaging := w;
     activeSessions := activeSessions cw; relay := relay cw; clock := clock cw;
     requests := requests cw; saved := saved cw; console := console cw |}.

(** A call of a method of [this.messaging]. *)
Definition on_messaging {A : Type} (m : M A) : CM A := fun cw =>
  match m (messaging cw) with
  | (Normal a, w) => (Returned a, with_messaging w cw)
  | (Throw e, w) => (Raised (Thrown e), with_messaging w cw)
  end.

(** The world after a request was made. *)
Definition sent (request : Request) (cw : ClientWorld) : ClientWorld :=
  {| this_userId := this_userId cw; messaging := messaging cw;
     activeSessions := activeSessions cw; relay := relay cw; clock := clock cw;
     requests := requests cw ++ [request]; saved := saved cw;
     console := console cw |}.

(** [await makeRequest(...)]: the request is made, and the relay's entry
    for it settles the promise. *)
Definition makeRequest {A : Type} (request : Request)
    (answer : Relay -> nat -> Outcome A) : CM A := fun cw =>
  match answer (relay cw) (length (requests cw)) with
  | Resolved a => (Returned a, sent request cw)
  | Rejected message => (Raised (RequestFailed message), sent request cw)
  end.

(** [Date.now()], as the clock stands when the client has made the
    requests it has made. *)
Definition Date_now : CM Z := fun cw =>
  (Returned (clock cw (length (requests cw))), cw).

(** The world after a line was written to the console. *)
Definition wrote (line : Line) (cw : ClientWorld) : ClientWorld :=
  {| this_userId := this_userId cw; messaging := messaging cw;
     activeSessions := activeSessions cw; relay := relay cw; clock := clock cw;
     requests := requests cw; saved := saved cw;
     console := console cw ++ [line] |}.

Definition console_log (text : JsString) : CM unit := fun cw =>
  (Returned tt, wrote (Log text) cw).

Definition console_error (prefix : JsString) (error : ClientException) : CM unit :=
  fun cw => (Returned tt, wrote (LogError prefix error) cw).

(** [this.userId] *)
Definition this_userId_get : CM JsString := fun cw => (Returned (this_userId cw), cw).

(** [this.activeSessions.get(user)] *)
Definition activeSessions_get (user : JsString) : CM (option JsString) := fun cw =>
  (Returned (activeSessions cw !! user), cw).

(** [this.activeSessions.has(user)] *)
Definition activeSessions_has (user : JsString) : CM bool := fun cw =>
  (Returned (bool_decide (is_Some (activeSessions cw !! user))), cw).

Definition with_activeSession (user id : JsString) (cw : ClientWorld) : ClientWorld :=
  {| this_userId := this_userId cw; messaging := messaging cw;
     activeSessions := <[user := id]> (activeSessions cw); relay := relay cw;
     clock := clock cw; requests := requests cw; saved := saved cw;
     console := console cw |}.

(** [this.activeSessions.set(user, id)] *)
Definition activeSessions_set (user id : JsString) : CM unit := fun cw =>
  (Returned tt, with_activeSession user id cw).

(** *** saveSessionsToFile(), lines 77-95

    The file receives the JSON text of the two maps; what is kept of a
    write here is the maps, whether or not the file system takes them: a
    failure to write is caught inside the method and changes nothing the
    client holds. *)
Definition saving (cw : ClientWorld) : ClientWorld :=
  {| this_userId := this_userId cw; messaging := messaging cw;
     activeSessions := activeSessions cw; relay := relay cw; clock := clock cw;
     requests := requests cw;
     saved := saved cw ++ [(activeSessions cw, sessionKeys (this (messaging cw)))];
     console := console cw |}.

Definition saveSessionsToFile : CM unit := fun cw => (Returned tt, saving cw).

(** ** Stand-ins for the primitives

    Functions with the shape of the primitives and the laws assumed of
    them, on which the model can be run.  They are not the real
    algorithms. *)

Module Stub.

(** The stand-in digest reads its input as a number in base 257 and
    returns the 32 low bytes of that number. *)
Definition number_of (data : Buffer) : Z :=
  fold_right (fun b acc => b mod 256 + 257 * acc) 0 data.

Definition digest (data : Buffer) : Buffer :=
  List.map (fun i => (number_of data / 256 ^ Z.of_nat i) mod 256) (seq 0 32).

Definition sha256 (data : Buffer) : Buffer := digest data.

Definition hmac_sha256 (key data : Buffer) : Buffer := digest (key ++ data).

(** A function that has the length of an HMAC and nothing else of it: the
    same tag for every key and text. *)
Definition constant_hmac (key data : Buffer) : Buffer := repeat 0 32.

(** The stand-in cipher marks its output with a leading byte, so that a
    text it did not produce is refused. *)
Definition aes_128_cbc_encrypt (key iv data : Buffer) : Buffer := 1 :: data.

Definition aes_128_cbc_decrypt (key iv data : Buffer) : option Buffer :=
  match data with
  | 1 :: plain => Some plain
  | _ => None
  end.

(** The stand-in signature of [data] under a key is the key followed by
    the data; an empty signature makes the primitive throw. *)
Definition rsa_sha256_verify (publicKey data signature : JsString) : option bool :=
  match signature with
  | [] => None
  | _ => Some (bool_decide (signature = publicKey ++ data))
  end.

Definition base64_encode (buf : Buffer) : JsString := buf.
Definition base64_decode (s : JsString) : Buffer := s.

(** The stand-in key pair is one string for both halves, made of one byte
    of the entropy, so that the stand-in verifier accepts what the stand-in
    signer writes. *)
Definition rsa_generateKeyPair (e : nat -> Z) (n : nat) : KeyPair * nat :=
  let k := lit "KEY-" ++ hex [e n] in
  ({| publicKey := k; privateKey := k |}, 1%nat).

Definition rsa_sha256_sign (privateKey data : JsString) : option JsString :=
  match privateKey with
  | [] => None
  | _ => Some (privateKey ++ data)
  end.

End Stub.

(** ** A scenario

    Two users, a session that both hold, bundles and packages, on the
    stand-in primitives: the concrete inputs of the examples below. *)

Module Scenario.

Definition alice : JsString := lit "alice".
Definition bob : JsString := lit "bob".

Definition key (b : Z) : Buffer := repeat b 16.

(** The session between Alice and Bob, as each of them holds it. *)
Definition session_at (peer : JsString) (c : Z) : Session :=
  {| recipientId := peer;
     encryptionKey := key 1;
     macKey := key 2;
     chainKey := key 3;
     messageCounter := c |}.

Definition id : JsString := lit "00ff-bob".

Definition instance_with (sessions : gmap JsString Session) : SecureMessaging :=
  {| identityKeyPair := None; preKeyPair := None; oneTimePreKeys := [];
     sessionKeys := sessions; instanceCounter := 0 |}.

(** A world in which every random byte is [byte]. *)
Definition world_with (sessions : gmap JsString Session) (byte : Z) : World :=
  {| this := instance_with sessions;
     entropy := fun _ => byte;
     drawn := 0;
     trace := [] |}.

Definition alice_world : World := world_with {[ id := session_at bob 0 ]} 5.
Definition bob_world : World := world_with {[ id := session_at alice 0 ]} 6.

(** Worlds whose session has reached the last safe counter. *)
Definition alice_world_at_limit : World :=
  world_with {[ id := session_at bob (2 ^ 53) ]} 5.
Definition bob_world_at_limit : World :=
  world_with {[ id := session_at alice (2 ^ 53) ]} 6.

(** A bundle whose signature the stand-in verifier accepts. *)
Definition bundle_of (user : JsString) (oneTime : list JsString) : Bundle :=
  {| userId := user;
     identityKey := lit "IK-" ++ user;
     preKey := lit "PK-" ++ user;
     bundleOneTimePreKeys := oneTime;
     signature := (lit "IK-" ++ user) ++ (lit "PK-" ++ user) |}.

(** A package for the session [id] that carries the tag of its fields
    under the MAC key of the scenario. *)
Definition package (c : Z) (text : JsString) : MessagePackage :=
  let unsigned :=
    {| sessionId := id;
       counter := c;
       iv := Stub.base64_encode (key 9);
       ciphertext :=
         Stub.base64_encode
           (Stub.aes_128_cbc_encrypt (key 1) (key 9) (Utf8.encode text));
       mac := [];
       extra := [] |} in
  {| sessionId := sessionId unsigned;
     counter := counter unsigned;
     iv := iv unsigned;
     ciphertext := ciphertext unsigned;
     mac := Stub.base64_encode
              (Stub.hmac_sha256 (key 2)
                 (Utf8.encode (authenticated_prefix unsigned ++ lit "}")));
     extra := [] |}.

(** One bit of the first code unit of a string, flipped. *)
Definition flip_bit (i : Z) (s : JsString) : JsString :=
  match s with
  | u :: rest => Z.lxor u (2 ^ i) :: rest
  | [] => []
  end.

Definition with_counter (c : Z) (p : MessagePackage) : MessagePackage :=
  {| sessionId := sessionId p; counter := c; iv := iv p;
     ciphertext := ciphertext p; mac := mac p; extra := extra p |}.

Definition with_sessionId (s : JsString) (p : MessagePackage) : MessagePackage :=
  {| sessionId := s; counter := counter p; iv := iv p;
     ciphertext := ciphertext p; mac := mac p; extra := extra p |}.

Definition with_ciphertext (c : JsString) (p : MessagePackage) : MessagePackage :=
  {| sessionId := sessionId p; counter := counter p; iv := iv p;
     ciphertext := c; mac := mac p; extra := extra p |}.

(** A package for the session [id] that carries the tag [constant_hmac]
    gives to every text. *)
Definition constant_tag_package (text : JsString) : MessagePackage :=
  {| sessionId := id;
     counter := 1;
     iv := Stub.base64_encode (key 9);
     ciphertext :=
       Stub.base64_encode
         (Stub.aes_128_cbc_encrypt (key 1) (key 9) (Utf8.encode text));
     mac := Stub.base64_encode (Stub.constant_hmac (key 2) []);
     extra := [] |}.


(** The identifier [establishSession] gives a session with [peer] when
    every random byte is 5. *)
Definition id_of (peer : JsString) : JsString :=
  hex (repeat 5 16) ++ lit "-" ++ peer.

(** A relay that gives every request the same answer, by endpoint. *)
Definition relay_with (bundle : Outcome Bundle) (accepted : Outcome unit)
    (inbox : Outcome (list Message)) (users : Outcome JsValue) : Relay :=
  {| get_user := fun _ => bundle;
     send_message := fun _ => accepted;
     get_messages := fun _ => inbox;
     list_users := fun _ => users |}.

(** A clock that stands still. *)
Definition time (n : nat) : Z := 1700000000000.

(** Alice's client, new, with a relay that knows Bob and takes what it is
    given. *)
Definition alice_client : ClientWorld :=
  new_client alice
    (relay_with (Resolved (bundle_of bob [])) (Resolved tt) (Resolved [])
       (Resolved (JObject [(lit "users", JArray [JString alice; JString bob])])))
    time (fun _ => 5).

(** Alice's client with a relay that is out of reach. *)
Definition alice_offline : ClientWorld :=
  new_client alice
    (relay_with (Rejected (lit "Request error: connect ECONNREFUSED"))
       (Rejected (lit "Request error: connect ECONNREFUSED"))
       (Rejected (lit "Request error: connect ECONNREFUSED"))
       (Rejected (lit "Request error: connect ECONNREFUSED")))
    time (fun _ => 5).

(** Alice's client with a relay that knows Bob and refuses messages. *)
Definition alice_refused : ClientWorld :=
  new_client alice
    (relay_with (Resolved (bundle_of bob [])) (Rejected (lit "Request failed"))
       (Resolved []) (Resolved JNull))
    time (fun _ => 5).

(** Bob's client when it holds the session of the scenario with Alice,
    with a relay that holds [inbox] for Bob. *)
Definition bob_in_session (inbox : list Message) : ClientWorld :=
  {| this_userId := bob;
     messaging := bob_world;
     activeSessions := {[ alice := id ]};
     relay := relay_with (Resolved (bundle_of alice [])) (Resolved tt)
                (Resolved inbox) (Resolved JNull);
     clock := time;
     requests := [];
     saved := [];
     console := [] |}.

(** A world that holds two sessions. *)
Definition two_sessions : World :=
  world_with (<[id_of bob := session_at bob 0]> {[ id := session_at bob 0 ]}) 5.

(** Bob's client, new, with a relay that knows Alice and holds [inbox]
    for Bob. *)
Definition bob_client (inbox : list Message) : ClientWorld :=
  new_client bob
    (relay_with (Resolved (bundle_of alice [])) (Resolved tt) (Resolved inbox)
       (Resolved JNull))
    time (fun _ => 6).

(** The message that carries [package c text] from Alice to Bob, with a
    tag, under the MAC key of the scenario, of the text of the whole
    message: the package's fields and [sender], [recipient] and
    [timestamp]. *)
Definition tagged_message (c : Z) (text : JsString) : Message :=
  let untagged :=
    {| sealed := package c text; sender := alice; recipient := bob;
       timestamp := time 0 |} in
  let whole :=
    match Json.stringify (authenticated_object (message_object untagged)) with
    | Json.Text t => t
    | _ => []
    end in
  {| sealed :=
       {| sessionId := id;
          counter := c;
          iv := iv (package c text);
          ciphertext := ciphertext (package c text);
          mac := Stub.base64_encode (Stub.hmac_sha256 (key 2) (Utf8.encode whole));
          extra := [] |};
     sender := alice;
     recipient := bob;
     timestamp := time 0 |}.

(** A message under Alice's name for a session Bob does not hold. *)
Definition unreadable_message : Message :=
  {| sealed := with_sessionId (lit "ffff-alice") (package 1 (lit "lost"));
     sender := alice;
     recipient := bob;
     timestamp := time 0 |}.


End Scenario.

(** ** The class [SecureMessaging] *)

Section SecureMessaging.

Local Set Default Proof Using "Type".

(** *** Node's [crypto] module and the base64 codec *)

(** [createHash('sha256').update(data).digest()] *)
Variable sha256 : Buffer -> Buffer.
(** [createHmac('sha256', key).update(data).digest()] *)
Variable hmac_sha256 : Buffer -> Buffer -> Buffer.
(** [createCipheriv('aes-128-cbc', key, iv)], [update] and [final], on a
    key and an initialisation vector of sixteen bytes each.  The class asks
    [update] and [final] for base64 (for UTF-8 when it deciphers) and
    concatenates the two strings; Node passes both through one string
    decoder, so the result is the encoding of the whole output. *)
Variable aes_128_cbc_encrypt : Buffer -> Buffer -> Buffer -> Buffer.
(** [createDecipheriv('aes-128-cbc', key, iv)], [update] and [final];
    [None] when [final] throws (bad padding, wrong length). *)
Variable aes_128_cbc_decrypt : Buffer -> Buffer -> Buffer -> option Buffer.
(** [createVerify('SHA256').update(data).verify(publicKey, signature,
    'base64')]; [None] when it throws. *)
Variable rsa_sha256_verify : JsString -> JsString -> JsString -> option bool.
(** [buf.toString('base64')] and [Buffer.from(s, 'base64')] *)
Variable base64_encode : Buffer -> JsString.
Variable base64_decode : JsString -> Buffer.

Hypothesis sha256_length : forall data, length (sha256 data) = 32%nat.
Hypothesis hmac_sha256_length :
  forall key data, length (hmac_sha256 key data) = 32%nat.
Hypothesis aes_128_cbc_roundtrip : forall key iv data,
  length key = 16%nat -> length iv = 16%nat ->
  aes_128_cbc_decrypt key iv (aes_128_cbc_encrypt key iv data) = Some data.
Hypothesis base64_roundtrip : forall buf, base64_decode (base64_encode buf) = buf.

(** *** verify(data, signature, publicKey), lines 102-112 *)

Definition verify (data : JsValue) (signature publicKey : JsString) : M bool :=
  _ ← emit CreateVerify;
  (* verify.update(typeof data === 'string' ? data : JSON.stringify(data)) *)
  text ← match data with
         | JString s => mret s
         | _ =>
             match Json.stringify data with
             | Json.Text t => mret t
             | Json.Undefined => throw TypeError
             | Json.Throws => throw TypeError
             end
         end;
  (* try { return verify.verify(...) } catch (error) { return false } *)
  match rsa_sha256_verify publicKey text signature with
  | Some b => mret b
  | None => _ ← emit ConsoleError; mret false
  end.

(** *** generateRandomId(), lines 160-162 *)

Definition generateRandomId : M JsString :=
  bytes ← randomBytes 16;
  mret (hex bytes).

(** *** deriveKeys(masterSecret), lines 169-179 *)

Record DerivedKeys := {
  derivedEncryptionKey : Buffer;
  derivedMacKey : Buffer;
  derivedChainKey : Buffer
}.

Definition deriveKeys (masterSecret : Buffer) : M DerivedKeys :=
  _ ← emit CreateHash;
  let hash1 := sha256 (masterSecret ++ Utf8.encode (lit "encryption")) in
  _ ← emit CreateHash;
  let hash2 := sha256 (masterSecret ++ Utf8.encode (lit "mac")) in
  _ ← emit CreateHash;
  let hash3 := sha256 (masterSecret ++ Utf8.encode (lit "chain")) in
  mret {| derivedEncryptionKey := slice 0 16 hash1;
          derivedMacKey := slice 0 16 hash2;
          derivedChainKey := slice 0 16 hash3 |}.

(** *** establishSession(recipientId, recipientBundle), lines 120-154 *)

Definition establishSession (recipient : JsString) (recipientBundle : Bundle)
    : M JsString :=
  isValid ← verify (JString (preKey recipientBundle))
                   (signature recipientBundle)
                   (identityKey recipientBundle);
  if negb isValid then throw InvalidBundleSignature
  else
    (* recipientBundle.oneTimePreKeys[0] *)
    let selectedOneTimePreKey := head (bundleOneTimePreKeys recipientBundle) in
    sharedSecret ← randomBytes 32;
    randomId ← generateRandomId;
    let id := randomId ++ lit "-" ++ recipient in
    keys ← deriveKeys sharedSecret;
    _ ← sessionKeys_set id
          {| recipientId := recipient;
             encryptionKey := derivedEncryptionKey keys;
             macKey := derivedMacKey keys;
             chainKey := derivedChainKey keys;
             messageCounter := 0 |};
    mret id.

(** *** calculateMAC(messagePackage, macKey), lines 268-272 *)

Definition calculateMAC (messagePackage : JsValue) (key : Buffer) : M JsString :=
  _ ← emit CreateHmac;
  match Json.stringify messagePackage with
  | Json.Text t => mret (base64_encode (hmac_sha256 key (Utf8.encode t)))
  | Json.Undefined => throw TypeError
  | Json.Throws => throw TypeError
  end.

(** *** updateChainKey(sessionId), lines 278-296 *)

Definition ratchet (s : Session) : Session :=
  let newKeyMaterial :=
    hmac_sha256 (Utf8.encode (lit "RatchetStep")) (chainKey s) in
  {| recipientId := recipientId s;
     encryptionKey := slice 0 16 newKeyMaterial;
     macKey := slice 16 32 newKeyMaterial;
     chainKey := slice 0 16 newKeyMaterial;
     messageCounter := messageCounter s |}.

Definition updateChainKey (id : JsString) : M unit :=
  found ← sessionKeys_get id;
  match found with
  | None => throw SessionNotFound
  | Some session =>
      _ ← emit CreateHmac;
      sessionKeys_set id (ratchet session)
  end.

(** *** encryptMessage(sessionId, message), lines 187-220 *)

Definition set_messageCounter (c : Z) (s : Session) : Session :=
  {| recipientId := recipientId s;
     encryptionKey := encryptionKey s;
     macKey := macKey s;
     chainKey := chainKey s;
     messageCounter := c |}.

(** [createCipheriv] and [createDecipheriv] refuse a key or a vector that
    is not sixteen bytes long. *)
Definition check_key_and_iv (key iv : Buffer) : M unit :=
  if negb (length key =? 16)%nat then throw (CryptoError "Invalid key length")
  else if negb (length iv =? 16)%nat
       then throw (CryptoError "Invalid initialization vector")
  else mret tt.

Definition encryptMessage (id : JsString) (message : JsString)
    : M MessagePackage :=
  found ← sessionKeys_get id;
  match found with
  | None => throw SessionNotFound
  | Some session0 =>
      (* session.messageCounter += 1, on the object the map holds *)
      let session := set_messageCounter (js_incr (messageCounter session0)) session0 in
      _ ← sessionKeys_set id session;
      ivBytes ← randomBytes 16;
      _ ← emit CreateCipheriv;
      _ ← check_key_and_iv (encryptionKey session) ivBytes;
      let encrypted :=
        base64_encode
          (aes_128_cbc_encrypt (encryptionKey session) ivBytes
                               (Utf8.encode message)) in
      let messagePackage :=
        {| sessionId := id;
           counter := messageCounter session;
           iv := base64_encode ivBytes;
           ciphertext := encrypted;
           mac := [];
           extra := [] |} in
      tag ← calculateMAC
              (JObject [(lit "sessionId", JString (sessionId messagePackage));
                        (lit "counter", JNumber (counter messagePackage));
                        (lit "iv", JString (iv messagePackage));
                        (lit "ciphertext", JString (ciphertext messagePackage))])
              (macKey session);
      _ ← updateChainKey id;
      mret {| sessionId := sessionId messagePackage;
              counter := counter messagePackage;
              iv := iv messagePackage;
              ciphertext := ciphertext messagePackage;
              mac := tag;
              extra := [] |}
  end.

(** *** decryptMessage(messagePackage), lines 227-260 *)

Definition decryptMessage (messagePackage : MessagePackage) : M JsString :=
  found ← sessionKeys_get (sessionId messagePackage);
  match found with
  | None => throw SessionNotFound
  | Some session =>
      if counter messagePackage <=? messageCounter session
      then throw ReplayDetected
      else
        let providedMac := mac messagePackage in
        (* { ...messagePackage, mac: undefined } *)
        calculatedMac ←
          calculateMAC (authenticated_object messagePackage) (macKey session);
        if bool_decide (providedMac <> calculatedMac) then throw MacMismatch
        else
          let ivBytes := base64_decode (iv messagePackage) in
          _ ← emit CreateDecipheriv;
          _ ← check_key_and_iv (encryptionKey session) ivBytes;
          match aes_128_cbc_decrypt (encryptionKey session) ivBytes
                  (base64_decode (ciphertext messagePackage)) with
          | None => throw (CryptoError "bad decrypt")
          | Some plain =>
              let decrypted := Utf8.decode plain in
              _ ← sessionKeys_set (sessionId messagePackage)
                    (set_messageCounter (counter messagePackage) session);
              _ ← updateChainKey (sessionId messagePackage);
              mret decrypted
          end
  end.

(** *** Key pairs and signatures *)

(** [crypto.generateKeyPairSync('rsa', {modulusLength: 2048, ...})] with
    both keys as PEM text: the pair made from the entropy from a position
    on, and the number of bytes of it the generator used. *)
Variable rsa_generateKeyPair : (nat -> Z) -> nat -> KeyPair * nat.
(** [createSign('SHA256').update(data).sign(privateKey, 'base64')];
    [None] when it throws. *)
Variable rsa_sha256_sign : JsString -> JsString -> option JsString.

(** A generated private key signs every text, and the signature verifies
    under the public key of the pair. *)
Hypothesis rsa_sign_verify : forall e n text,
  exists sig,
    rsa_sha256_sign (privateKey (rsa_generateKeyPair e n).1) text = Some sig
    /\ rsa_sha256_verify (publicKey (rsa_generateKeyPair e n).1) text sig
       = Some true.

(** *** generateKeyPair(), lines 26-40 *)

Definition generateKeyPair : M KeyPair := fun w =>
  let generated := rsa_generateKeyPair (entropy w) (drawn w) in
  (Normal generated.1, consume generated.2 w).

(** *** initialize(), lines 45-58 *)

(** [for (let i = 0; i < n; i++) this.oneTimePreKeys.push(this.generateKeyPair())] *)
Fixpoint generateOneTimePreKeys (n : nat) : M unit :=
  match n with
  | O => mret tt
  | S n' =>
      pair ← generateKeyPair;
      _ ← oneTimePreKeys_push pair;
      generateOneTimePreKeys n'
  end.

(** The method is [async] and awaits nothing: its body runs when it is
    called.  Its last statement writes a line with [console.log], which the
    world does not hold. *)
Definition initialize : M unit :=
  identity ← generateKeyPair;
  _ ← set_identityKeyPair identity;
  pre ← generateKeyPair;
  _ ← set_preKeyPair pre;
  generateOneTimePreKeys 5.

(** *** sign(data, privateKey), lines 88-93 *)

Definition sign (data : JsValue) (key : JsString) : M JsString :=
  (* sign.update(typeof data === 'string' ? data : JSON.stringify(data)) *)
  text ← match data with
         | JString s => mret s
         | _ =>
             match Json.stringify data with
             | Json.Text t => mret t
             | Json.Undefined => throw TypeError
             | Json.Throws => throw TypeError
             end
         end;
  match rsa_sha256_sign key text with
  | Some s => mret s
  | None => throw (CryptoError "sign")
  end.

(** *** register(userId), lines 65-80 *)

Definition register (user : JsString) : M Bundle := fun w =>
  match identityKeyPair (this w) with
  | None => throw ClientNotInitialized w
  | Some identity =>
      (* this.preKeyPair.publicKey *)
      match preKeyPair (this w) with
      | None => throw TypeError w
      | Some pre =>
          (sig ← sign (JString (publicKey pre)) (privateKey identity);
           mret {| userId := user;
                   identityKey := publicKey identity;
                   preKey := publicKey pre;
                   bundleOneTimePreKeys :=
                     List.map publicKey (oneTimePreKeys (this w));
                   signature := sig |}) w
      end
  end.

(** *** Sequences of calls *)

(** A call of a method of the class, with its arguments. *)
Inductive Call :=
| CallGenerateKeyPair
| CallInitialize
| CallRegister (user : JsString)
| CallSign (data : JsValue) (key : JsString)
| CallVerify (data : JsValue) (signature publicKey : JsString)
| CallEstablishSession (recipient : JsString) (recipientBundle : Bundle)
| CallGenerateRandomId
| CallDeriveKeys (masterSecret : Buffer)
| CallEncryptMessage (id message : JsString)
| CallDecryptMessage (messagePackage : MessagePackage)
| CallCalculateMAC (messagePackage : JsValue) (key : Buffer)
| CallUpdateChainKey (id : JsString).

(** The world a computation leaves, whether it returns or throws. *)
Definition after {A : Type} (m : M A) (w : World) : World := (m w).2.

Definition call (c : Call) : World -> World :=
  match c with
  | CallGenerateKeyPair => after generateKeyPair
  | CallInitialize => after initialize
  | CallRegister user => after (register user)
  | CallSign data key => after (sign data key)
  | CallVerify data signature publicKey => after (verify data signature publicKey)
  | CallEstablishSession recipient recipientBundle =>
      after (establishSession recipient recipientBundle)
  | CallGenerateRandomId => after generateRandomId
  | CallDeriveKeys masterSecret => after (deriveKeys masterSecret)
  | CallEncryptMessage id message => after (encryptMessage id message)
  | CallDecryptMessage messagePackage => after (decryptMessage messagePackage)
  | CallCalculateMAC messagePackage key => after (calculateMAC messagePackage key)
  | CallUpdateChainKey id => after (updateChainKey id)
  end.

(** The calls of a list made one after the other, whatever each returns
    or throws. *)
Definition run (calls : list Call) (w : World) : World :=
  fold_left (fun w c => call c w) calls w.

(** [decryptMessage] called on each package in turn. *)
Fixpoint decryptMessages (packages : list MessagePackage) : M (list JsString) :=
  match packages with
  | [] => mret []
  | p :: rest =>
      m ← decryptMessage p;
      ms ← decryptMessages rest;
      mret (m :: ms)
  end.

(** A session as the class makes them: keys of 16 bytes, a counter that is
    not negative, and an identifier made of 32 characters, a hyphen and the
    session's recipient. *)
Definition session_well_formed (id : JsString) (s : Session) : Prop :=
  length (encryptionKey s) = 16%nat
  /\ length (macKey s) = 16%nat
  /\ length (chainKey s) = 16%nat
  /\ 0 <= messageCounter s
  /\ exists h, length h = 32%nat /\ id = h ++ lit "-" ++ recipientId s.

Definition sessions_well_formed (w : World) : Prop :=
  forall id s,
    sessionKeys (this w) !! id = Some s -> session_well_formed id s.

(** The key pairs that [n] successive calls of [generateKeyPair] return
    from a position of the entropy on, and the position after them. *)
Fixpoint generated (e : nat -> Z) (from n : nat) : list KeyPair * nat :=
  match n with
  | O => ([], from)
  | S n' =>
      let g := rsa_generateKeyPair e from in
      let rest := generated e (from + g.2) n' in
      (g.1 :: rest.1, rest.2)
  end.

(** The chain key one ratchet advance puts in the place of the chain key
    [key], and the MAC key it puts beside it. *)
Definition next_chainKey (key : Buffer) : Buffer :=
  slice 0 16 (hmac_sha256 (Utf8.encode (lit "RatchetStep")) key).

Definition next_macKey (key : Buffer) : Buffer :=
  slice 16 32 (hmac_sha256 (Utf8.encode (lit "RatchetStep")) key).

(** The number of calls of [initialize] in a list of calls. *)
Definition initializations (calls : list Call) : nat :=
  length (List.filter (fun c => match c with CallInitialize => true | _ => false end)
                 calls).

(** *** Definitions used to state the properties *)

(** The session [establishSession] stores when the 32 bytes it draws are
    [secret]. *)
Definition initial_session (recipient : JsString) (secret : Buffer) : Session :=
  {| recipientId := recipient;
     encryptionKey := slice 0 16 (sha256 (secret ++ Utf8.encode (lit "encryption")));
     macKey := slice 0 16 (sha256 (secret ++ Utf8.encode (lit "mac")));
     chainKey := slice 0 16 (sha256 (secret ++ Utf8.encode (lit "chain")));
     messageCounter := 0 |}.

(** [encryptMessage] called on each message in turn. *)
Fixpoint encryptMessages (id : JsString) (messages : list JsString)
    : M (list MessagePackage) :=
  match messages with
  | [] => mret []
  | message :: rest =>
      p ← encryptMessage id message;
      ps ← encryptMessages id rest;
      mret (p :: ps)
  end.

(** The package [encryptMessage] returns for a session whose counter it has
    already advanced, with [ivBytes] as the initialisation vector. *)
Definition sealed_package (session : Session) (id message : JsString)
    (ivBytes : Buffer) : MessagePackage :=
  let unsigned :=
    {| sessionId := id;
       counter := messageCounter session;
       iv := base64_encode ivBytes;
       ciphertext :=
         base64_encode (aes_128_cbc_encrypt (encryptionKey session) ivBytes
                                            (Utf8.encode message));
       mac := [];
       extra := [] |} in
  {| sessionId := sessionId unsigned;
     counter := counter unsigned;
     iv := iv unsigned;
     ciphertext := ciphertext unsigned;
     mac := base64_encode
              (hmac_sha256 (macKey session)
                 (Utf8.encode (authenticated_prefix unsigned ++ lit "}")));
     extra := [] |}.

(** The tag [decryptMessage] computes for a package whose authenticated
    object is written [text]. *)
Definition expected_mac (session : Session) (text : JsString) : JsString :=
  base64_encode (hmac_sha256 (macKey session) (Utf8.encode text)).

(** The text [verify] hands to [verify.update], or [None] when there is
    none to hand over: [JSON.stringify] threw, or gave [undefined]. *)
Definition verify_input (data : JsValue) : option JsString :=
  match data with
  | JString s => Some s
  | _ =>
      match Json.stringify data with
      | Json.Text t => Some t
      | _ => None
      end
  end.

(** The identifier [establishSession] gives a session. *)
Definition fresh_session_id (recipient : JsString) (randomId : Buffer) : JsString :=
  hex randomId ++ lit "-" ++ recipient.

(** The world [establishSession] leaves when the signature is valid. *)
Definition established (recipient : JsString) (w : World) : World :=
  let w1 := record CreateVerify w in
  let secret := next_bytes 32 w1 in
  let w2 := draw 32 w1 in
  let id := fresh_session_id recipient (next_bytes 16 w2) in
  with_sessions (insert id (initial_session recipient secret))
    (record CreateHash (record CreateHash (record CreateHash (draw 16 w2)))).

(** A package with properties added after [mac]. *)
Definition with_extra (added : list (JsString * JsValue)) (p : MessagePackage)
    : MessagePackage :=
  {| sessionId := sessionId p; counter := counter p; iv := iv p;
     ciphertext := ciphertext p; mac := mac p; extra := added |}.

(** The session an instance holds under an identifier. *)
Definition session_of (w : World) (id : JsString) : option Session :=
  sessionKeys (this w) !! id.

(** The output of the ratchet's HMAC for a session. *)
Definition ratchet_output (s : Session) : Buffer :=
  hmac_sha256 (Utf8.encode (lit "RatchetStep")) (chainKey s).

(** ** The methods of the client *)

(** *** startSession(recipientId), lines 157-174 *)

Definition startSession (recipientId : JsString) : CM JsString :=
  try_catch
    (recipientBundle ← makeRequest (GetUser recipientId) get_user;
     id ← on_messaging (establishSession recipientId recipientBundle);
     _ ← activeSessions_set recipientId id;
     _ ← saveSessionsToFile;
     _ ← console_log (lit "Session established with " ++ recipientId);
     mret id)
    (fun error =>
       _ ← console_error (lit "Failed to start session: ") error;
       raise (UserNotFound recipientId)).

(** *** sendMessage(recipientId, message), lines 181-212 *)

Definition sendMessage (recipientId message : JsString) : CM unit :=
  found ← activeSessions_get recipientId;
  (* if (!sessionId): no entry, or the empty string *)
  id ← (match (found : option JsString) with
        | Some (u :: rest) => mret (u :: rest)
        | _ => try_catch (startSession recipientId) (fun error => raise error)
        end : CM JsString);
  encryptedMessage ← on_messaging (encryptMessage id message);
  user ← this_userId_get;
  now ← Date_now;
  let posted :=
    {| sealed := encryptedMessage; sender := user; recipient := recipientId;
       timestamp := now |} in
  try_catch
    (_ ← makeRequest (SendMessage posted) send_message;
     _ ← saveSessionsToFile;
     console_log (lit "Message sent to " ++ recipientId))
    (fun error =>
       _ ← console_error (lit "Failed to send message: ") error;
       raise error).

(** *** receiveMessages(), lines 217-266 *)

(** The body of the loop, for one message: [None] when the message is
    skipped. *)
Definition receiveMessage (message : Message) : CM (option Decrypted) :=
  try_catch
    (known ← activeSessions_has (sender message);
     ready ← (if (known : bool) then (mret true : CM bool)
              else
                try_catch
                  (senderBundle ← makeRequest (GetUser (sender message)) get_user;
                   id ← on_messaging
                          (establishSession (sender message) senderBundle);
                   _ ← activeSessions_set (sender message) id;
                   _ ← saveSessionsToFile;
                   mret true)
                  (fun error =>
                     _ ← console_error
                           (lit "Failed to establish session with "
                            ++ sender message ++ lit ": ") error;
                     (* continue *)
                     mret false));
     if (ready : bool) then
       decryptedMessage ← on_messaging (decryptMessage (message_object message));
       _ ← saveSessionsToFile;
       mret (Some {| from := sender message;
                     content := decryptedMessage;
                     decryptedTimestamp := timestamp message |})
     else mret None)
    (fun error =>
       _ ← console_error
             (lit "Failed to decrypt message from " ++ sender message ++ lit ": ")
             error;
       mret None).

(** [for (const message of messages) { ... }], with the array the loop
    pushes to. *)
Fixpoint receiveEach (messages : list Message) : CM (list Decrypted) :=
  match messages with
  | [] => mret []
  | message :: rest =>
      received ← receiveMessage message;
      others ← receiveEach rest;
      mret (match received with
            | Some decrypted => decrypted :: others
            | None => others
            end)
  end.

Definition receiveMessages : CM (list Decrypted) :=
  try_catch
    (user ← this_userId_get;
     messages ← makeRequest (GetMessages user) get_messages;
     match messages with
     | [] => _ ← console_log (lit "No new messages"); mret []
     | _ => receiveEach messages
     end)
    (fun error =>
       _ ← console_error (lit "Failed to receive messages: ") error;
       mret []).

(** *** listUsers(), lines 142-150 *)

(** [response.users], when it is an array. *)
Definition users_of (response : JsValue) : option (list JsValue) :=
  match response with
  | JObject props =>
      match List.find (fun kv => bool_decide (kv.1 = lit "users")) props with
      | Some (_, JArray users) => Some users
      | _ => None
      end
  | _ => None
  end.

(** [user !== userId], for a string [userId]. *)
Definition is_not (userId : JsString) (user : JsValue) : bool :=
  match user with
  | JString s => negb (bool_decide (s = userId))
  | _ => true
  end.

Definition listUsers : CM (list JsValue) :=
  try_catch
    (response ← makeRequest ListUsers list_users;
     user ← this_userId_get;
     match users_of response with
     | Some users => mret (List.filter (is_not user) users)
     | None => raise (Thrown TypeError)
     end)
    (fun error =>
       _ ← console_error (lit "Failed to list users: ") error;
       mret []).

(** *** Definitions used to state the properties of the client *)

(** An identifier names a user when it is 32 characters, a hyphen and the
    user. *)
Definition names (id user : JsString) : Prop :=
  exists h, length h = 32%nat /\ id = h ++ lit "-" ++ user.

(** The rest of the body of the loop of [receiveMessages] once the sender
    has an entry in [this.activeSessions]. *)
Definition decryptAndCollect (message : Message) (cw : ClientWorld)
    : ClientCompletion (option Decrypted) * ClientWorld :=
  match decryptMessage (message_object message) (messaging cw) with
  | (Normal text, w) =>
      (Returned (Some {| from := sender message; content := text;
                         decryptedTimestamp := timestamp message |}),
       saving (with_messaging w cw))
  | (Throw e, w) =>
      (Returned None,
       wrote (LogError (lit "Failed to decrypt message from "
                        ++ sender message ++ lit ": ") (Thrown e))
             (with_messaging w cw))
  end.

(** What the loop of [receiveMessages] collects from messages whose
    senders all have an entry in [this.activeSessions]: each message is
    handed to [decryptMessage] in the state the messages before it left;
    one that is accepted gives an entry, one that is refused gives none,
    and the loop goes on to the next. *)
Fixpoint readEach (messages : list Message) (w : World) : list Decrypted :=
  match messages with
  | [] => []
  | message :: rest =>
      match decryptMessage (message_object message) w with
      | (Normal text, w') =>
          {| from := sender message; content := text;
             decryptedTimestamp := timestamp message |} :: readEach rest w'
      | (Throw _, w') => readEach rest w'
      end
  end.

(** The rest of [sendMessage] once it has a session identifier. *)
Definition encryptAndPost (id recipientId message : JsString) (cw : ClientWorld)
    : ClientCompletion unit * ClientWorld :=
  match encryptMessage id message (messaging cw) with
  | (Normal p, w) =>
      let posted :=
        {| sealed := p; sender := this_userId cw; recipient := recipientId;
           timestamp := clock cw (length (requests cw)) |} in
      let cw1 := sent (SendMessage posted) (with_messaging w cw) in
      match send_message (relay cw) (length (requests cw)) with
      | Resolved _ =>
          (Returned tt,
           wrote (Log (lit "Message sent to " ++ recipientId)) (saving cw1))
      | Rejected text =>
          (Raised (RequestFailed text),
           wrote (LogError (lit "Failed to send message: ") (RequestFailed text))
                 cw1)
      end
  | (Throw e, w) => (Raised (Thrown e), with_messaging w cw)
  end.

(** A call of a method of the client, with its arguments. *)
Inductive ClientCall :=
| CallStartSession (recipientId : JsString)
| CallSendMessage (recipientId message : JsString)
| CallReceiveMessages
| CallListUsers.

Definition client_after {A : Type} (m : CM A) (cw : ClientWorld) : ClientWorld :=
  (m cw).2.

Definition client_call (c : ClientCall) : ClientWorld -> ClientWorld :=
  match c with
  | CallStartSession recipientId => client_after (startSession recipientId)
  | CallSendMessage recipientId message =>
      client_after (sendMessage recipientId message)
  | CallReceiveMessages => client_after receiveMessages
  | CallListUsers => client_after listUsers
  end.

(** The calls of a list made one after the other, each awaited before the
    next, whatever each returns or throws. *)
Definition client_run (calls : list ClientCall) (cw : ClientWorld) : ClientWorld :=
  fold_left (fun cw c => client_call c cw) calls cw.

(** The sessions of the instance are well formed, and every entry of
    [this.activeSessions] holds the identifier of a session the instance
    holds for that user. *)
Definition client_well_formed (cw : ClientWorld) : Prop :=
  sessions_well_formed (messaging cw)
  /\ forall user id,
       activeSessions cw !! user = Some id ->
       exists s, session_of (messaging cw) id = Some s /\ recipientId s = user.

(** ** Examples *)

Example utf8_ascii : Utf8.encode (lit "hi") = [104; 105].
Proof. reflexivity. Qed.

Example utf8_euro : Utf8.encode [0x20AC] = [0xE2; 0x82; 0xAC].
Proof. reflexivity. Qed.

Example utf8_pair : Utf8.encode [0xD83D; 0xDE00] = [0xF0; 0x9F; 0x98; 0x80].
Proof. reflexivity. Qed.

Example utf8_pair_back : Utf8.decode [0xF0; 0x9F; 0x98; 0x80] = [0xD83D; 0xDE00].
Proof. reflexivity. Qed.

Example utf8_lone_surrogate : Utf8.decode (Utf8.encode [0xD800]) = [0xFFFD].
Proof. reflexivity. Qed.

Example utf8_truncated : Utf8.decode [0xE2; 0x82; 0x41] = [0xFFFD; 0x41].
Proof. reflexivity. Qed.

(** [{a: 12, m: undefined, b: 'x'}] is written without [m]. *)
Example stringify_object :
  Json.stringify (JObject [(lit "a", JNumber 12); (lit "m", JUndefined);
                           (lit "b", JString (lit "x"))])
  = Json.Text [123; 34; 97; 34; 58; 49; 50; 44; 34; 98; 34; 58; 34; 120; 34; 125].
Proof. reflexivity. Qed.

Example stringify_undefined : Json.stringify JUndefined = Json.Undefined.
Proof. reflexivity. Qed.

Example stringify_lone_surrogate :
  Json.stringify (JString [0xD800]) = Json.Text (34 :: lit "\ud800" ++ [34]).
Proof. reflexivity. Qed.

Example js_incr_small : js_incr 41 = 42.
Proof. reflexivity. Qed.

Example js_incr_limit : js_incr (2 ^ 53) = 2 ^ 53.
Proof. reflexivity. Qed.


Example hex_bytes : hex [0; 171; 255] = lit "00abff".
Proof. reflexivity. Qed.


(** ** The UTF-8 round trip *)

Section Utf8_roundtrip.
Import Utf8.

Ltac cmp :=
  repeat match goal with
    | |- context [?a <=? ?b] => destruct (Z.leb_spec a b); try lia
    | |- context [?a <? ?b] => destruct (Z.ltb_spec a b); try lia
    | |- context [?a =? ?b] => destruct (Z.eqb_spec a b); try lia
    end; simpl.

Lemma start_ascii (b : Z) : 0 <= b < 0x80 -> start b = ([b], initial).
Proof. intros. unfold start. cmp. reflexivity. Qed.

Lemma start_two (b : Z) :
  0xC2 <= b <= 0xDF -> start b = ([], State (b - 0xC0) 1 0x80 0xBF).
Proof. intros. unfold start. cmp. reflexivity. Qed.

Lemma start_three (b : Z) :
  0xE0 <= b <= 0xEF ->
  start b = ([], State (b - 0xE0) 2 (if b =? 0xE0 then 0xA0 else 0x80)
                                   (if b =? 0xED then 0x9F else 0xBF)).
Proof.
  intros. unfold start.
  destruct (Z.leb_spec 0 b), (Z.ltb_spec b 0x80); try lia; simpl.
  all: destruct (Z.leb_spec 0xC2 b), (Z.leb_spec b 0xDF); try lia; simpl.
  all: destruct (Z.leb_spec 0xE0 b), (Z.leb_spec b 0xEF); try lia; reflexivity.
Qed.

Lemma start_four (b : Z) :
  0xF0 <= b <= 0xF4 ->
  start b = ([], State (b - 0xF0) 3 (if b =? 0xF0 then 0x90 else 0x80)
                                   (if b =? 0xF4 then 0x8F else 0xBF)).
Proof.
  intros. unfold start.
  destruct (Z.leb_spec 0 b), (Z.ltb_spec b 0x80); try lia; simpl.
  all: destruct (Z.leb_spec 0xC2 b), (Z.leb_spec b 0xDF); try lia; simpl.
  all: destruct (Z.leb_spec 0xE0 b), (Z.leb_spec b 0xEF); try lia; simpl.
  all: destruct (Z.leb_spec 0xF0 b), (Z.leb_spec b 0xF4); try lia; reflexivity.
Qed.

Lemma decode_from_initial (b : Z) (bs : Buffer) :
  decode_from initial (b :: bs)
  = fst (start b) ++ decode_from (snd (start b)) bs.
Proof. simpl. destruct (start b); reflexivity. Qed.

Lemma decode_from_last (cp lo up b : Z) (bs : Buffer) :
  lo <= b <= up ->
  decode_from (State cp 1 lo up) (b :: bs)
  = code_units (cp * 64 + (b - 0x80)) ++ decode_from initial bs.
Proof. intros. simpl. cmp. reflexivity. Qed.

Lemma decode_from_more (cp lo up b : Z) (n : nat) (bs : Buffer) :
  lo <= b <= up ->
  decode_from (State cp (S (S n)) lo up) (b :: bs)
  = decode_from (State (cp * 64 + (b - 0x80)) (S n) 0x80 0xBF) bs.
Proof. intros. simpl. cmp. reflexivity. Qed.

Lemma decode_code_point (cp : Z) (tail : Buffer) :
  0 <= cp < 0x110000 -> ~ (0xD800 <= cp <= 0xDFFF) ->
  decode_from initial (encode_code_point cp ++ tail)
  = code_units cp ++ decode_from initial tail.
Proof.
  intros Hr Hs. unfold encode_code_point.
  destruct (Z.ltb_spec cp 0x80).
  { simpl app. rewrite decode_from_initial, start_ascii by lia.
    unfold code_units. cmp. reflexivity. }
  pose proof (Z.div_mod cp 64 ltac:(lia)).
  pose proof (Z.mod_pos_bound cp 64 ltac:(lia)).
  destruct (Z.ltb_spec cp 0x800).
  { simpl app. rewrite decode_from_initial, start_two by lia. simpl fst; simpl snd.
    rewrite decode_from_last by lia. simpl app. do 2 f_equal. lia. }
  pose proof (Z.div_mod (cp / 64) 64 ltac:(lia)).
  pose proof (Z.mod_pos_bound (cp / 64) 64 ltac:(lia)).
  assert (cp / 4096 = cp / 64 / 64) as E1
    by (rewrite Z.div_div by lia; reflexivity).
  destruct (Z.ltb_spec cp 0x10000).
  { rewrite E1. simpl app.
    rewrite decode_from_initial, start_three by lia. simpl fst; simpl snd.
    rewrite decode_from_more by (cmp; lia).
    rewrite decode_from_last by lia. simpl app. do 2 f_equal. lia. }
  pose proof (Z.div_mod (cp / 64 / 64) 64 ltac:(lia)).
  pose proof (Z.mod_pos_bound (cp / 64 / 64) 64 ltac:(lia)).
  assert (cp / 262144 = cp / 64 / 64 / 64) as E2
    by (rewrite !Z.div_div by lia; reflexivity).
  rewrite E1, E2. simpl app.
  rewrite decode_from_initial, start_four by lia. simpl fst; simpl snd.
  rewrite decode_from_more by (cmp; lia).
  rewrite decode_from_more by lia.
  rewrite decode_from_last by lia. simpl app. do 2 f_equal. lia.
Qed.

Lemma pair_code_point_range (hi lo : Z) :
  is_high_surrogate hi = true -> is_low_surrogate lo = true ->
  0x10000 <= pair_code_point hi lo < 0x110000.
Proof. unfold is_high_surrogate, is_low_surrogate, pair_code_point. lia. Qed.

Lemma code_units_pair (hi lo : Z) :
  is_high_surrogate hi = true -> is_low_surrogate lo = true ->
  code_units (pair_code_point hi lo) = [hi; lo].
Proof.
  intros Hh Hl. pose proof (pair_code_point_range hi lo Hh Hl) as Hr.
  unfold code_units. destruct (Z.ltb_spec (pair_code_point hi lo) 0x10000); [lia|].
  unfold is_high_surrogate, is_low_surrogate, pair_code_point in *.
  replace (65536 + (hi - 55296) * 1024 + (lo - 56320) - 65536)
    with ((lo - 56320) + (hi - 55296) * 1024) by lia.
  rewrite Z.div_add, Z.mod_add by lia.
  rewrite Z.div_small, Z.mod_small by lia.
  f_equal; [lia | f_equal; lia].
Qed.

Lemma decode_encode_app (n : nat) (s : JsString) (tail : Buffer) :
  (length s <= n)%nat -> well_formed s = true ->
  decode_from initial (encode s ++ tail) = s ++ decode_from initial tail.
Proof.
  revert s. induction n as [|n IH]; intros s Hlen Hwf.
  { destruct s; [reflexivity | simpl in Hlen; lia]. }
  destruct s as [|u rest]; [reflexivity|].
  simpl in Hwf |- *.
  destruct (is_high_surrogate u) eqn:Hh.
  - destruct rest as [|lo rest']; [discriminate|].
    apply andb_true_iff in Hwf as [Hl Hwf]. rewrite Hl.
    rewrite <- app_assoc.
    pose proof (pair_code_point_range u lo Hh Hl).
    rewrite decode_code_point by lia.
    rewrite code_units_pair by assumption.
    rewrite IH by (simpl in Hlen |- *; (assumption || lia)).
    reflexivity.
  - destruct (is_low_surrogate u) eqn:Hl; [discriminate|].
    apply andb_true_iff in Hwf as [Hu Hwf].
    rewrite <- app_assoc.
    rewrite decode_code_point.
    + rewrite IH by (simpl in Hlen; (assumption || lia)).
      unfold code_units.
      unfold is_code_unit in Hu.
      destruct (Z.ltb_spec u 0x10000); [reflexivity | lia].
    + unfold is_code_unit in Hu. lia.
    + unfold is_high_surrogate, is_low_surrogate in *. lia.
Qed.

(** Decoding the encoding of a well-formed string gives the string back. *)
Lemma utf8_roundtrip (s : JsString) :
  well_formed s = true -> decode (encode s) = s.
Proof.
  intros Hwf. unfold decode.
  rewrite <- (app_nil_r (encode s)).
  rewrite (decode_encode_app (length s) s []) by (assumption || lia).
  simpl. apply app_nil_r.
Qed.

Lemma utf8_encode_inj (s t : JsString) :
  well_formed s = true -> well_formed t = true ->
  encode s = encode t -> s = t.
Proof.
  intros Hs Ht E. rewrite <- (utf8_roundtrip s Hs), <- (utf8_roundtrip t Ht).
  now rewrite E.
Qed.

End Utf8_roundtrip.

(** ** Facts about strings: well-formedness and the UTF-8 encoder *)

Lemma list_ind2 {A : Type} (P : list A -> Prop) :
  P [] -> (forall x, P [x]) ->
  (forall x y l, P l -> P (y :: l) -> P (x :: y :: l)) ->
  forall l, P l.
Proof.
  intros H0 H1 H2 l.
  assert (P l /\ forall x, P (x :: l)) as [H _]; [|exact H].
  induction l as [|y l [IH1 IH2]]; split; auto.
Qed.

Lemma plain_units_well_formed (s : JsString) :
  forallb plain_unit s = true -> well_formed s = true.
Proof.
  induction s as [|u s IH]; [reflexivity|]. simpl. unfold plain_unit.
  intros H. apply andb_true_iff in H as [Hu Hs].
  apply andb_true_iff in Hu as [Hu Hl]. apply andb_true_iff in Hu as [Hu Hh].
  apply negb_true_iff in Hh, Hl. rewrite Hh, Hl, Hu. simpl. auto.
Qed.

Lemma well_formed_app (a b : JsString) :
  well_formed a = true -> well_formed (a ++ b) = well_formed b.
Proof.
  induction a as [| u | u lo a IH1 IH2] using list_ind2; intros H.
  - reflexivity.
  - simpl in H |- *. destruct (is_high_surrogate u); [discriminate|].
    destruct (is_low_surrogate u); [discriminate|].
    apply andb_true_iff in H as [-> _]. reflexivity.
  - change (well_formed (u :: lo :: a ++ b) = well_formed b).
    simpl in H. simpl.
    destruct (is_high_surrogate u).
    + apply andb_true_iff in H as [-> H]. simpl. auto.
    + destruct (is_low_surrogate u); [discriminate|].
      apply andb_true_iff in H as [-> H]. simpl.
      apply (IH2 H).
Qed.

Lemma well_formed_app_intro (a b : JsString) :
  well_formed a = true -> well_formed b = true -> well_formed (a ++ b) = true.
Proof. intros Ha Hb. now rewrite well_formed_app. Qed.

(** The encoder reads a well-formed prefix on its own. *)
Lemma utf8_encode_app (a b : JsString) :
  well_formed a = true -> Utf8.encode (a ++ b) = Utf8.encode a ++ Utf8.encode b.
Proof.
  induction a as [| u | u lo a IH1 IH2] using list_ind2; intros H.
  - reflexivity.
  - simpl in H. destruct (is_high_surrogate u) eqn:Hh; [discriminate|].
    destruct (is_low_surrogate u) eqn:Hl; [discriminate|].
    simpl. rewrite Hh, Hl. now rewrite app_nil_r.
  - change (Utf8.encode (u :: lo :: a ++ b)
            = Utf8.encode (u :: lo :: a) ++ Utf8.encode b).
    simpl in H.
    destruct (is_high_surrogate u) eqn:Hh.
    + apply andb_true_iff in H as [Hl H].
      simpl. rewrite Hh, Hl. rewrite (IH1 H). now rewrite app_assoc.
    + destruct (is_low_surrogate u) eqn:Hl; [discriminate|].
      apply andb_true_iff in H as [_ H].
      specialize (IH2 H).
      change (Utf8.encode (u :: (lo :: a) ++ b)
              = Utf8.encode (u :: lo :: a) ++ Utf8.encode b).
      remember (lo :: a) as t. simpl. rewrite Hh, Hl.
      rewrite IH2. now rewrite app_assoc.
Qed.

(** ** Facts about [JSON.stringify]: a quoted string can be read back *)

Section JsonFacts.
Import Json.

Lemma unhex_hex_digit (d : Z) : 0 <= d < 16 -> unhex (hex_digit d) = d.
Proof.
  intros. unfold unhex, hex_digit.
  destruct (Z.ltb_spec d 10).
  - destruct (Z.ltb_spec (48 + d) 58); lia.
  - destruct (Z.ltb_spec (87 + d) 58); lia.
Qed.

Lemma hex_digit_ascii (d : Z) : 0 <= d < 16 -> 48 <= hex_digit d < 128.
Proof. intros. unfold hex_digit. destruct (Z.ltb_spec d 10); lia. Qed.

Lemma unquote_unicode_escape (u : Z) (r : JsString) :
  is_code_unit u = true ->
  unquote_units (unicode_escape u ++ r) = push u (unquote_units r).
Proof.
  unfold is_code_unit. intros Hu.
  change (unquote_units (unicode_escape u ++ r))
    with (push (4096 * unhex (hex_digit (u / 4096 mod 16))
                + 256 * unhex (hex_digit (u / 256 mod 16))
                + 16 * unhex (hex_digit (u / 16 mod 16))
                + unhex (hex_digit (u mod 16))) (unquote_units r)).
  rewrite !unhex_hex_digit by (apply Z.mod_pos_bound; lia).
  f_equal.
  pose proof (Z.div_mod u 16 ltac:(lia)).
  pose proof (Z.div_mod (u / 16) 16 ltac:(lia)).
  pose proof (Z.div_mod (u / 16 / 16) 16 ltac:(lia)).
  replace (u / 256) with (u / 16 / 16) by (rewrite Z.div_div by lia; reflexivity).
  replace (u / 4096) with (u / 16 / 16 / 16)
    by (rewrite !Z.div_div by lia; reflexivity).
  assert (u / 16 / 16 / 16 < 16) by (rewrite !Z.div_div by lia; apply Z.div_lt_upper_bound; lia).
  assert (0 <= u / 16 / 16 / 16) by (rewrite !Z.div_div by lia; apply Z.div_pos; lia).
  rewrite (Z.mod_small (u / 16 / 16 / 16)) by lia.
  lia.
Qed.

Lemma unquote_verbatim (u : Z) (r : JsString) :
  u <> 34 -> u <> 92 -> unquote_units (u :: r) = push u (unquote_units r).
Proof.
  intros. simpl.
  destruct (Z.eqb_spec u 34); [lia|]. destruct (Z.eqb_spec u 92); [lia|].
  reflexivity.
Qed.

Lemma unquote_quote_unit (u : Z) (r : JsString) :
  is_code_unit u = true ->
  unquote_units (quote_unit u ++ r) = push u (unquote_units r).
Proof.
  intros Hu. unfold quote_unit.
  repeat match goal with
         | |- context [if ?a =? ?b then _ else _] =>
             destruct (Z.eqb_spec a b); [subst; reflexivity|]
         end.
  destruct ((u <? 32) || is_low_surrogate u).
  - now apply unquote_unicode_escape.
  - now apply unquote_verbatim.
Qed.

Lemma quote_units_cons (u : Z) (rest : JsString) :
  quote_units (u :: rest)
  = if is_high_surrogate u then
      match rest with
      | lo :: rest' =>
          if is_low_surrogate lo then u :: lo :: quote_units rest'
          else unicode_escape u ++ quote_units rest
      | [] => unicode_escape u
      end
    else quote_unit u ++ quote_units rest.
Proof. reflexivity. Qed.

Lemma unquote_quote_units (s r : JsString) :
  valid_string s = true ->
  unquote_units (quote_units s ++ 34 :: r) = Some (s, r).
Proof.
  unfold valid_string.
  induction s as [| u | u lo s IH1 IH2] using list_ind2; intros H.
  - reflexivity.
  - simpl in H. apply andb_true_iff in H as [Hu _].
    rewrite quote_units_cons.
    destruct (is_high_surrogate u).
    + now rewrite unquote_unicode_escape.
    + change (quote_units []) with (@nil Z).
      rewrite app_nil_r, unquote_quote_unit by assumption. reflexivity.
  - pose proof H as H'. simpl in H.
    apply andb_true_iff in H as [Hu H].
    specialize (IH2 H).
    apply andb_true_iff in H as [Hlo H].
    specialize (IH1 H).
    rewrite quote_units_cons.
    destruct (is_high_surrogate u) eqn:Hh.
    + destruct (is_low_surrogate lo) eqn:Hl.
      * unfold is_high_surrogate, is_low_surrogate in Hh, Hl.
        change (unquote_units (u :: lo :: quote_units s ++ 34 :: r)
                = Some (u :: lo :: s, r)).
        rewrite unquote_verbatim by lia. rewrite unquote_verbatim by lia.
        rewrite IH1. reflexivity.
      * rewrite <- app_assoc, unquote_unicode_escape by assumption.
        rewrite IH2. reflexivity.
    + rewrite <- app_assoc, unquote_quote_unit by assumption.
      rewrite IH2. reflexivity.
Qed.

(** A quoted string ends where its closing quotation mark is: what is
    quoted and what follows are both determined by the text. *)
Lemma quote_prefix_free (s s' r r' : JsString) :
  valid_string s = true -> valid_string s' = true ->
  quote s ++ r = quote s' ++ r' -> s = s' /\ r = r'.
Proof.
  intros Hs Hs' E. unfold quote in E. simpl in E.
  injection E as E. rewrite <- !app_assoc in E. simpl in E.
  pose proof (unquote_quote_units s r Hs) as P.
  rewrite E, (unquote_quote_units s' r' Hs') in P.
  injection P as -> ->. auto.
Qed.

Lemma quote_inj (s s' : JsString) :
  valid_string s = true -> valid_string s' = true ->
  quote s = quote s' -> s = s'.
Proof.
  intros Hs Hs' E.
  apply (quote_prefix_free s s' [] [] Hs Hs'). now rewrite !app_nil_r.
Qed.

(** *** The quoted text is well formed *)

Lemma ascii_plain (u : Z) : is_ascii u = true -> plain_unit u = true.
Proof.
  unfold is_ascii, plain_unit, is_code_unit, is_high_surrogate, is_low_surrogate.
  lia.
Qed.

Lemma ascii_well_formed (s : JsString) :
  forallb is_ascii s = true -> well_formed s = true.
Proof.
  intros H. apply plain_units_well_formed.
  rewrite forallb_forall in H |- *. intros u Hu. apply ascii_plain. auto.
Qed.

Lemma lit_well_formed (s : string) : well_formed (lit s) = true.
Proof.
  apply plain_units_well_formed. unfold lit. rewrite forallb_forall.
  intros u Hu. apply in_map_iff in Hu as (a & <- & _).
  pose proof (nat_ascii_bounded a) as Hb.
  unfold plain_unit, is_code_unit, is_high_surrogate, is_low_surrogate. lia.
Qed.

Lemma unicode_escape_well_formed (u : Z) : well_formed (unicode_escape u) = true.
Proof.
  apply ascii_well_formed. unfold unicode_escape.
  pose proof (hex_digit_ascii (u / 4096 mod 16) ltac:(apply Z.mod_pos_bound; lia)).
  pose proof (hex_digit_ascii (u / 256 mod 16) ltac:(apply Z.mod_pos_bound; lia)).
  pose proof (hex_digit_ascii (u / 16 mod 16) ltac:(apply Z.mod_pos_bound; lia)).
  pose proof (hex_digit_ascii (u mod 16) ltac:(apply Z.mod_pos_bound; lia)).
  cbn [forallb]. unfold is_ascii.
  repeat (apply andb_true_iff; split); lia.
Qed.

Lemma quote_unit_well_formed (u : Z) :
  is_code_unit u = true -> is_high_surrogate u = false ->
  well_formed (quote_unit u) = true.
Proof.
  intros Hu Hh. unfold quote_unit.
  repeat match goal with
         | |- context [if ?a =? ?b then _ else _] =>
             destruct (Z.eqb_spec a b); [reflexivity|]
         end.
  destruct (u <? 32) eqn:Hc; simpl orb.
  - apply unicode_escape_well_formed.
  - destruct (is_low_surrogate u) eqn:Hl.
    + apply unicode_escape_well_formed.
    + simpl. now rewrite Hh, Hl, Hu.
Qed.

Lemma quote_units_well_formed (s : JsString) :
  valid_string s = true -> well_formed (quote_units s) = true.
Proof.
  unfold valid_string.
  induction s as [| u | u lo s IH1 IH2] using list_ind2; intros H.
  - reflexivity.
  - simpl in H. apply andb_true_iff in H as [Hu _].
    rewrite quote_units_cons. destruct (is_high_surrogate u) eqn:Hh.
    + apply unicode_escape_well_formed.
    + change (quote_units []) with (@nil Z). rewrite app_nil_r.
      now apply quote_unit_well_formed.
  - simpl in H. apply andb_true_iff in H as [Hu H].
    specialize (IH2 H).
    apply andb_true_iff in H as [Hlo H].
    specialize (IH1 H).
    rewrite quote_units_cons. destruct (is_high_surrogate u) eqn:Hh.
    + destruct (is_low_surrogate lo) eqn:Hl.
      * simpl. now rewrite Hh, Hl.
      * apply well_formed_app_intro; auto using unicode_escape_well_formed.
    + apply well_formed_app_intro; auto using quote_unit_well_formed.
Qed.

Lemma quote_well_formed (s : JsString) :
  valid_string s = true -> well_formed (quote s) = true.
Proof.
  intros H. unfold quote.
  change (well_formed ([34] ++ quote_units s ++ [34]) = true).
  apply well_formed_app_intro; [reflexivity|].
  apply well_formed_app_intro; [now apply quote_units_well_formed | reflexivity].
Qed.

(** *** Numbers *)

Lemma digits_ascii (d : Decimal.uint) : forallb is_ascii (digits d) = true.
Proof. induction d; simpl; auto. Qed.

Lemma number_well_formed (n : Z) : well_formed (number_to_string n) = true.
Proof.
  apply ascii_well_formed. unfold number_to_string.
  destruct (Z.to_int n); simpl; apply digits_ascii.
Qed.

(** The digits of a number end at the first comma. *)
Lemma digits_delimited (d d' : Decimal.uint) (r r' : JsString) :
  digits d ++ 44 :: r = digits d' ++ 44 :: r' -> d = d' /\ r = r'.
Proof.
  revert d'. induction d; destruct d'; simpl; intros E;
    try discriminate; injection E as E;
    try (destruct (IHd _ E) as [-> ->]); auto.
Qed.

Lemma number_delimited (n n' : Z) (r r' : JsString) :
  number_to_string n ++ 44 :: r = number_to_string n' ++ 44 :: r' ->
  n = n' /\ r = r'.
Proof.
  unfold number_to_string. intros E.
  destruct (Z.to_int n) as [d|d] eqn:En, (Z.to_int n') as [d'|d'] eqn:En'.
  - apply digits_delimited in E as [-> ->]. split; [|reflexivity].
    apply DecimalZ.to_int_inj. congruence.
  - destruct d; simpl in E; discriminate.
  - destruct d'; simpl in E; discriminate.
  - simpl in E. injection E as E.
    apply digits_delimited in E as [-> ->]. split; [|reflexivity].
    apply DecimalZ.to_int_inj. congruence.
Qed.


(** *** The text a package is authenticated by *)

Lemma set_property_package (p : MessagePackage) :
  set_property (lit "mac") JUndefined (package_properties p)
  = unsigned_properties p ++ [(lit "mac", JUndefined)] ++ extra p.
Proof. reflexivity. Qed.

Lemma members_with_app (ser : JsValue -> result) (a b : list (JsString * JsValue)) :
  members_with ser (a ++ b)
  = match members_with ser a with
    | Some x => app x <$> members_with ser b
    | None => None
    end.
Proof.
  induction a as [|[k v] a IH]; simpl.
  - destruct (members_with ser b); reflexivity.
  - destruct (ser v); [| exact IH | reflexivity].
    rewrite IH. destruct (members_with ser a); [|reflexivity].
    destruct (members_with ser b); reflexivity.
Qed.

Lemma members_unsigned (p : MessagePackage) :
  members_with serialize (unsigned_properties p)
  = Some [quote (lit "sessionId") ++ lit ":" ++ quote (sessionId p);
          quote (lit "counter") ++ lit ":" ++ number_to_string (counter p);
          quote (lit "iv") ++ lit ":" ++ quote (iv p);
          quote (lit "ciphertext") ++ lit ":" ++ quote (ciphertext p)].
Proof. reflexivity. Qed.

Lemma join_four (sep a b c d : JsString) :
  join sep [a; b; c; d] = a ++ sep ++ b ++ sep ++ c ++ sep ++ d.
Proof. reflexivity. Qed.

Lemma join_four_more (sep a b c d q : JsString) (parts : list JsString) :
  join sep (a :: b :: c :: d :: q :: parts)
  = a ++ sep ++ b ++ sep ++ c ++ sep ++ d ++ sep ++ join sep (q :: parts).
Proof. reflexivity. Qed.

Lemma stringify_unsigned (p : MessagePackage) :
  stringify (JObject (unsigned_properties p))
  = Text (authenticated_prefix p ++ lit "}").
Proof.
  unfold stringify. cbn [serialize]. rewrite members_unsigned, join_four.
  unfold authenticated_prefix. now rewrite <- !app_assoc.
Qed.

Lemma stringify_authenticated (p : MessagePackage) :
  stringify (authenticated_object p)
  = match members_with serialize (extra p) with
    | Some parts => Text (authenticated_prefix p ++ closing parts)
    | None => Throws
    end.
Proof.
  unfold stringify, authenticated_object. rewrite set_property_package.
  cbn [serialize]. rewrite members_with_app, members_unsigned.
  change (members_with serialize ([(lit "mac", JUndefined)] ++ extra p))
    with (members_with serialize (extra p)).
  destruct (members_with serialize (extra p)) as [parts|]; [|reflexivity].
  cbn [fmap option_fmap option_map].
  unfold authenticated_prefix, closing.
  destruct parts as [|q parts].
  - cbn [app]. rewrite join_four. now rewrite <- !app_assoc.
  - cbn [app]. rewrite join_four_more. now rewrite <- !app_assoc.
Qed.

Lemma authenticated_prefix_well_formed (p : MessagePackage) :
  valid_package p = true -> well_formed (authenticated_prefix p) = true.
Proof.
  unfold valid_package. intros H.
  apply andb_true_iff in H as [H Hc]. apply andb_true_iff in H as [Hs Hi].
  unfold authenticated_prefix.
  repeat (apply well_formed_app_intro;
          [first [ apply lit_well_formed | now apply quote_well_formed
                 | apply number_well_formed ] |]).
  now apply quote_well_formed.
Qed.

(** The authenticated text determines the four fields it is made of. *)
Lemma authenticated_prefix_inj (p q : MessagePackage) :
  valid_package p = true -> valid_package q = true ->
  authenticated_prefix p = authenticated_prefix q ->
  sessionId p = sessionId q /\ counter p = counter q
  /\ iv p = iv q /\ ciphertext p = ciphertext q.
Proof.
  unfold valid_package. intros Hp Hq E.
  apply andb_true_iff in Hp as [Hp Hpc]. apply andb_true_iff in Hp as [Hps Hpi].
  apply andb_true_iff in Hq as [Hq Hqc]. apply andb_true_iff in Hq as [Hqs Hqi].
  unfold authenticated_prefix in E.
  do 3 apply app_inv_head in E.
  apply quote_prefix_free in E as [Es E]; [|assumption..].
  do 3 apply app_inv_head in E.
  change (lit ",") with [44] in E. cbn [app] in E.
  apply number_delimited in E as [Ec E].
  do 2 apply app_inv_head in E.
  apply quote_prefix_free in E as [Ei E]; [|assumption..].
  injection E as E. apply (f_equal (cons 34)) in E.
  change (quote (ciphertext p) = quote (ciphertext q)) in E.
  apply quote_inj in E; auto.
Qed.

Lemma Text_inj (a b : JsString) : Text a = Text b -> a = b.
Proof. congruence. Qed.

(** Two packages with the same added properties whose authenticated texts
    have the same UTF-8 bytes agree on the four fields. *)
Lemma authenticated_bytes_inj (p q : MessagePackage) (t t' : JsString) :
  valid_package p = true -> valid_package q = true ->
  extra p = extra q ->
  stringify (authenticated_object p) = Text t ->
  stringify (authenticated_object q) = Text t' ->
  Utf8.encode t = Utf8.encode t' ->
  sessionId p = sessionId q /\ counter p = counter q
  /\ iv p = iv q /\ ciphertext p = ciphertext q.
Proof.
  intros Hp Hq Ex Hpt Hqt E.
  rewrite stringify_authenticated in Hpt, Hqt. rewrite <- Ex in Hqt.
  destruct (members_with serialize (extra p)) as [parts|]; [|discriminate].
  apply Text_inj in Hpt, Hqt. subst t t'.
  rewrite !utf8_encode_app in E by now apply authenticated_prefix_well_formed.
  apply app_inv_tail in E.
  apply utf8_encode_inj in E; [| now apply authenticated_prefix_well_formed..].
  now apply authenticated_prefix_inj.
Qed.

End JsonFacts.

(** ** The methods, step by step *)


Lemma bind_throw {A B : Type} (m : M A) (f : A -> M B) (w w' : World)
    (e : Exception) :
  m w = (Throw e, w') -> (m ≫= f) w = (Throw e, w').
Proof. intros H. unfold mbind, M_bind. now rewrite H. Qed.

Lemma session_of_with_sessions (f : gmap JsString Session -> gmap JsString Session)
    (w : World) (id : JsString) :
  session_of (with_sessions f w) id = f (sessionKeys (this w)) !! id.
Proof. reflexivity. Qed.

Lemma updateChainKey_found (id : JsString) (s : Session) (w : World) :
  session_of w id = Some s ->
  updateChainKey id w
  = (Normal tt, with_sessions (insert id (ratchet s)) (record CreateHmac w)).
Proof.
  intros H. unfold updateChainKey, mbind, M_bind, sessionKeys_get.
  unfold session_of in H. rewrite H. reflexivity.
Qed.

Lemma updateChainKey_missing (id : JsString) (w : World) :
  session_of w id = None -> updateChainKey id w = (Throw SessionNotFound, w).
Proof.
  intros H. unfold updateChainKey, mbind, M_bind, sessionKeys_get.
  unfold session_of in H. rewrite H. reflexivity.
Qed.

Lemma slice_prefix_length (n : nat) (buf : Buffer) :
  (n <= length buf)%nat -> length (slice 0 n buf) = n.
Proof. intros H. unfold slice. rewrite drop_0, length_take. lia. Qed.

Lemma slice_halves (buf : Buffer) :
  length buf = 32%nat -> slice 0 16 buf ++ slice 16 32 buf = buf.
Proof.
  intros H. unfold slice. rewrite drop_0.
  change (32 - 16)%nat with 16%nat. change (16 - 0)%nat with 16%nat.
  rewrite (take_ge (drop 16 buf)) by (rewrite length_drop; lia).
  apply take_drop.
Qed.

Lemma calculateMAC_eq (v : JsValue) (key : Buffer) (w : World) :
  calculateMAC v key w
  = match Json.stringify v with
    | Json.Text t =>
        (Normal (base64_encode (hmac_sha256 key (Utf8.encode t))),
         record CreateHmac w)
    | _ => (Throw TypeError, record CreateHmac w)
    end.
Proof.
  unfold calculateMAC, mbind, M_bind, emit.
  destruct (Json.stringify v); reflexivity.
Qed.

Lemma check_key_and_iv_eq (key iv0 : Buffer) (w : World) :
  check_key_and_iv key iv0 w
  = if negb (length key =? 16)%nat
    then (Throw (CryptoError "Invalid key length"), w)
    else if negb (length iv0 =? 16)%nat
         then (Throw (CryptoError "Invalid initialization vector"), w)
         else (Normal tt, w).
Proof.
  unfold check_key_and_iv.
  destruct (negb (length key =? 16)%nat); [reflexivity|].
  destruct (negb (length iv0 =? 16)%nat); reflexivity.
Qed.

Lemma next_bytes_length (n : nat) (w : World) : length (next_bytes n w) = n.
Proof. unfold next_bytes. now rewrite length_map, length_seq. Qed.

(** [decryptMessage], run. *)
Lemma decryptMessage_eq (p : MessagePackage) (w : World) :
  decryptMessage p w
  = match session_of w (sessionId p) with
    | None => (Throw SessionNotFound, w)
    | Some s =>
        if counter p <=? messageCounter s then (Throw ReplayDetected, w)
        else
          let w1 := record CreateHmac w in
          match Json.stringify (authenticated_object p) with
          | Json.Text t =>
              if bool_decide (mac p <> expected_mac s t)
              then (Throw MacMismatch, w1)
              else
                let w2 := record CreateDecipheriv w1 in
                if negb (length (encryptionKey s) =? 16)%nat
                then (Throw (CryptoError "Invalid key length"), w2)
                else if negb (length (base64_decode (iv p)) =? 16)%nat
                then (Throw (CryptoError "Invalid initialization vector"), w2)
                else
                  match aes_128_cbc_decrypt (encryptionKey s)
                          (base64_decode (iv p))
                          (base64_decode (ciphertext p)) with
                  | None => (Throw (CryptoError "bad decrypt"), w2)
                  | Some plain =>
                      let s' := set_messageCounter (counter p) s in
                      (Normal (Utf8.decode plain),
                       with_sessions (insert (sessionId p) (ratchet s'))
                         (record CreateHmac
                            (with_sessions (insert (sessionId p) s') w2)))
                  end
          | _ => (Throw TypeError, w1)
          end
    end.
Proof.
  unfold decryptMessage, session_of.
  unfold mbind at 1, M_bind at 1, sessionKeys_get at 1.
  destruct (sessionKeys (this w) !! sessionId p) as [s|]; [|reflexivity].
  destruct (counter p <=? messageCounter s); [reflexivity|].
  unfold mbind at 1, M_bind at 1. rewrite calculateMAC_eq.
  destruct (Json.stringify (authenticated_object p)) as [t| |]; try reflexivity.
  fold (expected_mac s t).
  destruct (bool_decide (mac p <> expected_mac s t)); [reflexivity|].
  unfold mbind at 1, M_bind at 1, emit at 1.
  unfold mbind at 1, M_bind at 1. rewrite check_key_and_iv_eq.
  destruct (negb (length (encryptionKey s) =? 16)%nat); [reflexivity|].
  destruct (negb (length (base64_decode (iv p)) =? 16)%nat); [reflexivity|].
  destruct (aes_128_cbc_decrypt _ _ _) as [plain|]; [|reflexivity].
  unfold mbind at 1, M_bind at 1, sessionKeys_set at 1.
  unfold mbind at 1, M_bind at 1.
  rewrite (updateChainKey_found _ (set_messageCounter (counter p) s))
    by (rewrite session_of_with_sessions; apply lookup_insert_eq).
  reflexivity.
Qed.

(** [encryptMessage], run. *)
Lemma encryptMessage_eq (id message : JsString) (w : World) :
  encryptMessage id message w
  = match session_of w id with
    | None => (Throw SessionNotFound, w)
    | Some s0 =>
        let s := set_messageCounter (js_incr (messageCounter s0)) s0 in
        let w1 := record CreateCipheriv (draw 16 (with_sessions (insert id s) w)) in
        if negb (length (encryptionKey s0) =? 16)%nat
        then (Throw (CryptoError "Invalid key length"), w1)
        else
          (Normal (sealed_package s id message (next_bytes 16 w)),
           with_sessions (insert id (ratchet s))
             (record CreateHmac (record CreateHmac w1)))
    end.
Proof.
  unfold encryptMessage, session_of.
  unfold mbind at 1, M_bind at 1, sessionKeys_get at 1.
  destruct (sessionKeys (this w) !! id) as [s0|]; [|reflexivity].
  cbv zeta.
  unfold mbind at 1, M_bind at 1, sessionKeys_set at 1.
  unfold mbind at 1, M_bind at 1, randomBytes at 1.
  unfold mbind at 1, M_bind at 1, emit at 1.
  unfold mbind at 1, M_bind at 1. rewrite check_key_and_iv_eq.
  change (encryptionKey (set_messageCounter (js_incr (messageCounter s0)) s0))
    with (encryptionKey s0).
  destruct (negb (length (encryptionKey s0) =? 16)%nat); [reflexivity|].
  replace (length (next_bytes 16 (with_sessions
             (insert id (set_messageCounter (js_incr (messageCounter s0)) s0)) w)))
    with 16%nat by (symmetry; apply next_bytes_length).
  cbn [negb Nat.eqb].
  unfold mbind at 1, M_bind at 1. rewrite calculateMAC_eq.
  lazymatch goal with
  | |- context [Json.stringify (JObject ((_, JString (sessionId ?pk)) :: _))] =>
      change (Json.stringify (JObject ((lit "sessionId", JString (sessionId pk)) :: _)))
        with (Json.stringify (JObject (unsigned_properties pk)))
  end.
  rewrite stringify_unsigned.
  unfold mbind at 1, M_bind at 1.
  rewrite (updateChainKey_found _
             (set_messageCounter (js_incr (messageCounter s0)) s0))
    by apply lookup_insert_eq.
  reflexivity.
Qed.

(** [verify], run. *)
Lemma verify_eq (data : JsValue) (sig key : JsString) (w : World) :
  verify data sig key w
  = match verify_input data with
    | None => (Throw TypeError, record CreateVerify w)
    | Some text =>
        match rsa_sha256_verify key text sig with
        | Some b => (Normal b, record CreateVerify w)
        | None => (Normal false, record ConsoleError (record CreateVerify w))
        end
    end.
Proof.
  unfold verify, verify_input.
  unfold mbind at 1, M_bind at 1, emit at 1.
  unfold mbind at 1, M_bind at 1.
  destruct data; try (destruct (Json.stringify _));
    try reflexivity;
    cbn [mret M_ret throw];
    destruct (rsa_sha256_verify key _ sig); reflexivity.
Qed.

(** [establishSession], run. *)
Lemma establishSession_eq (recipient : JsString) (b : Bundle) (w : World) :
  establishSession recipient b w
  = match rsa_sha256_verify (identityKey b) (preKey b) (signature b) with
    | Some true =>
        (Normal (fresh_session_id recipient
                   (next_bytes 16 (draw 32 (record CreateVerify w)))),
         established recipient w)
    | Some false => (Throw InvalidBundleSignature, record CreateVerify w)
    | None =>
        (Throw InvalidBundleSignature,
         record ConsoleError (record CreateVerify w))
    end.
Proof.
  unfold establishSession.
  unfold mbind at 1, M_bind at 1. rewrite verify_eq. cbn [verify_input].
  destruct (rsa_sha256_verify (identityKey b) (preKey b) (signature b))
    as [[|]|]; reflexivity.
Qed.

(** ** The ratchet *)

Lemma ratchet_key_lengths (s : Session) :
  length (encryptionKey (ratchet s)) = 16%nat
  /\ length (macKey (ratchet s)) = 16%nat
  /\ length (chainKey (ratchet s)) = 16%nat.
Proof using hmac_sha256_length.
  pose proof (hmac_sha256_length (Utf8.encode (lit "RatchetStep")) (chainKey s)) as H.
  unfold ratchet. cbn [encryptionKey macKey chainKey]. unfold slice.
  rewrite drop_0, !length_take, length_drop. lia.
Qed.

(** C2, as the code has it: a ratchet advance on a stored session succeeds
    and cuts the 32 bytes of the HMAC output in two halves of 16 bytes.  The
    first half becomes both the new encryptionKey and the new chainKey, which
    are therefore always equal; the second half becomes the new macKey.  The
    recipient and the counter are kept. *)
Theorem updateChainKey_splits_output (id : JsString) (s : Session) (w : World) :
  session_of w id = Some s ->
  exists w' s',
    updateChainKey id w = (Normal tt, w')
    /\ session_of w' id = Some s'
    /\ encryptionKey s' ++ macKey s' = ratchet_output s
    /\ length (encryptionKey s') = 16%nat
    /\ length (macKey s') = 16%nat
    /\ chainKey s' = encryptionKey s'
    /\ recipientId s' = recipientId s
    /\ messageCounter s' = messageCounter s.
Proof using hmac_sha256_length.
  intros H.
  exists (with_sessions (insert id (ratchet s)) (record CreateHmac w)), (ratchet s).
  split; [now apply updateChainKey_found|].
  split. { rewrite session_of_with_sessions. apply lookup_insert_eq. }
  pose proof (ratchet_key_lengths s) as (He & Hm & _).
  repeat split; try assumption.
  apply slice_halves, hmac_sha256_length.
Qed.

(** ** Decryption: replay, tampering, failures *)

Lemma decryptMessage_accepted (p : MessagePackage) (w : World) (s : Session)
    (t : JsString) (plain : Buffer) :
  session_of w (sessionId p) = Some s ->
  messageCounter s < counter p ->
  Json.stringify (authenticated_object p) = Json.Text t ->
  mac p = expected_mac s t ->
  length (encryptionKey s) = 16%nat ->
  length (base64_decode (iv p)) = 16%nat ->
  aes_128_cbc_decrypt (encryptionKey s) (base64_decode (iv p))
    (base64_decode (ciphertext p)) = Some plain ->
  decryptMessage p w
  = (Normal (Utf8.decode plain),
     with_sessions
       (insert (sessionId p) (ratchet (set_messageCounter (counter p) s)))
       (record CreateHmac
          (with_sessions
             (insert (sessionId p) (set_messageCounter (counter p) s))
             (record CreateDecipheriv (record CreateHmac w))))).
Proof.
  intros Hs Hc Ht Hm Hk Hi Hd. rewrite decryptMessage_eq, Hs.
  destruct (Z.leb_spec (counter p) (messageCounter s)); [lia|].
  cbv zeta. rewrite Ht.
  rewrite bool_decide_eq_false_2 by (intros Hne; now apply Hne).
  rewrite Hk, Hi, Hd. reflexivity.
Qed.

Lemma decryptMessage_accepted_sets_counter (p : MessagePackage) (w w' : World)
    (m : JsString) :
  decryptMessage p w = (Normal m, w') ->
  exists s', session_of w' (sessionId p) = Some s'
             /\ messageCounter s' = counter p.
Proof.
  rewrite decryptMessage_eq.
  destruct (session_of w (sessionId p)) as [s|]; [|discriminate].
  destruct (counter p <=? messageCounter s); [discriminate|]. cbv zeta.
  destruct (Json.stringify (authenticated_object p)) as [t| |]; try discriminate.
  destruct (bool_decide (mac p <> expected_mac s t)); [discriminate|].
  destruct (negb (length (encryptionKey s) =? 16)%nat); [discriminate|].
  destruct (negb (length (base64_decode (iv p)) =? 16)%nat); [discriminate|].
  destruct (aes_128_cbc_decrypt _ _ _) as [plain|]; [|discriminate].
  intros [= _ <-].
  exists (ratchet (set_messageCounter (counter p) s)). split; [|reflexivity].
  rewrite session_of_with_sessions. apply lookup_insert_eq.
Qed.

(** C4: a package whose counter is not above the session's counter is
    refused with the replay error, and the world is exactly as it was: no
    HMAC was computed, no session field changed.  In particular a package
    that was accepted is refused when it is submitted again. *)
Theorem decryptMessage_rejects_replay (p : MessagePackage) (w : World) :
  (forall s,
      session_of w (sessionId p) = Some s ->
      counter p <= messageCounter s ->
      decryptMessage p w = (Throw ReplayDetected, w))
  /\ (forall m w',
        decryptMessage p w = (Normal m, w') ->
        decryptMessage p w' = (Throw ReplayDetected, w')).
Proof.
  assert (forall v s, session_of v (sessionId p) = Some s ->
                      counter p <= messageCounter s ->
                      decryptMessage p v = (Throw ReplayDetected, v)) as H.
  { intros v s Hs Hc. rewrite decryptMessage_eq, Hs.
    destruct (Z.leb_spec (counter p) (messageCounter s)); [reflexivity | lia]. }
  split; [apply H|].
  intros m w' Hd.
  destruct (decryptMessage_accepted_sets_counter p w w' m Hd) as (s' & Hs' & Hc').
  apply (H w' s' Hs'). lia.
Qed.


(** C9: a package whose counter is above the session's counter, by any
    amount, that carries the tag of its fields under the session's MAC key
    and deciphers under the session's encryption key is accepted.  The
    session's counter becomes the package's counter and the keys are those
    of one ratchet advance: a single HMAC is computed after the decipher. *)
Theorem decryptMessage_accepts_gaps (p : MessagePackage) (w : World) (s : Session)
    (t : JsString) (plain : Buffer) :
  session_of w (sessionId p) = Some s ->
  messageCounter s < counter p ->
  Json.stringify (authenticated_object p) = Json.Text t ->
  mac p = expected_mac s t ->
  length (encryptionKey s) = 16%nat ->
  length (base64_decode (iv p)) = 16%nat ->
  aes_128_cbc_decrypt (encryptionKey s) (base64_decode (iv p))
    (base64_decode (ciphertext p)) = Some plain ->
  exists w' s',
    decryptMessage p w = (Normal (Utf8.decode plain), w')
    /\ session_of w' (sessionId p) = Some s'
    /\ messageCounter s' = counter p
    /\ encryptionKey s' = slice 0 16 (ratchet_output s)
    /\ macKey s' = slice 16 32 (ratchet_output s)
    /\ chainKey s' = slice 0 16 (ratchet_output s)
    /\ trace w' = trace w ++ [CreateHmac; CreateDecipheriv; CreateHmac].
Proof.
  intros Hs Hc Ht Hm Hk Hi Hd.
  eexists _, (ratchet (set_messageCounter (counter p) s)).
  split; [now apply (decryptMessage_accepted p w s t plain)|].
  split; [rewrite session_of_with_sessions; apply lookup_insert_eq|].
  repeat split. cbn [trace with_sessions record].
  now rewrite <- !app_assoc.
Qed.

Lemma base64_encode_inj (a b : Buffer) :
  base64_encode a = base64_encode b -> a = b.
Proof using base64_roundtrip.
  intros E. rewrite <- (base64_roundtrip a), <- (base64_roundtrip b).
  now rewrite E.
Qed.

Lemma stringify_authenticated_same_extra (p q : MessagePackage) (t : JsString) :
  extra q = extra p ->
  Json.stringify (authenticated_object p) = Json.Text t ->
  exists t', Json.stringify (authenticated_object q) = Json.Text t'.
Proof.
  intros Ex. rewrite !stringify_authenticated, Ex.
  destruct (Json.members_with Json.serialize (extra p)); [eauto | discriminate].
Qed.

(** C5, as the code has it: take a package that a stored session accepts,
    and change its ciphertext, iv, counter or sessionId (a flipped bit is
    such a change), keeping its tag.  The bytes the tag is computed over
    change.  [decryptMessage] then throws, leaving the world as it was but
    for the one HMAC it may compute: SessionNotFound when the sessionId now
    names no session; ReplayDetected, before any MAC, when the counter is
    not above the counter of the session now named; and otherwise
    MacMismatch, before any decipher is created, unless HMAC-SHA256 returns
    the old tag for the changed bytes. *)
Theorem decryptMessage_detects_tampering (p p' : MessagePackage) (w : World)
    (s : Session) (t : JsString) :
  session_of w (sessionId p) = Some s ->
  messageCounter s < counter p ->
  Json.stringify (authenticated_object p) = Json.Text t ->
  mac p = expected_mac s t ->
  valid_package p = true -> valid_package p' = true ->
  mac p' = mac p -> extra p' = extra p ->
  (ciphertext p' <> ciphertext p \/ iv p' <> iv p
   \/ counter p' <> counter p \/ sessionId p' <> sessionId p) ->
  exists t',
    Json.stringify (authenticated_object p') = Json.Text t'
    /\ Utf8.encode t' <> Utf8.encode t
    /\ match session_of w (sessionId p') with
       | None => decryptMessage p' w = (Throw SessionNotFound, w)
       | Some s' =>
           if counter p' <=? messageCounter s'
           then decryptMessage p' w = (Throw ReplayDetected, w)
           else
             decryptMessage p' w = (Throw MacMismatch, record CreateHmac w)
             \/ hmac_sha256 (macKey s') (Utf8.encode t')
                = hmac_sha256 (macKey s) (Utf8.encode t)
       end.
Proof using base64_roundtrip.
  intros Hs Hc Ht Hm Hv Hv' Hm' Hx Hdiff.
  destruct (stringify_authenticated_same_extra p p' t Hx Ht) as [t' Ht'].
  exists t'. split; [assumption|]. split.
  { intros E.
    destruct (authenticated_bytes_inj p' p t' t Hv' Hv Hx Ht' Ht E)
      as (E1 & E2 & E3 & E4).
    destruct Hdiff as [H|[H|[H|H]]]; now apply H. }
  rewrite decryptMessage_eq.
  destruct (session_of w (sessionId p')) as [s'|]; [|reflexivity].
  destruct (counter p' <=? messageCounter s'); [reflexivity|].
  cbv zeta. rewrite Ht'.
  destruct (bool_decide (mac p' <> expected_mac s' t')) eqn:Hb; [now left|].
  right. apply bool_decide_eq_false in Hb.
  apply base64_encode_inj. change (expected_mac s' t' = expected_mac s t).
  rewrite <- Hm, <- Hm'.
  destruct (decide (mac p' = expected_mac s' t')) as [E|E]; [now rewrite E|].
  now destruct Hb.
Qed.

(** ** Encryption followed by decryption *)

Lemma js_incr_safe (c : Z) : - 2 ^ 53 <= c < 2 ^ 53 -> js_incr c = c + 1.
Proof.
  intros H. unfold js_incr.
  destruct (Z.leb_spec (- 2 ^ 53) c), (Z.ltb_spec c (2 ^ 53)); try lia.
  reflexivity.
Qed.

Lemma stringify_sealed_package (s : Session) (id message : JsString)
    (ivBytes : Buffer) :
  let p := sealed_package s id message ivBytes in
  Json.stringify (authenticated_object p)
  = Json.Text (authenticated_prefix p ++ lit "}")
  /\ mac p = expected_mac s (authenticated_prefix p ++ lit "}").
Proof.
  cbv zeta. split.
  - rewrite stringify_authenticated. reflexivity.
  - reflexivity.
Qed.

(** What the receiver returns for the package the sender made, whatever
    the message: the message encoded to UTF-8 and decoded again. *)
Lemma decrypt_after_encrypt (id message : JsString) (wA wB : World)
    (sA sB : Session) :
  session_of wA id = Some sA ->
  session_of wB id = Some sB ->
  encryptionKey sA = encryptionKey sB ->
  macKey sA = macKey sB ->
  chainKey sA = chainKey sB ->
  messageCounter sA = messageCounter sB ->
  length (encryptionKey sA) = 16%nat ->
  - 2 ^ 53 <= messageCounter sA < 2 ^ 53 ->
  exists p wA' wB' sA' sB',
    encryptMessage id message wA = (Normal p, wA')
    /\ decryptMessage p wB = (Normal (Utf8.decode (Utf8.encode message)), wB')
    /\ session_of wA' id = Some sA'
    /\ session_of wB' id = Some sB'
    /\ encryptionKey sA' = encryptionKey sB'
    /\ macKey sA' = macKey sB'
    /\ chainKey sA' = chainKey sB'
    /\ messageCounter sA' = messageCounter sB'.
Proof using base64_roundtrip aes_128_cbc_roundtrip.
  intros HA HB Ek Em Ec En Hlen Hsafe.
  set (sA1 := set_messageCounter (js_incr (messageCounter sA)) sA).
  set (p := sealed_package sA1 id message (next_bytes 16 wA)).
  assert (encryptMessage id message wA
          = (Normal p,
             with_sessions (insert id (ratchet sA1))
               (record CreateHmac (record CreateHmac (record CreateCipheriv
                  (draw 16 (with_sessions (insert id sA1) wA))))))) as HE.
  { rewrite encryptMessage_eq, HA. cbv zeta. rewrite Hlen. reflexivity. }
  destruct (stringify_sealed_package sA1 id message (next_bytes 16 wA))
    as [Ht Hm]. fold p in Ht, Hm.
  assert (decryptMessage p wB
          = (Normal (Utf8.decode (Utf8.encode message)),
             with_sessions
               (insert id (ratchet (set_messageCounter (counter p) sB)))
               (record CreateHmac
                  (with_sessions
                     (insert id (set_messageCounter (counter p) sB))
                     (record CreateDecipheriv (record CreateHmac wB)))))) as HD.
  { apply (decryptMessage_accepted p wB sB
             (authenticated_prefix p ++ lit "}") (Utf8.encode message)).
    - exact HB.
    - change (counter p) with (js_incr (messageCounter sA)).
      rewrite js_incr_safe by assumption. lia.
    - exact Ht.
    - rewrite Hm. unfold expected_mac. now rewrite <- Em.
    - now rewrite <- Ek.
    - change (iv p) with (base64_encode (next_bytes 16 wA)).
      rewrite base64_roundtrip. apply next_bytes_length.
    - change (iv p) with (base64_encode (next_bytes 16 wA)).
      change (ciphertext p)
        with (base64_encode
                (aes_128_cbc_encrypt (encryptionKey sA) (next_bytes 16 wA)
                   (Utf8.encode message))).
      rewrite !base64_roundtrip, <- Ek.
      apply aes_128_cbc_roundtrip; [assumption | apply next_bytes_length]. }
  eexists p, _, _, (ratchet sA1),
    (ratchet (set_messageCounter (counter p) sB)).
  split; [exact HE|]. split; [exact HD|].
  split; [apply lookup_insert_eq|]. split; [apply lookup_insert_eq|].
  unfold ratchet. cbn [encryptionKey macKey chainKey messageCounter
                       set_messageCounter sA1].
  rewrite Ec. repeat split.
Qed.

Lemma utf8_lone_surrogate_lost :
  Utf8.decode (Utf8.encode [0xD800]) = [0xFFFD].
Proof. reflexivity. Qed.

(** C3, as the code has it: when two instances hold sessions with the same
    keys and counter under one identifier, the keys are 16 bytes long, the
    counter is a safe integer below 2^53 and the plaintext has no unpaired
    surrogate, decrypting on one side what the other side encrypted returns
    the plaintext, and the two sessions again hold the same keys and
    counter. *)
Theorem decrypt_encrypt_roundtrip (id message : JsString) (wA wB : World)
    (sA sB : Session) :
  session_of wA id = Some sA ->
  session_of wB id = Some sB ->
  encryptionKey sA = encryptionKey sB ->
  macKey sA = macKey sB ->
  chainKey sA = chainKey sB ->
  messageCounter sA = messageCounter sB ->
  length (encryptionKey sA) = 16%nat ->
  - 2 ^ 53 <= messageCounter sA < 2 ^ 53 ->
  well_formed message = true ->
  exists p wA' wB' sA' sB',
    encryptMessage id message wA = (Normal p, wA')
    /\ decryptMessage p wB = (Normal message, wB')
    /\ session_of wA' id = Some sA'
    /\ session_of wB' id = Some sB'
    /\ encryptionKey sA' = encryptionKey sB'
    /\ macKey sA' = macKey sB'
    /\ chainKey sA' = chainKey sB'
    /\ messageCounter sA' = messageCounter sB'.
Proof using base64_roundtrip aes_128_cbc_roundtrip.
  intros HA HB Ek Em Ec En Hlen Hsafe Hwf.
  destruct (decrypt_after_encrypt id message wA wB sA sB
              HA HB Ek Em Ec En Hlen Hsafe) as (p & wA' & wB' & sA' & sB' & H).
  rewrite (utf8_roundtrip message Hwf) in H.
  now exists p, wA', wB', sA', sB'.
Qed.

(** ** What [encryptMessage] does to a session, and what the client's
    added properties do to its package *)

(** [encryptMessage] on a stored session with an encryption key of 16
    bytes returns a package that carries the incremented counter and the
    tag of its four fields under the MAC key the session had before the
    call; it then advances the ratchet once. *)
Theorem encryptMessage_seals_then_ratchets (id message : JsString) (w : World)
    (s : Session) :
  session_of w id = Some s ->
  length (encryptionKey s) = 16%nat ->
  exists p w',
    encryptMessage id message w = (Normal p, w')
    /\ sessionId p = id
    /\ counter p = js_incr (messageCounter s)
    /\ extra p = []
    /\ Json.stringify (authenticated_object p)
       = Json.Text (authenticated_prefix p ++ lit "}")
    /\ mac p = expected_mac s (authenticated_prefix p ++ lit "}")
    /\ session_of w' id
       = Some (ratchet (set_messageCounter (js_incr (messageCounter s)) s))
    /\ trace w'
       = trace w ++ [RandomBytes 16; CreateCipheriv; CreateHmac; CreateHmac].
Proof.
  intros Hs Hlen.
  set (s1 := set_messageCounter (js_incr (messageCounter s)) s).
  eexists (sealed_package s1 id message (next_bytes 16 w)), _.
  split. { rewrite encryptMessage_eq, Hs. cbv zeta. rewrite Hlen. reflexivity. }
  destruct (stringify_sealed_package s1 id message (next_bytes 16 w)) as [Ht Hm].
  repeat split; try assumption.
  - apply lookup_insert_eq.
  - cbn [trace with_sessions record draw]. now rewrite <- !app_assoc.
Qed.

Lemma utf8_encode_comma (rest : JsString) :
  Utf8.encode (lit "," ++ rest) = 44 :: Utf8.encode rest.
Proof. reflexivity. Qed.

(** A package that [encryptMessage] made, with at least one property that
    JSON writes added to it afterwards (the client adds [sender],
    [recipient] and [timestamp]), is authenticated over a different text
    than the one its tag was computed over: [decryptMessage] refuses it
    with the MAC mismatch, unless HMAC-SHA256 returns the same tag for the
    two texts. *)
Theorem added_properties_break_mac (p : MessagePackage) (w : World) (s : Session)
    (added : list (JsString * JsValue)) (q : JsString) (parts : list JsString) :
  session_of w (sessionId p) = Some s ->
  messageCounter s < counter p ->
  valid_package p = true ->
  mac p = expected_mac s (authenticated_prefix p ++ lit "}") ->
  Json.members_with Json.serialize added = Some (q :: parts) ->
  exists t',
    Json.stringify (authenticated_object (with_extra added p)) = Json.Text t'
    /\ Utf8.encode t' <> Utf8.encode (authenticated_prefix p ++ lit "}")
    /\ (decryptMessage (with_extra added p) w
        = (Throw MacMismatch, record CreateHmac w)
        \/ hmac_sha256 (macKey s) (Utf8.encode t')
           = hmac_sha256 (macKey s)
               (Utf8.encode (authenticated_prefix p ++ lit "}"))).
Proof using base64_roundtrip.
  intros Hs Hc Hv Hm Hadded.
  exists (authenticated_prefix p ++ closing (q :: parts)).
  assert (Json.stringify (authenticated_object (with_extra added p))
          = Json.Text (authenticated_prefix p ++ closing (q :: parts))) as Ht.
  { rewrite stringify_authenticated.
    change (extra (with_extra added p)) with added. rewrite Hadded.
    reflexivity. }
  split; [exact Ht|]. split.
  { rewrite !utf8_encode_app by now apply authenticated_prefix_well_formed.
    intros E. apply app_inv_head in E.
    unfold closing in E. rewrite utf8_encode_comma in E. discriminate. }
  rewrite decryptMessage_eq.
  change (sessionId (with_extra added p)) with (sessionId p). rewrite Hs.
  change (counter (with_extra added p)) with (counter p).
  destruct (Z.leb_spec (counter p) (messageCounter s)); [lia|].
  cbv zeta. rewrite Ht.
  change (mac (with_extra added p)) with (mac p).
  destruct (bool_decide (mac p <> expected_mac s
                           (authenticated_prefix p ++ closing (q :: parts))))
    eqn:Hb; [now left|].
  right. apply bool_decide_eq_false in Hb.
  apply base64_encode_inj.
  change (expected_mac s (authenticated_prefix p ++ closing (q :: parts))
          = expected_mac s (authenticated_prefix p ++ lit "}")).
  rewrite <- Hm.
  destruct (decide (mac p = expected_mac s
                      (authenticated_prefix p ++ closing (q :: parts))))
    as [E|E]; [now rewrite <- E|].
  now destruct Hb.
Qed.

(** ** Counters of successive packages *)


Lemma encryptMessage_advances (id message : JsString) (w : World) (s : Session) :
  session_of w id = Some s ->
  length (encryptionKey s) = 16%nat ->
  exists p w' s',
    encryptMessage id message w = (Normal p, w')
    /\ counter p = js_incr (messageCounter s)
    /\ session_of w' id = Some s'
    /\ messageCounter s' = js_incr (messageCounter s)
    /\ length (encryptionKey s') = 16%nat.
Proof using hmac_sha256_length.
  intros Hs Hlen.
  set (s1 := set_messageCounter (js_incr (messageCounter s)) s).
  eexists (sealed_package s1 id message (next_bytes 16 w)), _, (ratchet s1).
  split. { rewrite encryptMessage_eq, Hs. cbv zeta. rewrite Hlen. reflexivity. }
  split; [reflexivity|]. split; [apply lookup_insert_eq|].
  split; [reflexivity|]. apply ratchet_key_lengths.
Qed.



(** ** Verification and establishment *)

(** C8, as the code has it: when [data] is a string, or a value that
    [JSON.stringify] writes as a text, [verify] returns a boolean for every
    signature and key and throws nothing; the boolean is the primitive's
    answer, and [false] when the primitive throws.  The instance is not
    touched. *)
Theorem verify_fails_closed (data : JsValue) (sig key text : JsString)
    (w : World) :
  verify_input data = Some text ->
  exists b w',
    verify data sig key w = (Normal b, w')
    /\ this w' = this w
    /\ (rsa_sha256_verify key text sig = None -> b = false)
    /\ (forall b', rsa_sha256_verify key text sig = Some b' -> b = b').
Proof.
  intros Hin. rewrite verify_eq, Hin.
  destruct (rsa_sha256_verify key text sig) as [b|].
  - exists b, (record CreateVerify w). repeat split; congruence.
  - exists false, (record ConsoleError (record CreateVerify w)).
    repeat split; congruence.
Qed.

Lemma verify_without_text (data : JsValue) (sig key : JsString) (w : World) :
  verify_input data = None ->
  verify data sig key w = (Throw TypeError, record CreateVerify w).
Proof. intros Hin. now rewrite verify_eq, Hin. Qed.

Lemma established_session (recipient : JsString) (w : World) :
  let id := fresh_session_id recipient
              (next_bytes 16 (draw 32 (record CreateVerify w))) in
  sessionKeys (this (established recipient w))
  = <[id := initial_session recipient (next_bytes 32 w)]> (sessionKeys (this w)).
Proof. reflexivity. Qed.

(** A session as [establishSession] stores it has keys of 16 bytes and
    counter 0. *)
Lemma initial_session_key_lengths (recipient : JsString) (secret : Buffer) :
  length (encryptionKey (initial_session recipient secret)) = 16%nat
  /\ length (macKey (initial_session recipient secret)) = 16%nat
  /\ length (chainKey (initial_session recipient secret)) = 16%nat
  /\ messageCounter (initial_session recipient secret) = 0.
Proof using sha256_length.
  unfold initial_session. cbn [encryptionKey macKey chainKey messageCounter].
  rewrite !slice_prefix_length by (rewrite sha256_length; lia). auto.
Qed.

(** C1, as the code has it: when two peers each run [establishSession] on
    the other's validly signed bundle, both calls succeed and each stores a
    session with counter 0 whose three keys are derived from the 32 bytes
    its own process draws from [crypto.randomBytes]: neither party's key
    material enters.  The two sessions hold equal keys when the two draws
    are equal. *)
Theorem establishSession_secret_is_local (alice bob : JsString)
    (aliceBundle bobBundle : Bundle) (wA wB : World) :
  rsa_sha256_verify (identityKey bobBundle) (preKey bobBundle)
    (signature bobBundle) = Some true ->
  rsa_sha256_verify (identityKey aliceBundle) (preKey aliceBundle)
    (signature aliceBundle) = Some true ->
  exists idA idB wA' wB' sA sB,
    establishSession bob bobBundle wA = (Normal idA, wA')
    /\ establishSession alice aliceBundle wB = (Normal idB, wB')
    /\ session_of wA' idA = Some sA
    /\ session_of wB' idB = Some sB
    /\ sA = initial_session bob (next_bytes 32 wA)
    /\ sB = initial_session alice (next_bytes 32 wB)
    /\ (next_bytes 32 wA = next_bytes 32 wB ->
        encryptionKey sA = encryptionKey sB
        /\ macKey sA = macKey sB
        /\ chainKey sA = chainKey sB).
Proof.
  intros HB HA.
  eexists _, _, _, _, (initial_session bob (next_bytes 32 wA)),
    (initial_session alice (next_bytes 32 wB)).
  split. { rewrite establishSession_eq, HB. reflexivity. }
  split. { rewrite establishSession_eq, HA. reflexivity. }
  split. { unfold session_of. rewrite established_session. apply lookup_insert_eq. }
  split. { unfold session_of. rewrite established_session. apply lookup_insert_eq. }
  split; [reflexivity|]. split; [reflexivity|].
  intros E. unfold initial_session.
  cbn [encryptionKey macKey chainKey]. now rewrite E.
Qed.

(** C10: two bundles that differ only in their lists of one-time prekeys
    make [establishSession] do the same thing, whatever the lists hold, the
    empty list included.  With a valid signature the call succeeds and
    returns the same identifier and leaves the same world for both:
    the session it adds is derived from the 32 random bytes alone, and the
    key pairs and the one-time prekeys of the instance are as before. *)
Theorem establishSession_ignores_oneTimePreKeys (recipient : JsString)
    (b1 b2 : Bundle) (w : World) :
  userId b1 = userId b2 ->
  identityKey b1 = identityKey b2 ->
  preKey b1 = preKey b2 ->
  signature b1 = signature b2 ->
  establishSession recipient b1 w = establishSession recipient b2 w
  /\ (rsa_sha256_verify (identityKey b1) (preKey b1) (signature b1) = Some true ->
      exists id w',
        establishSession recipient b1 w = (Normal id, w')
        /\ establishSession recipient b2 w = (Normal id, w')
        /\ sessionKeys (this w')
           = <[id := initial_session recipient (next_bytes 32 w)]>
               (sessionKeys (this w))
        /\ identityKeyPair (this w') = identityKeyPair (this w)
        /\ preKeyPair (this w') = preKeyPair (this w)
        /\ oneTimePreKeys (this w') = oneTimePreKeys (this w)
        /\ instanceCounter (this w') = instanceCounter (this w)).
Proof.
  intros Hu Hi Hp Hs.
  assert (establishSession recipient b1 w = establishSession recipient b2 w) as E.
  { rewrite !establishSession_eq, Hi, Hp, Hs. reflexivity. }
  split; [exact E|]. intros Hv.
  eexists _, (established recipient w).
  split. { rewrite establishSession_eq, Hv. reflexivity. }
  split. { rewrite <- E, establishSession_eq, Hv. reflexivity. }
  split; [apply established_session|]. repeat split.
Qed.

(** ** Key pairs, registration and signatures *)

Lemma generateOneTimePreKeys_eq (n : nat) : forall w,
  generateOneTimePreKeys n w
  = (Normal tt,
     {| this :=
          {| identityKeyPair := identityKeyPair (this w);
             preKeyPair := preKeyPair (this w);
             oneTimePreKeys :=
               oneTimePreKeys (this w) ++ (generated (entropy w) (drawn w) n).1;
             sessionKeys := sessionKeys (this w);
             instanceCounter := instanceCounter (this w) |};
        entropy := entropy w;
        drawn := (generated (entropy w) (drawn w) n).2;
        trace := trace w |}).
Proof.
  induction n as [|n IH]; intros [[i p o s c] e d t].
  - cbn. rewrite app_nil_r. reflexivity.
  - cbn [generateOneTimePreKeys]. unfold mbind, M_bind.
    cbn [generateKeyPair oneTimePreKeys_push consume with_this this entropy drawn trace].
    rewrite IH. cbn. rewrite <- app_assoc. reflexivity.
Qed.

Lemma generated_length (e : nat -> Z) (n : nat) : forall from,
  length (generated e from n).1 = n.
Proof. induction n as [|n IH]; intros from; cbn; [|rewrite IH]; reflexivity. Qed.

(** [initialize], run. *)
Lemma initialize_eq (w : World) :
  initialize w
  = (Normal tt,
     let identity := rsa_generateKeyPair (entropy w) (drawn w) in
     let pre := rsa_generateKeyPair (entropy w) (drawn w + identity.2) in
     let oneTime :=
       generated (entropy w) (drawn w + identity.2 + pre.2) 5 in
     {| this :=
          {| identityKeyPair := Some identity.1;
             preKeyPair := Some pre.1;
             oneTimePreKeys := oneTimePreKeys (this w) ++ oneTime.1;
             sessionKeys := sessionKeys (this w);
             instanceCounter := instanceCounter (this w) |};
        entropy := entropy w;
        drawn := oneTime.2;
        trace := trace w |}).
Proof.
  unfold initialize, mbind, M_bind.
  cbn [generateKeyPair set_identityKeyPair set_preKeyPair consume with_this
       this entropy drawn trace].
  rewrite generateOneTimePreKeys_eq. reflexivity.
Qed.

(** [sign], run. *)
Lemma sign_eq (data : JsValue) (key : JsString) (w : World) :
  sign data key w
  = match verify_input data with
    | None => (Throw TypeError, w)
    | Some text =>
        match rsa_sha256_sign key text with
        | Some s => (Normal s, w)
        | None => (Throw (CryptoError "sign"), w)
        end
    end.
Proof.
  unfold sign, verify_input.
  unfold mbind at 1, M_bind at 1.
  destruct data; try (destruct (Json.stringify _));
    try reflexivity;
    cbn [mret M_ret throw];
    destruct (rsa_sha256_sign key _); reflexivity.
Qed.

(** [register], run. *)
Lemma register_eq (user : JsString) (w : World) :
  register user w
  = match identityKeyPair (this w) with
    | None => (Throw ClientNotInitialized, w)
    | Some identity =>
        match preKeyPair (this w) with
        | None => (Throw TypeError, w)
        | Some pre =>
            match rsa_sha256_sign (privateKey identity) (publicKey pre) with
            | Some sig =>
                (Normal {| userId := user;
                           identityKey := publicKey identity;
                           preKey := publicKey pre;
                           bundleOneTimePreKeys :=
                             List.map publicKey (oneTimePreKeys (this w));
                           signature := sig |}, w)
            | None => (Throw (CryptoError "sign"), w)
            end
        end
    end.
Proof.
  unfold register.
  destruct (identityKeyPair (this w)) as [identity|]; [|reflexivity].
  destruct (preKeyPair (this w)) as [pre|]; [|reflexivity].
  unfold mbind, M_bind. rewrite sign_eq. cbn [verify_input].
  destruct (rsa_sha256_sign _ _); reflexivity.
Qed.

(** A call of [initialize] succeeds on every instance.  It replaces the
    identity key pair and the pre key pair by the first two pairs it
    generates and appends the next five to the one-time pre keys the
    instance has: a second call leaves ten.  The seven pairs come from
    successive stretches of the entropy.  Sessions are not touched. *)
Theorem initialize_appends_five_keys (w : World) :
  exists w' identity pre added,
    initialize w = (Normal tt, w')
    /\ identityKeyPair (this w') = Some identity
    /\ preKeyPair (this w') = Some pre
    /\ oneTimePreKeys (this w') = oneTimePreKeys (this w) ++ added
    /\ length added = 5%nat
    /\ identity :: pre :: added = (generated (entropy w) (drawn w) 7).1
    /\ sessionKeys (this w') = sessionKeys (this w)
    /\ trace w' = trace w.
Proof.
  rewrite initialize_eq. cbv zeta.
  eexists _, _, _, _. split; [reflexivity|].
  cbn [this identityKeyPair preKeyPair oneTimePreKeys sessionKeys trace].
  repeat split.
Qed.

(** ** What every sequence of calls preserves *)

Lemma hex_length (buf : Buffer) : length (hex buf) = (2 * length buf)%nat.
Proof.
  unfold hex. induction buf as [|b buf IH]; [reflexivity|].
  cbn [flat_map length app]. rewrite IH. lia.
Qed.

Lemma js_incr_nonnegative (c : Z) : 0 <= c -> 0 <= js_incr c.
Proof. intros H. unfold js_incr. repeat case_match; lia. Qed.

Lemma sessions_well_formed_same (w w' : World) :
  sessionKeys (this w') = sessionKeys (this w) ->
  sessions_well_formed w -> sessions_well_formed w'.
Proof. intros E H id s. rewrite E. apply H. Qed.

Lemma sessions_well_formed_insert (w w' : World) (id : JsString) (s : Session) :
  sessionKeys (this w') = <[id := s]> (sessionKeys (this w)) ->
  session_well_formed id s ->
  sessions_well_formed w -> sessions_well_formed w'.
Proof.
  intros E Hs H id' s'. rewrite E.
  destruct (decide (id = id')) as [<-|Hne].
  - rewrite lookup_insert_eq. intros [= <-]. exact Hs.
  - rewrite lookup_insert_ne by exact Hne. apply H.
Qed.

Lemma ratchet_well_formed (id : JsString) (s : Session) :
  session_well_formed id s -> session_well_formed id (ratchet s).
Proof using hmac_sha256_length.
  intros (_ & _ & _ & Hc & Hid).
  destruct (ratchet_key_lengths s) as (He & Hm & Hk).
  repeat split; assumption.
Qed.

Lemma set_messageCounter_well_formed (id : JsString) (s : Session) (c : Z) :
  0 <= c -> session_well_formed id s ->
  session_well_formed id (set_messageCounter c s).
Proof. intros Hc (He & Hm & Hk & _ & Hid). repeat split; assumption. Qed.

Lemma initial_session_well_formed (recipient : JsString) (secret bytes : Buffer) :
  length bytes = 16%nat ->
  session_well_formed (fresh_session_id recipient bytes)
    (initial_session recipient secret).
Proof using sha256_length.
  intros Hb.
  destruct (initial_session_key_lengths recipient secret) as (He & Hm & Hk & Hc).
  repeat split; try assumption.
  - rewrite Hc. lia.
  - exists (hex bytes). split; [rewrite hex_length, Hb|]; reflexivity.
Qed.

(** Whatever a call returns or throws, it leaves every stored session
    well formed. *)
Lemma call_keeps_sessions_well_formed (c : Call) (w : World) :
  sessions_well_formed w -> sessions_well_formed (call c w).
Proof using sha256_length hmac_sha256_length.
  intros H. destruct c; unfold call, after.
  - exact H.
  - rewrite initialize_eq. exact H.
  - rewrite register_eq. repeat case_match; exact H.
  - rewrite sign_eq. repeat case_match; exact H.
  - rewrite verify_eq. repeat case_match; exact H.
  - rewrite establishSession_eq.
    destruct (rsa_sha256_verify _ _ _) as [[|]|]; try exact H.
    eapply sessions_well_formed_insert;
      [apply established_session| |exact H].
    apply initial_session_well_formed, next_bytes_length.
  - exact H.
  - exact H.
  - rewrite encryptMessage_eq. unfold session_of.
    destruct (sessionKeys (this w) !! id) as [s0|] eqn:Hs0; [|exact H].
    pose proof (H _ _ Hs0) as Hwf.
    assert (session_well_formed id
              (set_messageCounter (js_incr (messageCounter s0)) s0)) as Hwf1.
    { apply set_messageCounter_well_formed; [|exact Hwf].
      apply js_incr_nonnegative. apply Hwf. }
    cbv zeta. destruct (negb _).
    + eapply sessions_well_formed_insert; [|exact Hwf1|exact H]. reflexivity.
    + eapply sessions_well_formed_insert;
        [|exact (ratchet_well_formed _ _ Hwf1)|exact H].
      cbn. rewrite insert_insert_eq. reflexivity.
  - rewrite decryptMessage_eq. unfold session_of.
    destruct (sessionKeys (this w) !! sessionId messagePackage) as [s|] eqn:Hs;
      [|exact H].
    pose proof (H _ _ Hs) as Hwf.
    destruct (counter messagePackage <=? messageCounter s) eqn:Hc; [exact H|].
    apply Z.leb_gt in Hc.
    cbv zeta. destruct (Json.stringify _); try exact H.
    destruct (bool_decide _); [exact H|].
    destruct (negb _); [exact H|].
    destruct (negb _); [exact H|].
    destruct (aes_128_cbc_decrypt _ _ _); [|exact H].
    eapply sessions_well_formed_insert; [| |exact H].
    + cbn. rewrite insert_insert_eq. reflexivity.
    + apply ratchet_well_formed, set_messageCounter_well_formed; [|exact Hwf].
      destruct Hwf as (_ & _ & _ & H0 & _). lia.
  - rewrite calculateMAC_eq. destruct (Json.stringify _); exact H.
  - destruct (session_of w id) as [s|] eqn:Hs.
    + rewrite (updateChainKey_found _ _ _ Hs).
      eapply sessions_well_formed_insert; [| |exact H]; [reflexivity|].
      apply ratchet_well_formed, (H _ _ Hs).
    + rewrite (updateChainKey_missing _ _ Hs). exact H.
Qed.

Lemma run_app (calls calls' : list Call) (w : World) :
  run (calls ++ calls') w = run calls' (run calls w).
Proof. apply fold_left_app. Qed.

Lemma run_keeps_sessions_well_formed (calls : list Call) : forall w,
  sessions_well_formed w -> sessions_well_formed (run calls w).
Proof using sha256_length hmac_sha256_length.
  induction calls as [|c calls IH]; intros w H; [exact H|].
  apply IH, call_keeps_sessions_well_formed, H.
Qed.

Lemma fresh_sessions_well_formed (e : nat -> Z) : sessions_well_formed (fresh e).
Proof. intros id s H. cbn in H. rewrite lookup_empty in H. discriminate. Qed.

(** Whatever methods a program calls on a new instance, in whatever order
    and with whatever arguments, and whether they return or throw, every
    session the instance then holds has an encryption key, a MAC key and
    a chain key of 16 bytes each, a counter that is not negative, and an
    identifier made of 32 characters, a hyphen and the recipient the
    session names. *)
Theorem sessions_stay_well_formed (e : nat -> Z) (calls : list Call)
    (id : JsString) (s : Session) :
  session_of (run calls (fresh e)) id = Some s ->
  length (encryptionKey s) = 16%nat
  /\ length (macKey s) = 16%nat
  /\ length (chainKey s) = 16%nat
  /\ 0 <= messageCounter s
  /\ exists h, length h = 32%nat /\ id = h ++ lit "-" ++ recipientId s.
Proof using sha256_length hmac_sha256_length.
  intros H.
  exact (run_keeps_sessions_well_formed calls (fresh e)
           (fresh_sessions_well_formed e) id s H).
Qed.

(** On an instance that only method calls have touched, [encryptMessage]
    returns a package for every session the instance holds: the one thing
    it throws is that the session is not found. *)
Theorem encryptMessage_returns_on_stored_sessions (e : nat -> Z)
    (calls : list Call) (id message : JsString) :
  let w := run calls (fresh e) in
  match session_of w id with
  | Some s =>
      exists p w',
        encryptMessage id message w = (Normal p, w')
        /\ sessionId p = id
        /\ counter p = js_incr (messageCounter s)
  | None => encryptMessage id message w = (Throw SessionNotFound, w)
  end.
Proof using sha256_length hmac_sha256_length.
  cbv zeta. rewrite encryptMessage_eq.
  destruct (session_of (run calls (fresh e)) id) as [s|] eqn:Hs; [|reflexivity].
  destruct (run_keeps_sessions_well_formed calls (fresh e)
              (fresh_sessions_well_formed e) id s Hs) as (He & _).
  cbv zeta. cbn [set_messageCounter encryptionKey]. rewrite He.
  cbn [Nat.eqb negb]. eexists _, _. split; [reflexivity|]. split; reflexivity.
Qed.

(** No call but [initialize] touches the key pairs or the one-time pre
    keys, and no call changes the entropy the process is to draw. *)
Lemma call_keeps_keys (c : Call) (w : World) :
  c <> CallInitialize ->
  entropy (call c w) = entropy w
  /\ identityKeyPair (this (call c w)) = identityKeyPair (this w)
  /\ preKeyPair (this (call c w)) = preKeyPair (this w)
  /\ oneTimePreKeys (this (call c w)) = oneTimePreKeys (this w).
Proof.
  intros Hc. destruct c; [|congruence|..]; unfold call, after.
  - repeat split.
  - rewrite register_eq. repeat case_match; repeat split; cbn; congruence.
  - rewrite sign_eq. repeat case_match; repeat split; cbn; congruence.
  - rewrite verify_eq. repeat case_match; repeat split; cbn; congruence.
  - rewrite establishSession_eq. repeat case_match; repeat split; cbn; congruence.
  - repeat split.
  - repeat split.
  - rewrite encryptMessage_eq. repeat case_match; repeat split; cbn; congruence.
  - rewrite decryptMessage_eq. repeat case_match; repeat split; cbn; congruence.
  - rewrite calculateMAC_eq. repeat case_match; repeat split; cbn; congruence.
  - destruct (session_of w id) as [s|] eqn:Hs.
    + rewrite (updateChainKey_found _ _ _ Hs). repeat split.
    + rewrite (updateChainKey_missing _ _ Hs). repeat split.
Qed.

(** The key pairs of an instance after a sequence of calls: without a call
    of [initialize] they are as before; with one, both are pairs that
    [generateKeyPair] made.  The one-time pre keys are those the instance
    had, followed by five for each call of [initialize]. *)
Lemma run_keys (calls : list Call) : forall w,
  entropy (run calls w) = entropy w
  /\ (exists added,
        oneTimePreKeys (this (run calls w)) = oneTimePreKeys (this w) ++ added
        /\ length added = (5 * initializations calls)%nat)
  /\ (initializations calls = 0%nat ->
      identityKeyPair (this (run calls w)) = identityKeyPair (this w)
      /\ preKeyPair (this (run calls w)) = preKeyPair (this w))
  /\ ((0 < initializations calls)%nat ->
      exists n1 n2,
        identityKeyPair (this (run calls w))
        = Some (rsa_generateKeyPair (entropy w) n1).1
        /\ preKeyPair (this (run calls w))
           = Some (rsa_generateKeyPair (entropy w) n2).1).
Proof.
  induction calls as [|c calls IH] using rev_ind; intros w.
  - cbn. split; [reflexivity|]. split.
    { exists []. rewrite app_nil_r. split; reflexivity. }
    split; [intros _; split; reflexivity|]. lia.
  - rewrite run_app. cbn [run fold_left].
    destruct (IH w) as (He & (added & Ho & Hl) & Hnone & Hsome).
    unfold initializations in *. rewrite List.filter_app, length_app.
    assert (c = CallInitialize \/ c <> CallInitialize) as [->|Hc]
      by (destruct c; (left; reflexivity) || (right; discriminate)).
    + cbn [List.filter length call]. unfold after. rewrite initialize_eq.
      cbv zeta. cbn [snd this entropy identityKeyPair preKeyPair oneTimePreKeys].
      split; [exact He|]. split.
      { eexists (added ++ _). rewrite Ho, <- app_assoc. split; [reflexivity|].
        rewrite length_app, Hl, generated_length. lia. }
      split; [lia|]. intros _. rewrite He. eexists _, _. split; reflexivity.
    + destruct (call_keeps_keys c (run calls w) Hc) as (He' & Hi & Hp & Ho').
      assert (List.filter
                (fun c => match c with CallInitialize => true | _ => false end) [c]
              = []) as ->.
      { destruct c; try reflexivity. congruence. }
      cbn [length]. rewrite Nat.add_0_r.
      split; [congruence|]. split.
      { exists added. split; [congruence|exact Hl]. }
      rewrite Hi, Hp. split; assumption.
Qed.

(** [register] throws its error, and leaves the world as it was, exactly
    when the instance has no identity key pair; and on an instance that
    only method calls have touched that is so exactly when [initialize] was
    never called: no other method makes registration possible, and none
    undoes it. *)
Theorem register_needs_initialize (user : JsString) :
  (forall w,
      identityKeyPair (this w) = None
      <-> register user w = (Throw ClientNotInitialized, w))
  /\ (forall e calls,
        initializations calls = 0%nat
        <-> register user (run calls (fresh e))
            = (Throw ClientNotInitialized, run calls (fresh e))).
Proof.
  assert (forall w,
             identityKeyPair (this w) = None
             <-> register user w = (Throw ClientNotInitialized, w)) as H.
  { intros w. rewrite register_eq. split.
    - intros ->. reflexivity.
    - destruct (identityKeyPair (this w)); [|reflexivity].
      repeat case_match; discriminate. }
  split; [exact H|]. intros e calls. rewrite <- H.
  destruct (run_keys calls (fresh e)) as (_ & _ & Hnone & Hsome).
  split.
  - intros H0. apply Hnone, H0.
  - intros Hi. destruct (initializations calls) as [|n]; [reflexivity|].
    destruct Hsome as (n1 & n2 & Hid & _); [lia|]. congruence.
Qed.

(** A one-time pre key is never consumed: after any sequence of calls the
    instance holds the one-time pre keys it held before, in their order,
    followed by five for each call of [initialize].  Establishing
    sessions, encrypting and decrypting remove none. *)
Theorem oneTimePreKeys_only_grow (calls : list Call) (w : World) :
  exists added,
    oneTimePreKeys (this (run calls w)) = oneTimePreKeys (this w) ++ added
    /\ length added = (5 * initializations calls)%nat.
Proof. exact (proj1 (proj2 (run_keys calls w))). Qed.

(** ** Signing and verifying *)

(** The bundle an initialized instance registers is accepted by every
    peer.  On an instance on which [initialize] was called at least once,
    [register] returns a bundle and leaves the world as it was; the bundle
    carries the user's name and five one-time pre keys for each call of
    [initialize]; its signature verifies, so [establishSession] at any
    peer returns an identifier and stores a session for it. *)
Theorem registered_bundle_is_accepted (e : nat -> Z) (calls : list Call)
    (user recipient : JsString) (peer : World) :
  (0 < initializations calls)%nat ->
  exists b id peer',
    register user (run calls (fresh e)) = (Normal b, run calls (fresh e))
    /\ userId b = user
    /\ length (bundleOneTimePreKeys b) = (5 * initializations calls)%nat
    /\ rsa_sha256_verify (identityKey b) (preKey b) (signature b) = Some true
    /\ establishSession recipient b peer = (Normal id, peer')
    /\ session_of peer' id
       = Some (initial_session recipient (next_bytes 32 peer)).
Proof using rsa_sign_verify.
  intros Hi.
  destruct (run_keys calls (fresh e)) as (_ & (added & Ho & Hl) & _ & Hsome).
  destruct (Hsome Hi) as (n1 & n2 & Hid & Hpre).
  cbn [fresh entropy] in Hid, Hpre.
  destruct (rsa_sign_verify e n1 (publicKey (rsa_generateKeyPair e n2).1))
    as (sig & Hsign & Hverify).
  eexists _, _, (established recipient peer).
  rewrite register_eq, Hid, Hpre, Hsign.
  split; [reflexivity|]. split; [reflexivity|].
  cbn [bundleOneTimePreKeys identityKey preKey signature].
  split. { rewrite length_map, Ho, length_app, Hl. reflexivity. }
  split; [exact Hverify|].
  rewrite establishSession_eq.
  cbn [bundleOneTimePreKeys identityKey preKey signature]. rewrite Hverify.
  split; [reflexivity|].
  unfold session_of. rewrite established_session. apply lookup_insert_eq.
Qed.

(** [verify] accepts what [sign] wrote.  For a key pair that
    [generateKeyPair] made and every data that is a string or has a JSON
    text, [sign] returns a signature and [verify] returns [true] for it.
    A value that is not a string is signed as its JSON text, so the
    signature of the value is the signature of that string, and [verify]
    accepts it for the string as well. *)
Theorem verify_accepts_signed_data (e : nat -> Z) (n : nat) (data : JsValue)
    (text : JsString) (w w0 : World) :
  verify_input data = Some text ->
  let pair := (rsa_generateKeyPair e n).1 in
  exists sig,
    sign data (privateKey pair) w = (Normal sig, w)
    /\ sign (JString text) (privateKey pair) w = (Normal sig, w)
    /\ verify data sig (publicKey pair) w0 = (Normal true, record CreateVerify w0)
    /\ verify (JString text) sig (publicKey pair) w0
       = (Normal true, record CreateVerify w0).
Proof using rsa_sign_verify.
  intros Ht pair.
  destruct (rsa_sign_verify e n text) as (sig & Hsign & Hverify).
  fold pair in Hsign, Hverify.
  exists sig. rewrite !sign_eq, !verify_eq, Ht. cbn [verify_input].
  rewrite Hsign, Hverify. repeat split.
Qed.

(** ** Sessions with other recipients *)

(** [establishSession] never replaces a session held for another
    recipient: on an instance whose sessions are well formed, as those the
    class makes are, every session whose recipient is not the one named in
    the call is afterwards stored as before, under its identifier. *)
Theorem establishSession_keeps_other_recipients (recipient : JsString)
    (b : Bundle) (w : World) (id : JsString) (s : Session) :
  sessions_well_formed w ->
  session_of w id = Some s ->
  recipientId s <> recipient ->
  session_of (after (establishSession recipient b) w) id = Some s.
Proof.
  intros Hwf Hs Hr. unfold after. rewrite establishSession_eq.
  destruct (rsa_sha256_verify _ _ _) as [[|]|]; try exact Hs.
  unfold session_of. cbn [snd]. rewrite established_session.
  rewrite lookup_insert_ne; [exact Hs|].
  intros E. destruct (Hwf id s Hs) as (_ & _ & _ & _ & h & Hh & Hid).
  unfold fresh_session_id in E. rewrite Hid in E.
  apply (f_equal (drop 33)) in E.
  rewrite !app_assoc in E.
  rewrite !drop_app_length' in E; [congruence| |].
  - rewrite length_app, Hh. reflexivity.
  - rewrite length_app, hex_length, next_bytes_length. reflexivity.
Qed.

(** ** Packages out of order *)

(** A package that was overtaken is lost: once [decryptMessage] has
    accepted a package, it refuses every package of the same session whose
    counter is not above the accepted one as a replay, whether or not that
    package was ever received, and leaves the world as it is. *)
Theorem overtaken_packages_are_refused (p q : MessagePackage) (w w' : World)
    (m : JsString) :
  decryptMessage p w = (Normal m, w') ->
  sessionId q = sessionId p ->
  counter q <= counter p ->
  decryptMessage q w' = (Throw ReplayDetected, w').
Proof.
  intros Hp Hid Hc.
  destruct (decryptMessage_accepted_sets_counter p w w' m Hp) as (s' & Hs' & Hc').
  rewrite decryptMessage_eq, Hid, Hs'.
  destruct (counter q <=? messageCounter s') eqn:E; [reflexivity|].
  apply Z.leb_gt in E. lia.
Qed.

(** Packages that cross are lost.  When the two ends of a session stand
    at the same counter and each encrypts a message before it has
    received the other's, each refuses the other's package as a replay:
    the one counter of a session counts what was sent and what was
    received.  An instance refuses its own package in the same way. *)
Theorem crossing_packages_are_refused (id mA mB : JsString) (wA wB : World)
    (sA sB : Session) :
  session_of wA id = Some sA ->
  session_of wB id = Some sB ->
  messageCounter sA = messageCounter sB ->
  length (encryptionKey sA) = 16%nat ->
  length (encryptionKey sB) = 16%nat ->
  exists pA pB wA' wB',
    encryptMessage id mA wA = (Normal pA, wA')
    /\ encryptMessage id mB wB = (Normal pB, wB')
    /\ decryptMessage pB wA' = (Throw ReplayDetected, wA')
    /\ decryptMessage pA wB' = (Throw ReplayDetected, wB')
    /\ decryptMessage pA wA' = (Throw ReplayDetected, wA').
Proof.
  intros HA HB Hc HkA HkB.
  rewrite !encryptMessage_eq, HA, HB. cbv zeta.
  cbn [set_messageCounter encryptionKey]. rewrite HkA, HkB.
  cbn [Nat.eqb negb].
  eexists _, _, _, _. split; [reflexivity|]. split; [reflexivity|].
  repeat split; rewrite decryptMessage_eq;
    cbn [sealed_package sessionId counter set_messageCounter messageCounter];
    rewrite session_of_with_sessions, lookup_insert_eq;
    cbn [ratchet set_messageCounter messageCounter];
    rewrite ?Hc; rewrite Z.leb_refl; reflexivity.
Qed.

(** ** A conversation *)

Lemma encryptMessages_cons (id m : JsString) (rest : list JsString) (w w1 : World)
    (p : MessagePackage) :
  encryptMessage id m w = (Normal p, w1) ->
  encryptMessages id (m :: rest) w
  = match encryptMessages id rest w1 with
    | (Normal ps, w') => (Normal (p :: ps), w')
    | (Throw e, w') => (Throw e, w')
    end.
Proof.
  intros H. cbn [encryptMessages]. unfold mbind at 1, M_bind at 1. rewrite H.
  unfold mbind, M_bind. destruct (encryptMessages id rest w1) as [[ps|e] w'];
    reflexivity.
Qed.

Lemma decryptMessages_cons (p : MessagePackage) (rest : list MessagePackage)
    (w w1 : World) (m : JsString) :
  decryptMessage p w = (Normal m, w1) ->
  decryptMessages (p :: rest) w
  = match decryptMessages rest w1 with
    | (Normal ms, w') => (Normal (m :: ms), w')
    | (Throw e, w') => (Throw e, w')
    end.
Proof.
  intros H. cbn [decryptMessages]. unfold mbind at 1, M_bind at 1. rewrite H.
  unfold mbind, M_bind. destruct (decryptMessages rest w1) as [[ms|e] w'];
    reflexivity.
Qed.

(** A conversation in one direction.  When two instances hold sessions
    with the same keys and counter under one identifier, one side encrypts
    a list of messages and the other decrypts the packages in the order
    they were made, every message comes back as it was sent, and the two
    sessions end with the same keys and at the same counter, advanced by
    the number of messages.  The keys are 16 bytes long, the counter stays
    below 2^53 and no message has an unpaired surrogate. *)
Theorem conversation_roundtrip (id : JsString) (messages : list JsString) :
  forall (wA wB : World) (sA sB : Session),
    session_of wA id = Some sA ->
    session_of wB id = Some sB ->
    encryptionKey sA = encryptionKey sB ->
    macKey sA = macKey sB ->
    chainKey sA = chainKey sB ->
    messageCounter sA = messageCounter sB ->
    length (encryptionKey sA) = 16%nat ->
    0 <= messageCounter sA ->
    messageCounter sA + Z.of_nat (length messages) <= 2 ^ 53 ->
    Forall (fun m => well_formed m = true) messages ->
    exists ps wA' wB' sA' sB',
      encryptMessages id messages wA = (Normal ps, wA')
      /\ decryptMessages ps wB = (Normal messages, wB')
      /\ session_of wA' id = Some sA'
      /\ session_of wB' id = Some sB'
      /\ encryptionKey sA' = encryptionKey sB'
      /\ macKey sA' = macKey sB'
      /\ chainKey sA' = chainKey sB'
      /\ messageCounter sA' = messageCounter sA + Z.of_nat (length messages)
      /\ messageCounter sB' = messageCounter sA + Z.of_nat (length messages).
Proof using base64_roundtrip aes_128_cbc_roundtrip hmac_sha256_length.
  induction messages as [|m rest IH];
    intros wA wB sA sB HA HB He Hm Hk Hc Hlen H0 Hmax Hwf.
  - exists [], wA, wB, sA, sB. cbn [length Z.of_nat].
    rewrite Z.add_0_r. repeat split; try assumption. congruence.
  - inversion Hwf as [|m' rest' Hwm Hwrest]; subst m' rest'.
    cbn [length] in Hmax. rewrite Nat2Z.inj_succ in Hmax.
    destruct (decrypt_after_encrypt id m wA wB sA sB HA HB He Hm Hk Hc Hlen
                ltac:(lia))
      as (p & wA1 & wB1 & sA1 & sB1 & Henc & Hdec & HA1 & HB1 & He1 & Hm1 & Hk1 & Hc1).
    rewrite (utf8_roundtrip m Hwm) in Hdec.
    destruct (encryptMessage_advances id m wA sA HA Hlen)
      as (p' & wA1' & sA1' & Henc' & _ & HA1' & HcA1 & Hlen1).
    rewrite Henc in Henc'. injection Henc' as <- <-.
    rewrite HA1 in HA1'. injection HA1' as <-.
    rewrite js_incr_safe in HcA1 by lia.
    destruct (IH wA1 wB1 sA1 sB1 HA1 HB1 He1 Hm1 Hk1 Hc1 Hlen1
                ltac:(lia) ltac:(lia) Hwrest)
      as (ps & wA' & wB' & sA' & sB' & Hencs & Hdecs & HA' & HB' & He' & Hm' & Hk'
          & HcA' & HcB').
    exists (p :: ps), wA', wB', sA', sB'.
    rewrite (encryptMessages_cons _ _ _ _ _ _ Henc), Hencs.
    rewrite (decryptMessages_cons _ _ _ _ _ Hdec), Hdecs.
    cbn [length]. rewrite Nat2Z.inj_succ.
    repeat split; try assumption; lia.
Qed.

(** Successive packages never share random bytes: the initialisation
    vector of the [k]-th package of successive calls is the [k]-th block
    of 16 bytes of the entropy, counted from where the process stood. *)
Theorem encryptMessages_draw_fresh_ivs (id : JsString) (messages : list JsString) :
  forall (w : World) (s : Session),
    session_of w id = Some s ->
    length (encryptionKey s) = 16%nat ->
    exists ps w',
      encryptMessages id messages w = (Normal ps, w')
      /\ List.map iv ps
         = List.map
             (fun k => base64_encode
                         (List.map (entropy w) (seq (drawn w + 16 * k) 16)))
             (seq 0 (length messages))
      /\ drawn w' = (drawn w + 16 * length messages)%nat
      /\ entropy w' = entropy w.
Proof using hmac_sha256_length.
  induction messages as [|m rest IH]; intros w s Hs Hlen.
  - exists [], w. cbn. repeat split. lia.
  - pose proof (encryptMessage_eq id m w) as Henc.
    rewrite Hs in Henc. cbv zeta in Henc.
    cbn [set_messageCounter encryptionKey] in Henc. rewrite Hlen in Henc.
    cbn [Nat.eqb negb] in Henc.
    match type of Henc with _ = (Normal ?p, ?w0) =>
      set (p1 := p) in *; set (w1 := w0) in * end.
    assert (session_of w1 id
            = Some (ratchet (set_messageCounter (js_incr (messageCounter s)) s)))
      as Hs1.
    { unfold w1. rewrite session_of_with_sessions. apply lookup_insert_eq. }
    destruct (IH w1 _ Hs1 (proj1 (ratchet_key_lengths _)))
      as (ps & w' & Hencs & Hivs & Hd & He).
    exists (p1 :: ps), w'.
    rewrite (encryptMessages_cons _ _ _ _ _ _ Henc), Hencs.
    split; [reflexivity|].
    assert (drawn w1 = (drawn w + 16)%nat) as Hd1 by reflexivity.
    assert (entropy w1 = entropy w) as He1 by reflexivity.
    split; [|split; [rewrite Hd, Hd1; cbn [length]; lia|congruence]].
    cbn [length].
    change (seq 0 (S (length rest))) with (0%nat :: seq 1 (length rest)).
    cbn [List.map]. f_equal.
    + unfold p1. cbn [sealed_package iv]. unfold next_bytes.
      rewrite Nat.mul_0_r, Nat.add_0_r. reflexivity.
    + rewrite Hivs, <- seq_shift, List.map_map.
      apply List.map_ext. intros k. rewrite He1, Hd1.
      do 3 f_equal. lia.
Qed.

(** ** The client, step by step *)

(** [startSession], run. *)
Lemma startSession_eq (recipientId : JsString) (cw : ClientWorld) :
  startSession recipientId cw
  = let cw1 := sent (GetUser recipientId) cw in
    match get_user (relay cw) (length (requests cw)) with
    | Rejected message =>
        (Raised (UserNotFound recipientId),
         wrote (LogError (lit "Failed to start session: ")
                         (RequestFailed message)) cw1)
    | Resolved b =>
        match establishSession recipientId b (messaging cw) with
        | (Normal id, w) =>
            (Returned id,
             wrote (Log (lit "Session established with " ++ recipientId))
               (saving (with_activeSession recipientId id (with_messaging w cw1))))
        | (Throw e, w) =>
            (Raised (UserNotFound recipientId),
             wrote (LogError (lit "Failed to start session: ") (Thrown e))
                   (with_messaging w cw1))
        end
    end.
Proof.
  unfold startSession, try_catch.
  unfold mbind at 1, CM_bind at 1, makeRequest at 1.
  destruct (get_user (relay cw) (length (requests cw))) as [b|message];
    [|reflexivity].
  unfold mbind at 1, CM_bind at 1, on_messaging at 1.
  change (messaging (sent (GetUser recipientId) cw)) with (messaging cw).
  destruct (establishSession recipientId b (messaging cw)) as [[id|e] w];
    reflexivity.
Qed.

(** The body of the loop of [receiveMessages], run. *)
Lemma receiveMessage_eq (message : Message) (cw : ClientWorld) :
  receiveMessage message cw
  = if bool_decide (is_Some (activeSessions cw !! sender message))
    then decryptAndCollect message cw
    else
      let cw1 := sent (GetUser (sender message)) cw in
      let prefix :=
        lit "Failed to establish session with " ++ sender message ++ lit ": " in
      match get_user (relay cw) (length (requests cw)) with
      | Rejected text =>
          (Returned None, wrote (LogError prefix (RequestFailed text)) cw1)
      | Resolved b =>
          match establishSession (sender message) b (messaging cw) with
          | (Normal id, w) =>
              decryptAndCollect message
                (saving (with_activeSession (sender message) id
                           (with_messaging w cw1)))
          | (Throw e, w) =>
              (Returned None,
               wrote (LogError prefix (Thrown e)) (with_messaging w cw1))
          end
      end.
Proof.
  unfold receiveMessage, decryptAndCollect.
  unfold try_catch at 1.
  unfold mbind at 1, CM_bind at 1, activeSessions_has at 1.
  destruct (bool_decide (is_Some (activeSessions cw !! sender message))).
  - unfold mbind at 1, CM_bind at 1. cbn [mret CM_ret].
    unfold mbind at 1, CM_bind at 1, on_messaging at 1.
    destruct (decryptMessage (message_object message) (messaging cw))
      as [[text|e] w]; reflexivity.
  - unfold mbind at 1, CM_bind at 1, try_catch at 1.
    unfold mbind at 1, CM_bind at 1, makeRequest at 1.
    destruct (get_user (relay cw) (length (requests cw))) as [b|text];
      [|reflexivity].
    unfold mbind at 1, CM_bind at 1, on_messaging at 1.
    change (messaging (sent (GetUser (sender message)) cw)) with (messaging cw).
    destruct (establishSession (sender message) b (messaging cw))
      as [[id|e] w]; [|reflexivity].
    cbv [mbind CM_bind activeSessions_set saveSessionsToFile mret CM_ret
         on_messaging].
    match goal with
    | |- context [decryptMessage ?p ?x] =>
        destruct (decryptMessage p x) as [[text|e] w']
    end; reflexivity.
Qed.

(** [sendMessage], run. *)
Lemma sendMessage_eq (recipientId message : JsString) (cw : ClientWorld) :
  sendMessage recipientId message cw
  = match (activeSessions cw !! recipientId : option JsString) with
    | Some (u :: rest) => encryptAndPost (u :: rest) recipientId message cw
    | _ =>
        match startSession recipientId cw with
        | (Returned id, cw') => encryptAndPost id recipientId message cw'
        | (Raised e, cw') => (Raised e, cw')
        end
    end.
Proof.
  assert (forall id cw0,
             (encryptedMessage ← on_messaging (encryptMessage id message);
              user ← this_userId_get;
              now ← Date_now;
              try_catch
                (_ ← makeRequest
                       (SendMessage {| sealed := encryptedMessage; sender := user;
                                       recipient := recipientId;
                                       timestamp := now |}) send_message;
                 _ ← saveSessionsToFile;
                 console_log (lit "Message sent to " ++ recipientId))
                (fun error =>
                   _ ← console_error (lit "Failed to send message: ") error;
                   raise error)) cw0
             = encryptAndPost id recipientId message cw0) as Hrest.
  { intros id cw0. unfold encryptAndPost.
    unfold mbind at 1, CM_bind at 1, on_messaging at 1.
    destruct (encryptMessage id message (messaging cw0)) as [[p|e] w];
      [|reflexivity].
    cbv [mbind CM_bind this_userId_get Date_now try_catch makeRequest].
    cbn [relay requests with_messaging this_userId clock].
    destruct (send_message (relay cw0) (length (requests cw0))); reflexivity. }
  unfold sendMessage.
  unfold mbind at 1, CM_bind at 1, activeSessions_get at 1.
  unfold mbind at 1, CM_bind at 1.
  destruct (activeSessions cw !! recipientId) as [[|u rest]|].
  - unfold try_catch at 1.
    destruct (startSession recipientId cw) as [[id|e] cw']; [apply Hrest|reflexivity].
  - apply Hrest.
  - unfold try_catch at 1.
    destruct (startSession recipientId cw) as [[id|e] cw']; [apply Hrest|reflexivity].
Qed.

Lemma decryptAndCollect_returns (message : Message) (cw : ClientWorld) :
  exists received cw', decryptAndCollect message cw = (Returned received, cw').
Proof.
  unfold decryptAndCollect.
  destruct (decryptMessage _ _) as [[text|e] w]; eexists _, _; reflexivity.
Qed.

Lemma receiveMessage_returns (message : Message) (cw : ClientWorld) :
  exists received cw', receiveMessage message cw = (Returned received, cw').
Proof.
  rewrite receiveMessage_eq.
  destruct (bool_decide _); [apply decryptAndCollect_returns|].
  cbv zeta. destruct (get_user _ _) as [b|text]; [|eexists _, _; reflexivity].
  destruct (establishSession _ _ _) as [[id|e] w];
    [apply decryptAndCollect_returns|eexists _, _; reflexivity].
Qed.

Lemma receiveEach_cons (message : Message) (rest : list Message)
    (cw cw1 : ClientWorld) (received : option Decrypted) :
  receiveMessage message cw = (Returned received, cw1) ->
  receiveEach (message :: rest) cw
  = match receiveEach rest cw1 with
    | (Returned others, cw') =>
        (Returned (match received with
                   | Some decrypted => decrypted :: others
                   | None => others
                   end), cw')
    | (Raised e, cw') => (Raised e, cw')
    end.
Proof.
  intros H. cbn [receiveEach]. unfold mbind at 1, CM_bind at 1. rewrite H.
  unfold mbind, CM_bind. destruct (receiveEach rest cw1) as [[others|e] cw'];
    reflexivity.
Qed.

Lemma receiveEach_returns (messages : list Message) : forall cw,
  exists decrypted cw', receiveEach messages cw = (Returned decrypted, cw').
Proof.
  induction messages as [|m rest IH]; intros cw; [eexists _, _; reflexivity|].
  destruct (receiveMessage_returns m cw) as (received & cw1 & H1).
  destruct (IH cw1) as (others & cw' & H2).
  rewrite (receiveEach_cons _ _ _ _ _ H1), H2. eexists _, _. reflexivity.
Qed.

(** [receiveMessages], run. *)
Lemma receiveMessages_eq (cw : ClientWorld) :
  receiveMessages cw
  = let cw1 := sent (GetMessages (this_userId cw)) cw in
    match get_messages (relay cw) (length (requests cw)) with
    | Rejected text =>
        (Returned [],
         wrote (LogError (lit "Failed to receive messages: ")
                         (RequestFailed text)) cw1)
    | Resolved [] => (Returned [], wrote (Log (lit "No new messages")) cw1)
    | Resolved messages => receiveEach messages cw1
    end.
Proof.
  unfold receiveMessages, try_catch.
  unfold mbind at 1, CM_bind at 1, this_userId_get at 1.
  unfold mbind at 1, CM_bind at 1, makeRequest at 1.
  destruct (get_messages (relay cw) (length (requests cw))) as [[|m rest]|text];
    try reflexivity.
  cbv zeta.
  destruct (receiveEach_returns (m :: rest) (sent (GetMessages (this_userId cw)) cw))
    as (ds & cw' & H).
  rewrite H. reflexivity.
Qed.

(** ** Starting a session and sending *)

Lemma fresh_session_id_names (recipient : JsString) (bytes : Buffer) :
  length bytes = 16%nat -> names (fresh_session_id recipient bytes) recipient.
Proof.
  intros H. exists (hex bytes). split; [rewrite hex_length, H|]; reflexivity.
Qed.

Lemma names_inj (id a b : JsString) : names id a -> names id b -> a = b.
Proof.
  intros (h & Hh & ->) (h' & Hh' & E).
  apply (f_equal (drop 33)) in E. rewrite !app_assoc in E.
  rewrite !drop_app_length' in E; [exact E| |];
    rewrite length_app; [rewrite Hh'|rewrite Hh]; reflexivity.
Qed.

(** [startSession] makes one request, for the recipient's bundle, and
    what the relay answers decides the rest.  When the relay rejects the
    request, with whatever message, and when the bundle it returns has a
    signature that does not verify, the method throws that the user was
    not found: the caller is told that one thing, the cause goes to the
    console, and the client's sessions, its map of active sessions and
    its file are as they were.  When the bundle's signature verifies the
    method returns: it has stored a new session with the recipient under
    an identifier that names the recipient, entered it in the map of
    active sessions and written the file once. *)
Theorem startSession_reports_user_not_found (recipientId : JsString)
    (cw : ClientWorld) :
  let answer := get_user (relay cw) (length (requests cw)) in
  let valid :=
    match answer with
    | Resolved b =>
        bool_decide (rsa_sha256_verify (identityKey b) (preKey b) (signature b)
                     = Some true)
    | Rejected _ => false
    end in
  exists cw',
    requests cw' = requests cw ++ [GetUser recipientId]
    /\ if valid then
         exists id,
           startSession recipientId cw = (Returned id, cw')
           /\ names id recipientId
           /\ activeSessions cw' = <[recipientId := id]> (activeSessions cw)
           /\ session_of (messaging cw') id
              = Some (initial_session recipientId (next_bytes 32 (messaging cw)))
           /\ saved cw'
              = saved cw
                ++ [(activeSessions cw', sessionKeys (this (messaging cw')))]
       else
         startSession recipientId cw = (Raised (UserNotFound recipientId), cw')
         /\ activeSessions cw' = activeSessions cw
         /\ this (messaging cw') = this (messaging cw)
         /\ saved cw' = saved cw
         /\ console cw'
            = console cw
              ++ [LogError (lit "Failed to start session: ")
                    match answer with
                    | Rejected text => RequestFailed text
                    | Resolved _ => Thrown InvalidBundleSignature
                    end].
Proof.
  cbv zeta. rewrite startSession_eq. cbv zeta.
  destruct (get_user (relay cw) (length (requests cw))) as [b|text].
  - rewrite establishSession_eq.
    destruct (rsa_sha256_verify _ _ _) as [[|]|].
    + rewrite bool_decide_eq_true_2 by reflexivity.
      eexists. split; cycle 1.
      { eexists. split; [reflexivity|].
        split; [apply fresh_session_id_names, next_bytes_length|].
        split; [reflexivity|]. split; [|reflexivity].
        unfold session_of.
        cbn [wrote saving with_activeSession with_messaging messaging].
        rewrite established_session. apply lookup_insert_eq. }
      reflexivity.
    + rewrite bool_decide_eq_false_2 by congruence.
      eexists. split; cycle 1; [repeat split|reflexivity].
    + rewrite bool_decide_eq_false_2 by congruence.
      eexists. split; cycle 1; [repeat split|reflexivity].
  - eexists. split; cycle 1; [repeat split|reflexivity].
Qed.

(** [sendMessage] to a user with an active session posts one message: the
    package [encryptMessage] made, with the client's name as [sender], the
    recipient and the time.  The tag of the package covers its four
    fields and none of the three that were added.  By the time the
    request is made the session has moved on, counter and keys: when the
    relay rejects the request the method throws the relay's error, the
    message is nowhere, and the session stays advanced while the file
    keeps the state before. *)
Theorem sendMessage_posts_then_saves (recipientId message id : JsString)
    (cw : ClientWorld) (s : Session) :
  activeSessions cw !! recipientId = Some id ->
  id <> [] ->
  session_of (messaging cw) id = Some s ->
  length (encryptionKey s) = 16%nat ->
  exists p cw',
    sendMessage recipientId message cw
    = (match send_message (relay cw) (length (requests cw)) with
       | Resolved _ => Returned tt
       | Rejected text => Raised (RequestFailed text)
       end, cw')
    /\ requests cw'
       = requests cw
         ++ [SendMessage {| sealed := p; sender := this_userId cw;
                            recipient := recipientId;
                            timestamp := clock cw (length (requests cw)) |}]
    /\ sessionId p = id
    /\ counter p = js_incr (messageCounter s)
    /\ mac p = expected_mac s (authenticated_prefix p ++ lit "}")
    /\ session_of (messaging cw') id
       = Some (ratchet (set_messageCounter (js_incr (messageCounter s)) s))
    /\ saved cw'
       = match send_message (relay cw) (length (requests cw)) with
         | Resolved _ =>
             saved cw ++ [(activeSessions cw, sessionKeys (this (messaging cw')))]
         | Rejected _ => saved cw
         end.
Proof.
  intros Ha Hid Hs Hlen.
  assert (sendMessage recipientId message cw
          = encryptAndPost id recipientId message cw) as ->.
  { rewrite sendMessage_eq, Ha. destruct id; [congruence|reflexivity]. }
  destruct id as [|u rest]; [congruence|].
  unfold encryptAndPost. rewrite encryptMessage_eq, Hs. cbv zeta.
  cbn [set_messageCounter encryptionKey]. rewrite Hlen. cbn [Nat.eqb negb].
  destruct (send_message (relay cw) (length (requests cw)));
    (eexists _, _; split; [reflexivity|];
     split; [reflexivity|]; split; [reflexivity|]; split; [reflexivity|];
     split;
       [exact (proj2 (stringify_sealed_package
                        (set_messageCounter (js_incr (messageCounter s)) s)
                        _ _ _))|];
     split; [|reflexivity];
     cbn [wrote saving sent with_messaging messaging];
     rewrite (session_of_with_sessions _ _ (u :: rest));
     apply lookup_insert_eq).
Qed.

(** ** Receiving *)

Lemma decryptAndCollect_origin (message : Message) (cw cw' : ClientWorld)
    (d : Decrypted) :
  decryptAndCollect message cw = (Returned (Some d), cw') ->
  from d = sender message /\ decryptedTimestamp d = timestamp message.
Proof.
  unfold decryptAndCollect.
  destruct (decryptMessage _ _) as [[text|e] w]; intros [= <- <-]; split;
    reflexivity.
Qed.

Lemma receiveMessage_origin (message : Message) (cw cw' : ClientWorld)
    (d : Decrypted) :
  receiveMessage message cw = (Returned (Some d), cw') ->
  from d = sender message /\ decryptedTimestamp d = timestamp message.
Proof.
  rewrite receiveMessage_eq.
  destruct (bool_decide _); [apply decryptAndCollect_origin|].
  cbv zeta. destruct (get_user _ _) as [b|text]; [|discriminate].
  destruct (establishSession _ _ _) as [[id|e] w];
    [apply decryptAndCollect_origin|discriminate].
Qed.

Lemma receiveEach_sublist (messages : list Message) : forall cw decrypted cw',
  receiveEach messages cw = (Returned decrypted, cw') ->
  sublist (List.map (fun d => (from d, decryptedTimestamp d)) decrypted)
          (List.map (fun m => (sender m, timestamp m)) messages).
Proof.
  induction messages as [|m rest IH]; intros cw decrypted cw' H.
  - injection H as <- <-. constructor.
  - destruct (receiveMessage_returns m cw) as (received & cw1 & H1).
    rewrite (receiveEach_cons _ _ _ _ _ H1) in H.
    destruct (receiveEach rest cw1) as [[others|e] cw2] eqn:H2; [|discriminate].
    injection H as <- <-. specialize (IH _ _ _ H2).
    destruct received as [d|]; cbn [List.map].
    + destruct (receiveMessage_origin _ _ _ _ H1) as [-> ->].
      apply sublist_skip, IH.
    + apply sublist_cons, IH.
Qed.

(** Each turn of the loop leaves the requests made before it in place. *)
Lemma receiveMessage_requests (message : Message) (cw cw1 : ClientWorld)
    (received : option Decrypted) :
  receiveMessage message cw = (Returned received, cw1) ->
  exists more, requests cw1 = requests cw ++ more.
Proof.
  rewrite receiveMessage_eq. unfold decryptAndCollect.
  destruct (bool_decide _).
  - destruct (decryptMessage _ _) as [[text|e] w]; intros [= _ <-];
      exists []; symmetry; apply app_nil_r.
  - cbv zeta. destruct (get_user _ _) as [b|text];
      [|intros [= _ <-]; eexists; reflexivity].
    destruct (establishSession _ _ _) as [[id|e] w];
      [|intros [= _ <-]; eexists; reflexivity].
    cbn [messaging saving with_activeSession with_messaging].
    destruct (decryptMessage _ _) as [[text|e] w']; intros [= _ <-];
      eexists; reflexivity.
Qed.

Lemma receiveEach_requests (messages : list Message) :
  forall cw decrypted cw',
  receiveEach messages cw = (Returned decrypted, cw') ->
  exists more, requests cw' = requests cw ++ more.
Proof.
  induction messages as [|m rest IH]; intros cw decrypted cw' H.
  - injection H as <- <-. exists []. symmetry. apply app_nil_r.
  - destruct (receiveMessage_returns m cw) as (received & cw1 & H1).
    rewrite (receiveEach_cons _ _ _ _ _ H1) in H.
    destruct (receiveEach rest cw1) as [[others|e] cw2] eqn:H2; [|discriminate].
    injection H as <- <-.
    destruct (receiveMessage_requests _ _ _ _ H1) as (first & Hfirst).
    destruct (IH _ _ _ H2) as (more & Hmore).
    exists (first ++ more). rewrite Hmore, Hfirst. symmetry. apply app_assoc.
Qed.

(** When every sender has an entry the loop asks the relay nothing and
    collects what [decryptMessage] accepts. *)
Lemma receiveEach_known (messages : list Message) : forall cw,
  Forall (fun m => is_Some (activeSessions cw !! sender m)) messages ->
  exists cw',
    receiveEach messages cw = (Returned (readEach messages (messaging cw)), cw')
    /\ requests cw' = requests cw
    /\ activeSessions cw' = activeSessions cw.
Proof.
  induction messages as [|m rest IH]; intros cw Hknown.
  - eexists. split; [reflexivity|]. split; reflexivity.
  - inversion Hknown as [|? ? Hm Hrest]; subst.
    assert (receiveMessage m cw = decryptAndCollect m cw) as H1.
    { rewrite receiveMessage_eq. rewrite bool_decide_eq_true_2 by exact Hm.
      reflexivity. }
    unfold decryptAndCollect in H1. cbn [readEach].
    destruct (decryptMessage (message_object m) (messaging cw)) as [[text|e] w];
      rewrite (receiveEach_cons _ _ _ _ _ H1);
      match type of H1 with
      | _ = (_, ?cw1) => destruct (IH cw1 Hrest) as (cw' & -> & Hr & Ha)
      end;
      (eexists; split; [reflexivity|]; split; [exact Hr|exact Ha]).
Qed.

(** [receiveMessages] never throws, and its first request is the one for
    the client's messages.  It returns an array with an entry for some of
    the messages the relay handed over, in the order they came, each with
    its message's sender and timestamp.  When every sender has an entry in
    the map of active sessions the array is [readEach] of the messages: a
    message [decryptMessage] refuses is left out and the ones after it
    are still read; the client makes no other request and its map is as
    it was.  When the request is rejected the array is empty and the
    client holds what it held. *)
Theorem receiveMessages_always_returns (cw : ClientWorld) :
  exists decrypted cw' more,
    receiveMessages cw = (Returned decrypted, cw')
    /\ requests cw' = requests cw ++ GetMessages (this_userId cw) :: more
    /\ match get_messages (relay cw) (length (requests cw)) with
       | Resolved messages =>
           sublist (List.map (fun d => (from d, decryptedTimestamp d)) decrypted)
                   (List.map (fun m => (sender m, timestamp m)) messages)
           /\ (Forall (fun m => is_Some (activeSessions cw !! sender m)) messages ->
               decrypted = readEach messages (messaging cw)
               /\ more = []
               /\ activeSessions cw' = activeSessions cw)
       | Rejected text =>
           decrypted = []
           /\ more = []
           /\ messaging cw' = messaging cw
           /\ activeSessions cw' = activeSessions cw
           /\ saved cw' = saved cw
       end.
Proof.
  rewrite receiveMessages_eq. cbv zeta.
  destruct (get_messages (relay cw) (length (requests cw))) as [[|m rest]|text].
  - eexists _, _, []. split; [reflexivity|]. split; [reflexivity|].
    split; [constructor|]. intros _. repeat split.
  - set (cw1 := sent (GetMessages (this_userId cw)) cw).
    destruct (receiveEach_returns (m :: rest) cw1) as (ds & cw' & H).
    destruct (receiveEach_requests _ _ _ _ H) as (more & Hmore).
    exists ds, cw', more. split; [exact H|].
    split; [rewrite Hmore; unfold cw1; cbn [sent requests];
            rewrite <- app_assoc; reflexivity|].
    split; [exact (receiveEach_sublist _ _ _ _ H)|].
    intros Hknown.
    destruct (receiveEach_known (m :: rest) cw1 Hknown) as (cw'' & H' & Hr & Ha).
    rewrite H in H'. injection H' as -> ->.
    split; [reflexivity|]. split; [|exact Ha].
    rewrite Hr in Hmore. apply (f_equal length) in Hmore.
    rewrite length_app in Hmore. destruct more; [reflexivity|].
    cbn [length] in Hmore. lia.
  - eexists _, _, []. split; [reflexivity|]. split; [reflexivity|]. repeat split.
Qed.

(** What holds of a client that never opened a session with itself: its
    sessions are well formed and none names the client as recipient. *)
Lemma no_session_for (me id : JsString) (w : World) :
  sessions_well_formed w ->
  (forall id' s, session_of w id' = Some s -> recipientId s <> me) ->
  names id me ->
  session_of w id = None.
Proof.
  intros Hwf Hme Hid. destruct (session_of w id) as [s|] eqn:Hs; [|reflexivity].
  exfalso. apply (Hme id s Hs).
  destruct (Hwf id s Hs) as (_ & _ & _ & _ & Hnames).
  exact (names_inj id _ _ Hnames Hid).
Qed.

Lemma decryptAndCollect_unknown_session (message : Message) (cw : ClientWorld) :
  session_of (messaging cw) (sessionId (sealed message)) = None ->
  decryptAndCollect message cw
  = (Returned None,
     wrote (LogError (lit "Failed to decrypt message from "
                      ++ sender message ++ lit ": ") (Thrown SessionNotFound))
           (with_messaging (messaging cw) cw)).
Proof.
  intros H. unfold decryptAndCollect. rewrite decryptMessage_eq.
  change (sessionId (message_object message)) with (sessionId (sealed message)).
  rewrite H. reflexivity.
Qed.

Lemma receiveMessage_drops (me : JsString) (message : Message) (cw : ClientWorld) :
  sessions_well_formed (messaging cw) ->
  (forall id s, session_of (messaging cw) id = Some s -> recipientId s <> me) ->
  sender message <> me ->
  names (sessionId (sealed message)) me ->
  exists cw',
    receiveMessage message cw = (Returned None, cw')
    /\ sessions_well_formed (messaging cw')
    /\ (forall id s, session_of (messaging cw') id = Some s -> recipientId s <> me).
Proof using sha256_length.
  intros Hwf Hme Hsender Hid. rewrite receiveMessage_eq.
  destruct (bool_decide _).
  { rewrite decryptAndCollect_unknown_session
      by exact (no_session_for me _ _ Hwf Hme Hid).
    eexists. split; [reflexivity|]. split; assumption. }
  cbv zeta. destruct (get_user _ _) as [b|text];
    [|eexists; split; [reflexivity|]; split; assumption].
  rewrite establishSession_eq.
  destruct (rsa_sha256_verify _ _ _) as [[|]|];
    try (eexists; split; [reflexivity|]; split; assumption).
  assert (sessions_well_formed (established (sender message) (messaging cw)))
    as Hwf'.
  { eapply sessions_well_formed_insert; [apply established_session| |exact Hwf].
    apply initial_session_well_formed, next_bytes_length. }
  assert (forall id s,
             session_of (established (sender message) (messaging cw)) id = Some s ->
             recipientId s <> me) as Hme'.
  { intros id s. unfold session_of. rewrite established_session.
    destruct (decide (fresh_session_id (sender message)
                        (next_bytes 16 (draw 32 (record CreateVerify (messaging cw))))
                      = id)) as [<-|Hne].
    - rewrite lookup_insert_eq. intros [= <-]. exact Hsender.
    - rewrite lookup_insert_ne by exact Hne. apply Hme. }
  rewrite decryptAndCollect_unknown_session
    by exact (no_session_for me _ _ Hwf' Hme' Hid).
  eexists. split; [reflexivity|]. split; assumption.
Qed.

Lemma receiveEach_drops (me : JsString) (messages : list Message) : forall cw,
  sessions_well_formed (messaging cw) ->
  (forall id s, session_of (messaging cw) id = Some s -> recipientId s <> me) ->
  Forall (fun m => sender m <> me /\ names (sessionId (sealed m)) me) messages ->
  exists cw', receiveEach messages cw = (Returned [], cw').
Proof using sha256_length.
  induction messages as [|m rest IH]; intros cw Hwf Hme Hall.
  - eexists. reflexivity.
  - inversion Hall as [|m' rest' [Hsender Hid] Hrest]; subst m' rest'.
    destruct (receiveMessage_drops me m cw Hwf Hme Hsender Hid)
      as (cw1 & H1 & Hwf1 & Hme1).
    destruct (IH cw1 Hwf1 Hme1 Hrest) as (cw' & H2).
    rewrite (receiveEach_cons _ _ _ _ _ H1), H2. eexists. reflexivity.
Qed.

(** Messages addressed through a peer's session are never read.  A peer
    that established its session with this client holds it under an
    identifier that names this client; the client itself holds sessions
    under identifiers that name its peers.  So when every message the relay
    hands over carries an identifier that names the client and a sender
    that is not the client, and the client holds well-formed sessions none
    of which is with itself, [receiveMessages] returns the empty array:
    for each message [decryptMessage] finds no session, after the client
    has established a session of its own with a sender it did not know. *)
Theorem receiveMessages_drops_peer_messages (cw : ClientWorld)
    (messages : list Message) :
  sessions_well_formed (messaging cw) ->
  (forall id s,
      session_of (messaging cw) id = Some s -> recipientId s <> this_userId cw) ->
  get_messages (relay cw) (length (requests cw)) = Resolved messages ->
  Forall (fun m => sender m <> this_userId cw
                   /\ names (sessionId (sealed m)) (this_userId cw)) messages ->
  exists cw', receiveMessages cw = (Returned [], cw').
Proof using sha256_length.
  intros Hwf Hme Hr Hall. rewrite receiveMessages_eq, Hr. cbv zeta.
  destruct messages as [|m rest]; [eexists; reflexivity|].
  apply (receiveEach_drops (this_userId cw)); assumption.
Qed.

Lemma encryptAndPost_returned (id recipientId message : JsString)
    (cw cw' : ClientWorld) :
  encryptAndPost id recipientId message cw = (Returned tt, cw') ->
  exists p,
    requests cw'
    = requests cw
      ++ [SendMessage {| sealed := p; sender := this_userId cw;
                         recipient := recipientId;
                         timestamp := clock cw (length (requests cw)) |}]
    /\ sessionId p = id.
Proof.
  unfold encryptAndPost. rewrite encryptMessage_eq.
  destruct (session_of (messaging cw) id) as [s|]; [|discriminate].
  cbv zeta. destruct (negb _); [discriminate|].
  destruct (send_message _ _); [|discriminate].
  intros [= <-]. eexists. split; reflexivity.
Qed.

(** What one client sends, another never reads.  Take a client that sends
    a message to a user with [sendMessage], through a session it starts
    for the purpose or through one it holds under an identifier that names
    the user, and suppose the relay accepts the message.  The message
    carries the sender's session identifier, which names the recipient.
    When the relay hands that message to the recipient's client, which
    holds well-formed sessions and none with itself, [receiveMessages]
    returns the empty array: the recipient has no session under the
    sender's identifier and no way to get one. *)
Theorem sent_messages_are_not_delivered (message : JsString)
    (cwA cwA' cwB : ClientWorld) :
  let bob := this_userId cwB in
  this_userId cwA <> bob ->
  (forall id, activeSessions cwA !! bob = Some id -> names id bob) ->
  sessions_well_formed (messaging cwB) ->
  (forall id s, session_of (messaging cwB) id = Some s -> recipientId s <> bob) ->
  sendMessage bob message cwA = (Returned tt, cwA') ->
  exists posted,
    last (requests cwA') = Some (SendMessage posted)
    /\ sender posted = this_userId cwA
    /\ recipient posted = bob
    /\ names (sessionId (sealed posted)) bob
    /\ (get_messages (relay cwB) (length (requests cwB)) = Resolved [posted] ->
        exists cwB', receiveMessages cwB = (Returned [], cwB')).
Proof using sha256_length.
  intros bob Hne Hactive Hwf Hme Hsend.
  assert (exists id cw0,
             encryptAndPost id bob message cw0 = (Returned tt, cwA')
             /\ names id bob /\ this_userId cw0 = this_userId cwA) as
      (id & cw0 & Hpost & Hid & Hu).
  { rewrite sendMessage_eq in Hsend.
    assert (forall cw1 e,
               startSession bob cwA = (e, cw1) ->
               match e with
               | Returned id => encryptAndPost id bob message cw1
               | Raised e => (Raised e, cw1)
               end = (Returned tt, cwA') ->
               exists id cw0,
                 encryptAndPost id bob message cw0 = (Returned tt, cwA')
                 /\ names id bob /\ this_userId cw0 = this_userId cwA) as Hstart.
    { intros cw1 e Hs Hrest. destruct e as [id|e]; [|discriminate].
      exists id, cw1. split; [exact Hrest|].
      rewrite startSession_eq in Hs. cbv zeta in Hs.
      destruct (get_user _ _) as [b|text]; [|discriminate].
      rewrite establishSession_eq in Hs.
      destruct (rsa_sha256_verify _ _ _) as [[|]|]; try discriminate.
      injection Hs as <- <-. split; [|reflexivity].
      apply fresh_session_id_names, next_bytes_length. }
    destruct (activeSessions cwA !! bob) as [[|u rest]|] eqn:Ha.
    - destruct (startSession bob cwA) as [e cw1] eqn:Hs.
      exact (Hstart cw1 e eq_refl Hsend).
    - exists (u :: rest), cwA. split; [exact Hsend|]. split; [|reflexivity].
      apply Hactive. reflexivity.
    - destruct (startSession bob cwA) as [e cw1] eqn:Hs.
      exact (Hstart cw1 e eq_refl Hsend). }
  destruct (encryptAndPost_returned _ _ _ _ _ Hpost) as (p & Hreq & Hp).
  eexists. split; [rewrite Hreq; apply last_snoc|].
  cbn [sender recipient sealed]. split; [exact Hu|]. split; [reflexivity|].
  split; [rewrite Hp; exact Hid|].
  intros Hr. rewrite receiveMessages_eq, Hr. cbv zeta.
  apply (receiveEach_drops bob); [exact Hwf|exact Hme|].
  constructor; [|constructor]. cbn [sender sealed]. split; [congruence|].
  rewrite Hp. exact Hid.
Qed.

(** ** What every sequence of calls of the client preserves *)

Lemma client_well_formed_step (cw cw' : ClientWorld) :
  activeSessions cw' = activeSessions cw ->
  sessions_well_formed (messaging cw') ->
  (forall id s,
      session_of (messaging cw) id = Some s ->
      exists s', session_of (messaging cw') id = Some s'
                 /\ recipientId s' = recipientId s) ->
  client_well_formed cw -> client_well_formed cw'.
Proof.
  intros Ha Hwf' Hkeep [Hwf Hentries]. split; [exact Hwf'|].
  intros user id Hu. rewrite Ha in Hu.
  destruct (Hentries user id Hu) as (s & Hs & Hr).
  destruct (Hkeep id s Hs) as (s' & Hs' & Hr').
  exists s'. split; [exact Hs'|congruence].
Qed.

Lemma insert_keeps_recipients (w w' : World) (id0 : JsString) (s0 s1 : Session) :
  session_of w id0 = Some s0 ->
  recipientId s1 = recipientId s0 ->
  sessionKeys (this w') = <[id0 := s1]> (sessionKeys (this w)) ->
  forall id s,
    session_of w id = Some s ->
    exists s', session_of w' id = Some s' /\ recipientId s' = recipientId s.
Proof.
  intros H0 Hr E id s Hs. unfold session_of. rewrite E.
  destruct (decide (id0 = id)) as [->|Hne].
  - rewrite lookup_insert_eq. exists s1. split; [reflexivity|].
    rewrite Hs in H0. injection H0 as <-. exact Hr.
  - rewrite lookup_insert_ne by exact Hne. exists s. split; [exact Hs|reflexivity].
Qed.

Lemma same_this_keeps_recipients (w w' : World) :
  this w' = this w ->
  forall id s,
    session_of w id = Some s ->
    exists s', session_of w' id = Some s' /\ recipientId s' = recipientId s.
Proof.
  intros E id s Hs. exists s. unfold session_of. rewrite E.
  split; [exact Hs|reflexivity].
Qed.

Lemma encryptMessage_keeps_sessions (id message : JsString) (w : World) :
  sessions_well_formed w ->
  sessions_well_formed (after (encryptMessage id message) w)
  /\ forall id' s,
       session_of w id' = Some s ->
       exists s', session_of (after (encryptMessage id message) w) id' = Some s'
                  /\ recipientId s' = recipientId s.
Proof using hmac_sha256_length.
  intros H. unfold after. rewrite encryptMessage_eq.
  destruct (session_of w id) as [s0|] eqn:Hs0;
    [|split; [exact H|apply same_this_keeps_recipients; reflexivity]].
  pose proof (H _ _ Hs0) as Hwf.
  assert (session_well_formed id
            (set_messageCounter (js_incr (messageCounter s0)) s0)) as Hwf1.
  { apply set_messageCounter_well_formed; [|exact Hwf].
    apply js_incr_nonnegative. apply Hwf. }
  cbv zeta. destruct (negb _).
  - split.
    + eapply sessions_well_formed_insert; [|exact Hwf1|exact H]. reflexivity.
    + eapply (insert_keeps_recipients w _ id s0); [exact Hs0| |reflexivity].
      reflexivity.
  - split.
    + eapply sessions_well_formed_insert;
        [|exact (ratchet_well_formed _ _ Hwf1)|exact H].
      cbn. rewrite insert_insert_eq. reflexivity.
    + eapply (insert_keeps_recipients w _ id s0); [exact Hs0| |].
      2:{ cbn. rewrite insert_insert_eq. reflexivity. }
      reflexivity.
Qed.

Lemma decryptMessage_keeps_sessions (p : MessagePackage) (w : World) :
  sessions_well_formed w ->
  sessions_well_formed (after (decryptMessage p) w)
  /\ forall id' s,
       session_of w id' = Some s ->
       exists s', session_of (after (decryptMessage p) w) id' = Some s'
                  /\ recipientId s' = recipientId s.
Proof using hmac_sha256_length.
  intros H. unfold after. rewrite decryptMessage_eq.
  assert (forall w' : World,
             this w' = this w ->
             sessions_well_formed w'
             /\ forall id' s,
                  session_of w id' = Some s ->
                  exists s', session_of w' id' = Some s'
                             /\ recipientId s' = recipientId s) as Hsame.
  { intros w' E. split; [|apply same_this_keeps_recipients, E].
    apply (sessions_well_formed_same w); [rewrite E; reflexivity|exact H]. }
  destruct (session_of w (sessionId p)) as [s0|] eqn:Hs0;
    [|apply Hsame; reflexivity].
  pose proof (H _ _ Hs0) as Hwf.
  destruct (counter p <=? messageCounter s0) eqn:Hc; [apply Hsame; reflexivity|].
  apply Z.leb_gt in Hc.
  cbv zeta. destruct (Json.stringify _); try (apply Hsame; reflexivity).
  destruct (bool_decide _); [apply Hsame; reflexivity|].
  destruct (negb _); [apply Hsame; reflexivity|].
  destruct (negb _); [apply Hsame; reflexivity|].
  destruct (aes_128_cbc_decrypt _ _ _); [|apply Hsame; reflexivity].
  split.
  - eapply sessions_well_formed_insert; [| |exact H].
    + cbn. rewrite insert_insert_eq. reflexivity.
    + apply ratchet_well_formed, set_messageCounter_well_formed; [|exact Hwf].
      destruct Hwf as (_ & _ & _ & H0 & _). lia.
  - eapply (insert_keeps_recipients w _ (sessionId p) s0); [exact Hs0| |].
    2:{ cbn. rewrite insert_insert_eq. reflexivity. }
    reflexivity.
Qed.

Lemma client_well_formed_same (cw cw' : ClientWorld) :
  this (messaging cw') = this (messaging cw) ->
  activeSessions cw' = activeSessions cw ->
  client_well_formed cw -> client_well_formed cw'.
Proof.
  intros Hm Ha [Hwf Hentries]. unfold client_well_formed, sessions_well_formed,
    session_of in *. rewrite Hm, Ha. split; assumption.
Qed.

Lemma client_well_formed_established (recipient : JsString) (cw cw' : ClientWorld) :
  messaging cw' = established recipient (messaging cw) ->
  activeSessions cw'
  = <[recipient := fresh_session_id recipient
                     (next_bytes 16 (draw 32 (record CreateVerify (messaging cw))))]>
      (activeSessions cw) ->
  client_well_formed cw -> client_well_formed cw'.
Proof using sha256_length.
  intros Hm Ha [Hwf Hentries]. unfold client_well_formed. rewrite Hm, Ha.
  set (fid := fresh_session_id recipient
                (next_bytes 16 (draw 32 (record CreateVerify (messaging cw))))).
  assert (names fid recipient) as Hfid
      by apply fresh_session_id_names, next_bytes_length.
  split.
  { eapply sessions_well_formed_insert; [apply established_session| |exact Hwf].
    apply initial_session_well_formed, next_bytes_length. }
  intros user id. unfold session_of. rewrite established_session. fold fid.
  destruct (decide (recipient = user)) as [<-|Hne].
  - rewrite lookup_insert_eq. intros [= <-]. rewrite lookup_insert_eq.
    eexists. split; reflexivity.
  - rewrite lookup_insert_ne by exact Hne. intros Hu.
    destruct (Hentries user id Hu) as (s & Hs & Hr).
    destruct (decide (fid = id)) as [<-|Hne'].
    + exfalso. apply Hne.
      destruct (Hwf fid s Hs) as (_ & _ & _ & _ & Hn). rewrite Hr in Hn.
      exact (names_inj fid _ _ Hfid Hn).
    + rewrite lookup_insert_ne by exact Hne'. exists s. split; assumption.
Qed.

Lemma startSession_keeps_well_formed (recipientId : JsString) (cw : ClientWorld) :
  client_well_formed cw -> client_well_formed (startSession recipientId cw).2.
Proof using sha256_length.
  intros H. rewrite startSession_eq. cbv zeta.
  destruct (get_user _ _) as [b|text];
    [|(apply (client_well_formed_same cw); [reflexivity|reflexivity|exact H])].
  rewrite establishSession_eq.
  destruct (rsa_sha256_verify _ _ _) as [[|]|];
    try (apply (client_well_formed_same cw); [reflexivity|reflexivity|exact H]).
  (apply (client_well_formed_established recipientId cw); [reflexivity|reflexivity|exact H]).
Qed.

Lemma encryptAndPost_keeps_well_formed (id recipientId message : JsString)
    (cw : ClientWorld) :
  client_well_formed cw ->
  client_well_formed (encryptAndPost id recipientId message cw).2.
Proof using hmac_sha256_length.
  intros H.
  destruct (encryptMessage_keeps_sessions id message (messaging cw) (proj1 H))
    as [Hwf Hkeep].
  unfold after in Hwf, Hkeep.
  apply (client_well_formed_step cw); [| | |exact H];
    unfold encryptAndPost;
    destruct (encryptMessage id message (messaging cw)) as [[p|e] w];
    try destruct (send_message _ _); first [reflexivity|exact Hwf|exact Hkeep].
Qed.

Lemma sendMessage_keeps_well_formed (recipientId message : JsString)
    (cw : ClientWorld) :
  client_well_formed cw ->
  client_well_formed (sendMessage recipientId message cw).2.
Proof using sha256_length hmac_sha256_length.
  intros H. rewrite sendMessage_eq.
  assert (client_well_formed
            (match startSession recipientId cw with
             | (Returned id, cw') => encryptAndPost id recipientId message cw'
             | (Raised e, cw') => (Raised e, cw')
             end).2) as Hstart.
  { pose proof (startSession_keeps_well_formed recipientId cw H) as H1.
    destruct (startSession recipientId cw) as [[id|e] cw1]; [|exact H1].
    apply encryptAndPost_keeps_well_formed, H1. }
  destruct (activeSessions cw !! recipientId) as [[|u rest]|];
    [exact Hstart| |exact Hstart].
  apply encryptAndPost_keeps_well_formed, H.
Qed.

Lemma decryptAndCollect_keeps_well_formed (message : Message) (cw : ClientWorld) :
  client_well_formed cw ->
  client_well_formed (decryptAndCollect message cw).2.
Proof using hmac_sha256_length.
  intros H.
  destruct (decryptMessage_keeps_sessions (message_object message) (messaging cw)
              (proj1 H)) as [Hwf Hkeep].
  unfold after in Hwf, Hkeep.
  apply (client_well_formed_step cw); [| | |exact H];
    unfold decryptAndCollect;
    destruct (decryptMessage _ _) as [[text|e] w];
    first [reflexivity|exact Hwf|exact Hkeep].
Qed.

Lemma receiveMessage_keeps_well_formed (message : Message) (cw : ClientWorld) :
  client_well_formed cw ->
  client_well_formed (receiveMessage message cw).2.
Proof using sha256_length hmac_sha256_length.
  intros H. rewrite receiveMessage_eq.
  destruct (bool_decide _); [apply decryptAndCollect_keeps_well_formed, H|].
  cbv zeta. destruct (get_user _ _) as [b|text];
    [|(apply (client_well_formed_same cw); [reflexivity|reflexivity|exact H])].
  rewrite establishSession_eq.
  destruct (rsa_sha256_verify _ _ _) as [[|]|];
    try (apply (client_well_formed_same cw); [reflexivity|reflexivity|exact H]).
  apply decryptAndCollect_keeps_well_formed.
  (apply (client_well_formed_established (sender message) cw); [reflexivity|reflexivity|exact H]).
Qed.

Lemma receiveEach_keeps_well_formed (messages : list Message) : forall cw,
  client_well_formed cw -> client_well_formed (receiveEach messages cw).2.
Proof using sha256_length hmac_sha256_length.
  induction messages as [|m rest IH]; intros cw H; [exact H|].
  destruct (receiveMessage m cw) as [[received|e] cw1] eqn:H1.
  - rewrite (receiveEach_cons _ _ _ _ _ H1).
    pose proof (IH cw1) as IH1.
    destruct (receiveEach rest cw1) as [[others|e] cw']; apply IH1;
      change cw1 with (Returned received, cw1).2; rewrite <- H1;
      apply receiveMessage_keeps_well_formed, H.
  - destruct (receiveMessage_returns m cw) as (r & cw2 & H2). congruence.
Qed.

Lemma receiveMessages_keeps_well_formed (cw : ClientWorld) :
  client_well_formed cw -> client_well_formed (receiveMessages cw).2.
Proof using sha256_length hmac_sha256_length.
  intros H. rewrite receiveMessages_eq. cbv zeta.
  destruct (get_messages _ _) as [[|m rest]|text];
    try (apply (client_well_formed_same cw); [reflexivity|reflexivity|exact H]).
  apply receiveEach_keeps_well_formed.
  (apply (client_well_formed_same cw); [reflexivity|reflexivity|exact H]).
Qed.

(** [listUsers], run. *)
Lemma listUsers_eq (cw : ClientWorld) :
  listUsers cw
  = let cw1 := sent ListUsers cw in
    match list_users (relay cw) (length (requests cw)) with
    | Rejected text =>
        (Returned [],
         wrote (LogError (lit "Failed to list users: ") (RequestFailed text)) cw1)
    | Resolved response =>
        match users_of response with
        | Some users =>
            (Returned (List.filter (is_not (this_userId cw)) users), cw1)
        | None =>
            (Returned [],
             wrote (LogError (lit "Failed to list users: ") (Thrown TypeError))
                   cw1)
        end
    end.
Proof.
  unfold listUsers, try_catch.
  unfold mbind at 1, CM_bind at 1, makeRequest at 1.
  destruct (list_users (relay cw) (length (requests cw))) as [response|text];
    [|reflexivity].
  unfold mbind at 1, CM_bind at 1, this_userId_get at 1.
  destruct (users_of response); reflexivity.
Qed.

Lemma client_call_keeps_well_formed (c : ClientCall) (cw : ClientWorld) :
  client_well_formed cw -> client_well_formed (client_call c cw).
Proof using sha256_length hmac_sha256_length.
  intros H. destruct c; unfold client_call, client_after.
  - apply startSession_keeps_well_formed, H.
  - apply sendMessage_keeps_well_formed, H.
  - apply receiveMessages_keeps_well_formed, H.
  - rewrite listUsers_eq. cbv zeta.
    destruct (list_users _ _) as [response|text];
      [destruct (users_of response)|];
      (apply (client_well_formed_same cw); [reflexivity|reflexivity|exact H]).
Qed.

Lemma client_run_keeps_well_formed (calls : list ClientCall) : forall cw,
  client_well_formed cw -> client_well_formed (client_run calls cw).
Proof using sha256_length hmac_sha256_length.
  induction calls as [|c calls IH]; intros cw H; [exact H|].
  apply IH, client_call_keeps_well_formed, H.
Qed.

Lemma new_client_well_formed (user : JsString) (answers : Relay)
    (time : nat -> Z) (e : nat -> Z) :
  client_well_formed (new_client user answers time e).
Proof.
  split; [apply fresh_sessions_well_formed|].
  intros u id H. cbn in H. rewrite lookup_empty in H. discriminate.
Qed.

(** Whatever methods a program calls on a new client, each awaited before
    the next, and whatever the relay answers, every entry of the client's
    map of active sessions holds the identifier of a session the instance
    holds; that session is with the user of the entry, its identifier
    names that user, and its encryption key has 16 bytes. *)
Theorem activeSessions_stay_consistent (user : JsString) (answers : Relay)
    (time : nat -> Z) (e : nat -> Z) (calls : list ClientCall)
    (peer id : JsString) :
  let cw := client_run calls (new_client user answers time e) in
  activeSessions cw !! peer = Some id ->
  exists s,
    session_of (messaging cw) id = Some s
    /\ recipientId s = peer
    /\ names id peer
    /\ length (encryptionKey s) = 16%nat.
Proof using sha256_length hmac_sha256_length.
  intros cw Hpeer.
  destruct (client_run_keeps_well_formed calls _
              (new_client_well_formed user answers time e)) as [Hwf Hentries].
  destruct (Hentries peer id Hpeer) as (s & Hs & Hr).
  destruct (Hwf id s Hs) as (He & _ & _ & _ & Hn).
  exists s. rewrite <- Hr. repeat split; assumption.
Qed.

(** Once a client has an active session with a user, sending to that user
    fails only at the relay.  The client is one the constructor made and
    on which only [startSession], [sendMessage], [receiveMessages] and
    [listUsers] have run since, in any number and order; the client's
    [initialize], which loads sessions from the file, is not among them.
    On such a client [sendMessage] to a user with an entry in the map of
    active sessions makes one request and returns when the relay accepts
    it, and throws the relay's error when the relay rejects it.  It never
    fails for want of a session or of a key. *)
Theorem sendMessage_fails_only_at_the_relay (user : JsString) (answers : Relay)
    (time : nat -> Z) (e : nat -> Z) (calls : list ClientCall)
    (peer message : JsString) :
  let cw := client_run calls (new_client user answers time e) in
  is_Some (activeSessions cw !! peer) ->
  exists cw',
    sendMessage peer message cw
    = (match send_message (relay cw) (length (requests cw)) with
       | Resolved _ => Returned tt
       | Rejected text => Raised (RequestFailed text)
       end, cw')
    /\ length (requests cw') = S (length (requests cw)).
Proof using sha256_length hmac_sha256_length.
  intros cw [id Hpeer].
  destruct (client_run_keeps_well_formed calls _
              (new_client_well_formed user answers time e)) as [Hwf Hentries].
  fold cw in Hwf, Hentries.
  destruct (Hentries peer id Hpeer) as (s & Hs & Hr).
  destruct (Hwf id s Hs) as (He & _ & _ & _ & h & Hh & Hid).
  assert (sendMessage peer message cw = encryptAndPost id peer message cw) as ->.
  { rewrite sendMessage_eq, Hpeer. destruct id; [|reflexivity].
    destruct h; discriminate. }
  unfold encryptAndPost. rewrite encryptMessage_eq, Hs. cbv zeta.
  cbn [set_messageCounter encryptionKey]. rewrite He. cbn [Nat.eqb negb].
  destruct (send_message (relay cw) (length (requests cw)));
    (eexists; split; [reflexivity|]);
    cbn [wrote saving sent with_messaging requests];
    rewrite length_app; cbn [length]; lia.
Qed.

(** ** Listing users *)

Lemma filter_is_not (me : JsString) (users : list JsValue) :
  ~ In (JString me) (List.filter (is_not me) users).
Proof.
  intros H. apply List.filter_In in H. destruct H as [_ H].
  cbn in H. rewrite bool_decide_eq_true_2 in H by reflexivity. discriminate.
Qed.

(** [listUsers] never throws and never names the client itself.  When the
    relay answers with an object whose [users] is an array it returns the
    elements of the array other than the client's own name, in their
    order; when the request is rejected, or the answer has no such array,
    it returns the empty array.  The client's sessions are not touched. *)
Theorem listUsers_leaves_out_the_client (cw : ClientWorld) :
  exists users cw',
    listUsers cw = (Returned users, cw')
    /\ ~ In (JString (this_userId cw)) users
    /\ messaging cw' = messaging cw
    /\ activeSessions cw' = activeSessions cw
    /\ match list_users (relay cw) (length (requests cw)) with
       | Resolved response =>
           match users_of response with
           | Some all =>
               sublist users all
               /\ forall u, In u all -> u <> JString (this_userId cw) -> In u users
           | None => users = []
           end
       | Rejected _ => users = []
       end.
Proof.
  rewrite listUsers_eq. cbv zeta.
  destruct (list_users (relay cw) (length (requests cw))) as [response|text].
  - destruct (users_of response) as [all|].
    + eexists _, _. split; [reflexivity|]. split; [apply filter_is_not|].
      split; [reflexivity|]. split; [reflexivity|]. split.
      * induction all as [|u all IH]; [constructor|].
        cbn [List.filter]. destruct (is_not _ u);
          [apply sublist_skip|apply sublist_cons]; exact IH.
      * intros u Hin Hu. apply List.filter_In. split; [exact Hin|].
        destruct u; try reflexivity. cbn.
        rewrite bool_decide_eq_false_2; [reflexivity|]. congruence.
    + eexists _, _. split; [reflexivity|]. cbn. tauto.
  - eexists _, _. split; [reflexivity|]. cbn. tauto.
Qed.


(** ** One session at a time *)

(** A call touches one session at most.  [encryptMessage],
    [decryptMessage] and [updateChainKey] leave every session but the one
    they name as it was; [establishSession] leaves every session whose
    identifier does not name its recipient as it was; no other method
    touches a session.  This holds whether the call returns or throws. *)
Theorem calls_touch_one_session (c : Call) (w : World) (id : JsString) :
  match c with
  | CallEncryptMessage id0 _ => id <> id0
  | CallUpdateChainKey id0 => id <> id0
  | CallDecryptMessage p => id <> sessionId p
  | CallEstablishSession recipient _ => ~ names id recipient
  | _ => True
  end ->
  session_of (call c w) id = session_of w id.
Proof.
  intros Hc. destruct c; unfold call, after.
  - reflexivity.
  - rewrite initialize_eq. reflexivity.
  - rewrite register_eq. repeat case_match; reflexivity.
  - rewrite sign_eq. repeat case_match; reflexivity.
  - rewrite verify_eq. repeat case_match; reflexivity.
  - rewrite establishSession_eq.
    destruct (rsa_sha256_verify _ _ _) as [[|]|]; try reflexivity.
    cbn [snd]. unfold session_of. rewrite established_session.
    apply lookup_insert_ne. intros E. apply Hc. rewrite <- E.
    apply fresh_session_id_names, next_bytes_length.
  - reflexivity.
  - reflexivity.
  - rewrite encryptMessage_eq.
    destruct (session_of w id0) as [s0|]; [|reflexivity].
    cbv zeta. destruct (negb _); unfold session_of;
      cbn [snd this sessionKeys with_sessions record draw];
      rewrite !lookup_insert_ne by congruence; reflexivity.
  - rewrite decryptMessage_eq.
    destruct (session_of w (sessionId messagePackage)) as [s0|]; [|reflexivity].
    destruct (_ <=? _); [reflexivity|].
    cbv zeta. destruct (Json.stringify _); try reflexivity.
    destruct (bool_decide _); [reflexivity|].
    destruct (negb _); [reflexivity|].
    destruct (negb _); [reflexivity|].
    destruct (aes_128_cbc_decrypt _ _ _); [|reflexivity].
    unfold session_of. cbn [snd this sessionKeys with_sessions record draw].
    rewrite !lookup_insert_ne by congruence. reflexivity.
  - rewrite calculateMAC_eq. destruct (Json.stringify _); reflexivity.
  - destruct (session_of w id0) as [s0|] eqn:H0.
    + rewrite (updateChainKey_found _ _ _ H0). cbn [snd].
      rewrite session_of_with_sessions. apply lookup_insert_ne. congruence.
    + rewrite (updateChainKey_missing _ _ H0). reflexivity.
Qed.

(** ** Bundles *)

(** [establishSession] does not ask whose bundle it is given.  It never
    reads the bundle's [userId], and any two bundles that each carry a
    signature of their own pre key under their own identity key make it do
    the same thing for a recipient: return the same identifier and store
    the same session, whoever made the bundles. *)
Theorem establishSession_accepts_any_signed_bundle (recipient : JsString)
    (b1 b2 : Bundle) (w : World) :
  rsa_sha256_verify (identityKey b1) (preKey b1) (signature b1) = Some true ->
  rsa_sha256_verify (identityKey b2) (preKey b2) (signature b2) = Some true ->
  establishSession recipient b1 w = establishSession recipient b2 w
  /\ exists id w',
       establishSession recipient b1 w = (Normal id, w')
       /\ names id recipient
       /\ session_of w' id = Some (initial_session recipient (next_bytes 32 w)).
Proof.
  intros H1 H2. rewrite !establishSession_eq, H1, H2.
  split; [reflexivity|]. eexists _, _. split; [reflexivity|].
  split; [apply fresh_session_id_names, next_bytes_length|].
  unfold session_of. rewrite established_session. apply lookup_insert_eq.
Qed.

(** ** The keys of later messages *)

Lemma ratchet_chainKey (s : Session) : chainKey (ratchet s) = next_chainKey (chainKey s).
Proof. reflexivity. Qed.

Lemma encryptMessages_app_one (id : JsString) (messages : list JsString)
    (m : JsString) (w w1 w2 : World) (ps : list MessagePackage)
    (p : MessagePackage) :
  encryptMessages id messages w = (Normal ps, w1) ->
  encryptMessage id m w1 = (Normal p, w2) ->
  encryptMessages id (messages ++ [m]) w = (Normal (ps ++ [p]), w2).
Proof.
  revert w ps. induction messages as [|m0 rest IH]; intros w ps H1 H2.
  - injection H1 as <- <-. cbn [app encryptMessages].
    unfold mbind, M_bind. rewrite H2. reflexivity.
  - cbn [app]. destruct (encryptMessage id m0 w) as [[p0|e] w0] eqn:E0.
    + rewrite (encryptMessages_cons _ _ _ _ _ _ E0) in H1.
      rewrite (encryptMessages_cons _ _ _ _ _ _ E0).
      destruct (encryptMessages id rest w0) as [[ps0|e] w0'] eqn:Hrest;
        [|discriminate].
      injection H1 as <- <-. rewrite (IH w0 ps0 Hrest H2). reflexivity.
    + cbn [encryptMessages] in H1. unfold mbind at 1, M_bind at 1 in H1.
      rewrite E0 in H1. discriminate.
Qed.

(** The keys of a session come from its first chain key and nothing else.
    After [n] successive calls of [encryptMessage] the chain key is the
    first chain key advanced [n] times, whatever the messages, the
    counters and the random bytes were; from the first call on the
    encryption key is the chain key and the MAC key is the one the
    previous chain key gives.  So the encryption key of one message gives
    the encryption keys and the MAC keys of all the messages after it. *)
Theorem later_keys_follow_from_the_chain (id : JsString)
    (messages : list JsString) (w : World) (s : Session) :
  session_of w id = Some s ->
  length (encryptionKey s) = 16%nat ->
  exists ps w' s',
    encryptMessages id messages w = (Normal ps, w')
    /\ session_of w' id = Some s'
    /\ chainKey s' = Nat.iter (length messages) next_chainKey (chainKey s)
    /\ (messages <> [] ->
        encryptionKey s' = chainKey s'
        /\ macKey s'
           = next_macKey
               (Nat.iter (length messages - 1) next_chainKey (chainKey s))).
Proof using hmac_sha256_length.
  revert w s. induction messages as [|m rest IH] using rev_ind; intros w s Hs Hlen.
  - exists [], w, s. split; [reflexivity|]. split; [exact Hs|].
    split; [reflexivity|]. congruence.
  - destruct (IH w s Hs Hlen) as (ps & w1 & s1 & Henc & Hs1 & Hchain & Hkeys).
    assert (length (encryptionKey s1) = 16%nat) as Hlen1.
    { destruct rest as [|m0 rest'].
      - injection Henc as <- <-. rewrite Hs in Hs1. injection Hs1 as <-. exact Hlen.
      - destruct Hkeys as [He _]; [discriminate|].
        rewrite He, Hchain. cbn [length]. rewrite Nat.iter_succ.
        apply slice_prefix_length. rewrite hmac_sha256_length. lia. }
    pose proof (encryptMessage_eq id m w1) as H1.
    rewrite Hs1 in H1. cbv zeta in H1.
    cbn [set_messageCounter encryptionKey] in H1. rewrite Hlen1 in H1.
    cbn [Nat.eqb negb] in H1.
    eexists _, _, _. split; [exact (encryptMessages_app_one _ _ _ _ _ _ _ _ Henc H1)|].
    split; [rewrite session_of_with_sessions; apply lookup_insert_eq|].
    rewrite length_app. cbn [length].
    replace (length rest + 1)%nat with (S (length rest)) by lia.
    rewrite Nat.iter_succ, <- Hchain.
    split; [reflexivity|]. intros _.
    split; [reflexivity|].
    replace (S (length rest) - 1)%nat with (length rest) by lia.
    rewrite <- Hchain. reflexivity.
Qed.

(** ** What the client adds to a package, at the receiver *)

(** Even a receiver that holds the sender's session cannot read what
    [sendMessage] posts.  Take a message whose package carries the tag of
    its four fields, as [encryptMessage] computes it, and to which
    [sender], [recipient] and [timestamp] were added.  A client that has
    an entry for the sender, holds the session the package names with the
    MAC key of the tag, and stands at a lower counter, gives the whole
    message to [decryptMessage], which computes the tag over all the
    fields: [receiveMessages] returns the empty array, unless HMAC-SHA256
    returns the same tag for the two texts. *)
Theorem receiveMessages_refuses_added_fields (cw : ClientWorld) (m : Message)
    (s : Session) :
  get_messages (relay cw) (length (requests cw)) = Resolved [m] ->
  is_Some (activeSessions cw !! sender m) ->
  session_of (messaging cw) (sessionId (sealed m)) = Some s ->
  messageCounter s < counter (sealed m) ->
  valid_package (sealed m) = true ->
  mac (sealed m) = expected_mac s (authenticated_prefix (sealed m) ++ lit "}") ->
  exists t',
    Json.stringify (authenticated_object (message_object m)) = Json.Text t'
    /\ Utf8.encode t' <> Utf8.encode (authenticated_prefix (sealed m) ++ lit "}")
    /\ ((exists cw', receiveMessages cw = (Returned [], cw'))
        \/ hmac_sha256 (macKey s) (Utf8.encode t')
           = hmac_sha256 (macKey s)
               (Utf8.encode (authenticated_prefix (sealed m) ++ lit "}"))).
Proof using base64_roundtrip.
  intros Hr Hknown Hs Hc Hv Hm.
  assert (exists q parts,
             Json.members_with Json.serialize (extra (message_object m))
             = Some (q :: parts)) as (q & parts & Hadded).
  { eexists _, _. reflexivity. }
  exists (authenticated_prefix (sealed m) ++ closing (q :: parts)).
  assert (Json.stringify (authenticated_object (message_object m))
          = Json.Text (authenticated_prefix (sealed m) ++ closing (q :: parts)))
    as Ht.
  { rewrite stringify_authenticated, Hadded. reflexivity. }
  split; [exact Ht|]. split.
  { rewrite !utf8_encode_app by now apply authenticated_prefix_well_formed.
    intros E. apply app_inv_head in E.
    unfold closing in E. rewrite utf8_encode_comma in E. discriminate. }
  destruct (bool_decide (mac (sealed m) <> expected_mac s
              (authenticated_prefix (sealed m) ++ closing (q :: parts))))
    eqn:Hb.
  - left. rewrite receiveMessages_eq, Hr. cbv zeta.
    assert (exists cw1,
               receiveMessage m (sent (GetMessages (this_userId cw)) cw)
               = (Returned None, cw1)) as [cw1 H1].
    { rewrite receiveMessage_eq.
      change (activeSessions (sent (GetMessages (this_userId cw)) cw))
        with (activeSessions cw).
      rewrite bool_decide_eq_true_2 by exact Hknown.
      unfold decryptAndCollect. rewrite decryptMessage_eq.
      change (messaging (sent (GetMessages (this_userId cw)) cw))
        with (messaging cw).
      change (sessionId (message_object m)) with (sessionId (sealed m)).
      rewrite Hs.
      change (counter (message_object m)) with (counter (sealed m)).
      destruct (Z.leb_spec (counter (sealed m)) (messageCounter s)); [lia|].
      cbv zeta. rewrite Ht.
      change (mac (message_object m)) with (mac (sealed m)). rewrite Hb.
      eexists. reflexivity. }
    rewrite (receiveEach_cons _ _ _ _ _ H1). eexists. reflexivity.
  - right. apply bool_decide_eq_false in Hb.
    apply base64_encode_inj.
    change (expected_mac s (authenticated_prefix (sealed m) ++ closing (q :: parts))
            = expected_mac s (authenticated_prefix (sealed m) ++ lit "}")).
    rewrite <- Hm.
    destruct (decide (mac (sealed m)
                      = expected_mac s (authenticated_prefix (sealed m)
                                        ++ closing (q :: parts))))
      as [E|E]; [now rewrite <- E|].
    now destruct Hb.
Qed.


(** ** First contact *)

(** [sendMessage] to a user without an entry in the map of active
    sessions asks the relay for the user's bundle first.  When the relay
    rejects that request or the bundle's signature does not verify, the
    method throws that the user was not found: nothing is posted and the
    sessions are as they were.  Otherwise it stores a new session,
    enters it in the map, and posts the first package of that session,
    with counter 1, as its second request; whether it then returns or
    throws is the relay's answer to that request. *)
Theorem sendMessage_starts_a_session_first (recipientId message : JsString)
    (cw : ClientWorld) :
  activeSessions cw !! recipientId = None ->
  let n := length (requests cw) in
  let valid :=
    match get_user (relay cw) n with
    | Resolved b =>
        bool_decide (rsa_sha256_verify (identityKey b) (preKey b) (signature b)
                     = Some true)
    | Rejected _ => false
    end in
  exists cw',
    if valid then
      exists p id,
        sendMessage recipientId message cw
        = (match send_message (relay cw) (S n) with
           | Resolved _ => Returned tt
           | Rejected text => Raised (RequestFailed text)
           end, cw')
        /\ requests cw'
           = requests cw
             ++ [GetUser recipientId;
                 SendMessage {| sealed := p; sender := this_userId cw;
                                recipient := recipientId;
                                timestamp := clock cw (S n) |}]
        /\ sessionId p = id
        /\ counter p = 1
        /\ names id recipientId
        /\ activeSessions cw' = <[recipientId := id]> (activeSessions cw)
    else
      sendMessage recipientId message cw = (Raised (UserNotFound recipientId), cw')
      /\ requests cw' = requests cw ++ [GetUser recipientId]
      /\ this (messaging cw') = this (messaging cw)
      /\ activeSessions cw' = activeSessions cw
      /\ saved cw' = saved cw.
Proof using sha256_length.
  intros Ha. cbv zeta. rewrite sendMessage_eq, Ha, startSession_eq. cbv zeta.
  destruct (get_user (relay cw) (length (requests cw))) as [b|text];
    [|eexists; repeat split].
  rewrite establishSession_eq.
  destruct (rsa_sha256_verify _ _ _) as [[|]|] eqn:Hv;
    [|eexists; rewrite bool_decide_eq_false_2 by congruence; repeat split..].
  rewrite bool_decide_eq_true_2 by reflexivity.
  unfold encryptAndPost. rewrite encryptMessage_eq.
  cbn [wrote saving with_activeSession with_messaging sent messaging relay
       requests this_userId clock].
  unfold session_of. rewrite established_session, lookup_insert_eq.
  cbv zeta. cbn [set_messageCounter encryptionKey].
  destruct (initial_session_key_lengths recipientId
              (next_bytes 32 (messaging cw))) as (He & _ & _ & Hc).
  rewrite He. cbn [Nat.eqb negb].
  rewrite length_app. cbn [length].
  replace (length (requests cw) + 1)%nat with (S (length (requests cw))) by lia.
  destruct (send_message (relay cw) (S (length (requests cw))));
    (eexists; eexists _, _; split; [reflexivity|];
     split; [cbn [wrote saving sent requests with_messaging with_activeSession];
             rewrite <- app_assoc; reflexivity|];
     split; [reflexivity|];
     split; [cbn [sealed_package counter set_messageCounter messageCounter];
             rewrite Hc; reflexivity|];
     split; [apply fresh_session_id_names, next_bytes_length|reflexivity]).
Qed.

(** A message from a stranger opens a session.  When the relay hands over
    a message whose sender has no entry in the map of active sessions and
    knows a bundle with a valid signature for that name, [receiveMessages]
    stores a new session for the name, enters it in the map and writes the
    file, before it tries to read the message and whether or not it can:
    the name in [sender] is all it takes. *)
Theorem receiveMessages_opens_sessions_for_strangers (cw : ClientWorld)
    (m : Message) (b : Bundle) :
  let n := length (requests cw) in
  get_messages (relay cw) n = Resolved [m] ->
  activeSessions cw !! sender m = None ->
  get_user (relay cw) (S n) = Resolved b ->
  rsa_sha256_verify (identityKey b) (preKey b) (signature b) = Some true ->
  exists decrypted cw' id,
    receiveMessages cw = (Returned decrypted, cw')
    /\ names id (sender m)
    /\ activeSessions cw' = <[sender m := id]> (activeSessions cw)
    /\ requests cw'
       = requests cw ++ [GetMessages (this_userId cw); GetUser (sender m)]
    /\ exists stored more,
         saved cw'
         = saved cw ++ (<[sender m := id]> (activeSessions cw), stored) :: more
         /\ stored !! id
            = Some (initial_session (sender m) (next_bytes 32 (messaging cw))).
Proof.
  intros n Hr Ha Hb Hv. unfold n in *.
  rewrite receiveMessages_eq, Hr. cbv zeta.
  set (cw1 := sent (GetMessages (this_userId cw)) cw).
  assert (exists received cw' id,
             receiveMessage m cw1 = (Returned received, cw')
             /\ names id (sender m)
             /\ activeSessions cw' = <[sender m := id]> (activeSessions cw)
             /\ requests cw'
                = requests cw ++ [GetMessages (this_userId cw); GetUser (sender m)]
             /\ exists stored more,
                  saved cw'
                  = saved cw
                    ++ (<[sender m := id]> (activeSessions cw), stored) :: more
                  /\ stored !! id
                     = Some (initial_session (sender m)
                               (next_bytes 32 (messaging cw))))
    as (received & cw' & id & H1 & Hrest).
  { rewrite receiveMessage_eq.
    change (activeSessions cw1) with (activeSessions cw).
    rewrite bool_decide_eq_false_2 by (rewrite Ha; intros [x Hx]; discriminate).
    cbv zeta.
    change (relay cw1) with (relay cw).
    assert (length (requests cw1) = S (length (requests cw))) as ->.
    { unfold cw1. cbn [sent requests]. rewrite length_app. cbn [length]. lia. }
    rewrite Hb. change (messaging cw1) with (messaging cw).
    rewrite establishSession_eq, Hv.
    unfold decryptAndCollect.
    match goal with
    | |- context [decryptMessage ?p ?x] =>
        destruct (decryptMessage p x) as [[text|e] w']
    end;
      (eexists _, _, _; split; [reflexivity|];
       split; [apply fresh_session_id_names, next_bytes_length|];
       split; [reflexivity|];
       split; [unfold cw1; cbn [wrote saving with_activeSession with_messaging
                                 sent requests];
               rewrite <- app_assoc; reflexivity|]).
    - unfold cw1.
      cbn [wrote saving with_activeSession with_messaging sent saved messaging
           activeSessions].
      rewrite <- app_assoc. eexists _, [_]. split; [reflexivity|].
      rewrite established_session. apply lookup_insert_eq.
    - unfold cw1.
      cbn [wrote saving with_activeSession with_messaging sent saved messaging
           activeSessions].
      eexists _, []. split; [reflexivity|].
      rewrite established_session. apply lookup_insert_eq. }
  rewrite (receiveEach_cons _ _ _ _ _ H1).
  eexists _, cw', id. split; [reflexivity|]. exact Hrest.
Qed.

(** ** What the receiver would read *)

(** [receiveMessages] reads a message when its tag covers all that the
    message carries.  When the client has an entry for the sender and
    holds the session the package names, at a lower counter, and the
    package carries the tag, under the session's MAC key, of the text of
    the whole message with [sender], [recipient] and [timestamp], and
    deciphers under the session's encryption key, [receiveMessages]
    returns one entry with the sender, the plaintext and the timestamp,
    advances the session and writes the file once. *)
Theorem receiveMessages_reads_fully_tagged_messages (cw : ClientWorld)
    (m : Message) (s : Session) (t : JsString) (plain : Buffer) :
  get_messages (relay cw) (length (requests cw)) = Resolved [m] ->
  is_Some (activeSessions cw !! sender m) ->
  session_of (messaging cw) (sessionId (sealed m)) = Some s ->
  messageCounter s < counter (sealed m) ->
  Json.stringify (authenticated_object (message_object m)) = Json.Text t ->
  mac (sealed m) = expected_mac s t ->
  length (encryptionKey s) = 16%nat ->
  length (base64_decode (iv (sealed m))) = 16%nat ->
  aes_128_cbc_decrypt (encryptionKey s) (base64_decode (iv (sealed m)))
    (base64_decode (ciphertext (sealed m))) = Some plain ->
  exists cw',
    receiveMessages cw
    = (Returned [{| from := sender m; content := Utf8.decode plain;
                    decryptedTimestamp := timestamp m |}], cw')
    /\ session_of (messaging cw') (sessionId (sealed m))
       = Some (ratchet (set_messageCounter (counter (sealed m)) s))
    /\ saved cw' = saved cw ++ [(activeSessions cw, sessionKeys (this (messaging cw')))]
    /\ requests cw' = requests cw ++ [GetMessages (this_userId cw)].
Proof.
  intros Hr Hknown Hs Hc Ht Hm Hk Hiv Hplain.
  rewrite receiveMessages_eq, Hr. cbv zeta.
  set (cw1 := sent (GetMessages (this_userId cw)) cw).
  assert (exists cw',
             receiveMessage m cw1
             = (Returned (Some {| from := sender m; content := Utf8.decode plain;
                                  decryptedTimestamp := timestamp m |}), cw')
             /\ session_of (messaging cw') (sessionId (sealed m))
                = Some (ratchet (set_messageCounter (counter (sealed m)) s))
             /\ saved cw'
                = saved cw ++ [(activeSessions cw, sessionKeys (this (messaging cw')))]
             /\ requests cw' = requests cw ++ [GetMessages (this_userId cw)])
    as (cw' & H1 & Hrest).
  { rewrite receiveMessage_eq.
    change (activeSessions cw1) with (activeSessions cw).
    rewrite bool_decide_eq_true_2 by exact Hknown.
    unfold decryptAndCollect. change (messaging cw1) with (messaging cw).
    rewrite (decryptMessage_accepted (message_object m) (messaging cw) s t plain
               Hs Hc Ht Hm Hk Hiv Hplain).
    eexists. split; [reflexivity|].
    split; [|split; reflexivity].
    cbn [saving with_messaging messaging].
    rewrite session_of_with_sessions. apply lookup_insert_eq. }
  rewrite (receiveEach_cons _ _ _ _ _ H1). eexists. split; [reflexivity|].
  exact Hrest.
Qed.

End SecureMessaging.

(** ** The stand-ins satisfy the laws assumed of the primitives *)

Lemma stub_digest_length (data : Buffer) : length (Stub.digest data) = 32%nat.
Proof. unfold Stub.digest. now rewrite length_map, length_seq. Qed.

Lemma stub_sha256_length (data : Buffer) : length (Stub.sha256 data) = 32%nat.
Proof. apply stub_digest_length. Qed.

Lemma stub_hmac_sha256_length (key data : Buffer) :
  length (Stub.hmac_sha256 key data) = 32%nat.
Proof. apply stub_digest_length. Qed.

Lemma stub_aes_128_cbc_roundtrip (key iv0 data : Buffer) :
  length key = 16%nat -> length iv0 = 16%nat ->
  Stub.aes_128_cbc_decrypt key iv0 (Stub.aes_128_cbc_encrypt key iv0 data)
  = Some data.
Proof. reflexivity. Qed.

Lemma stub_base64_roundtrip (buf : Buffer) :
  Stub.base64_decode (Stub.base64_encode buf) = buf.
Proof. reflexivity. Qed.

Lemma scenario_alice_session :
  session_of Scenario.alice_world Scenario.id = Some (Scenario.session_at Scenario.bob 0).
Proof. apply lookup_singleton_eq. Qed.

Lemma scenario_bob_session :
  session_of Scenario.bob_world Scenario.id
  = Some (Scenario.session_at Scenario.alice 0).
Proof. apply lookup_singleton_eq. Qed.


(** ** The class on the stand-ins *)

Abbreviation stub_establishSession :=
  (establishSession Stub.sha256 Stub.rsa_sha256_verify).
Abbreviation stub_encryptMessage :=
  (encryptMessage Stub.hmac_sha256 Stub.aes_128_cbc_encrypt Stub.base64_encode).
Abbreviation stub_encryptMessages :=
  (encryptMessages Stub.hmac_sha256 Stub.aes_128_cbc_encrypt Stub.base64_encode).
Abbreviation stub_decryptMessage :=
  (decryptMessage Stub.hmac_sha256 Stub.aes_128_cbc_decrypt Stub.base64_encode
     Stub.base64_decode).
Abbreviation stub_updateChainKey := (updateChainKey Stub.hmac_sha256).
Abbreviation stub_verify := (verify Stub.rsa_sha256_verify).

(** ** C2: the ratchet on the scenario *)

Lemma updateChainKey_splits_output_witness :
  exists w' s',
    stub_updateChainKey Scenario.id Scenario.alice_world = (Normal tt, w')
    /\ session_of w' Scenario.id = Some s'
    /\ encryptionKey s' ++ macKey s'
       = ratchet_output Stub.hmac_sha256 (Scenario.session_at Scenario.bob 0)
    /\ length (encryptionKey s') = 16%nat
    /\ length (macKey s') = 16%nat
    /\ chainKey s' = encryptionKey s'
    /\ recipientId s' = Scenario.bob
    /\ messageCounter s' = 0.
Proof.
  apply (updateChainKey_splits_output Stub.hmac_sha256 stub_hmac_sha256_length
           Scenario.id (Scenario.session_at Scenario.bob 0) Scenario.alice_world).
  apply lookup_singleton_eq.
Defined.

(** C2 does not hold as stated: after a ratchet advance on the scenario's
    session the chain key is the encryption key, byte for byte. *)
Lemma updateChainKey_aliases_chain_key :
  exists w' s',
    stub_updateChainKey Scenario.id Scenario.alice_world = (Normal tt, w')
    /\ session_of w' Scenario.id = Some s'
    /\ chainKey s' = encryptionKey s'.
Proof.
  eexists _, _. split.
  { apply (updateChainKey_found Stub.hmac_sha256 Scenario.id
             (Scenario.session_at Scenario.bob 0)).
    apply lookup_singleton_eq. }
  split; [apply lookup_insert_eq | reflexivity].
Qed.

(** ** C4, C6 and C9: decryption on the scenario *)

Lemma scenario_package_text (c : Z) (text : JsString) :
  Json.stringify (authenticated_object (Scenario.package c text))
  = Json.Text (authenticated_prefix (Scenario.package c text) ++ lit "}").
Proof. now rewrite stringify_authenticated. Qed.

(** Alice's seventh package reaches Bob first and is accepted. *)
Lemma decryptMessage_accepts_gaps_witness :
  exists w' s',
    stub_decryptMessage (Scenario.package 7 (lit "hello")) Scenario.bob_world
    = (Normal (lit "hello"), w')
    /\ session_of w' Scenario.id = Some s'
    /\ messageCounter s' = 7
    /\ encryptionKey s'
       = slice 0 16 (ratchet_output Stub.hmac_sha256
                       (Scenario.session_at Scenario.alice 0))
    /\ macKey s'
       = slice 16 32 (ratchet_output Stub.hmac_sha256
                        (Scenario.session_at Scenario.alice 0))
    /\ chainKey s'
       = slice 0 16 (ratchet_output Stub.hmac_sha256
                       (Scenario.session_at Scenario.alice 0))
    /\ trace w' = [CreateHmac; CreateDecipheriv; CreateHmac].
Proof.
  apply (decryptMessage_accepts_gaps Stub.hmac_sha256 Stub.aes_128_cbc_decrypt
           Stub.base64_encode Stub.base64_decode
           (Scenario.package 7 (lit "hello")) Scenario.bob_world
           (Scenario.session_at Scenario.alice 0)
           (authenticated_prefix (Scenario.package 7 (lit "hello")) ++ lit "}")
           (Utf8.encode (lit "hello"))).
  - apply lookup_singleton_eq.
  - reflexivity.
  - apply scenario_package_text.
  - reflexivity.
  - reflexivity.
  - reflexivity.
  - reflexivity.
Defined.

(** Bob accepts Alice's first package once, and refuses it the second
    time. *)
Lemma decryptMessage_rejects_replay_witness :
  exists w',
    stub_decryptMessage (Scenario.package 1 (lit "hello")) Scenario.bob_world
    = (Normal (lit "hello"), w')
    /\ stub_decryptMessage (Scenario.package 1 (lit "hello")) w'
       = (Throw ReplayDetected, w').
Proof.
  eexists. split.
  - apply (decryptMessage_accepted Stub.hmac_sha256 Stub.aes_128_cbc_decrypt
             Stub.base64_encode Stub.base64_decode
             (Scenario.package 1 (lit "hello")) Scenario.bob_world
             (Scenario.session_at Scenario.alice 0)
             (authenticated_prefix (Scenario.package 1 (lit "hello")) ++ lit "}")
             (Utf8.encode (lit "hello")));
      first [ apply lookup_singleton_eq | apply scenario_package_text
            | reflexivity ].
  - eapply (proj2 (decryptMessage_rejects_replay Stub.hmac_sha256
                     Stub.aes_128_cbc_decrypt Stub.base64_encode
                     Stub.base64_decode
                     (Scenario.package 1 (lit "hello")) Scenario.bob_world)).
    apply (decryptMessage_accepted Stub.hmac_sha256 Stub.aes_128_cbc_decrypt
             Stub.base64_encode Stub.base64_decode
             (Scenario.package 1 (lit "hello")) Scenario.bob_world
             (Scenario.session_at Scenario.alice 0)
             (authenticated_prefix (Scenario.package 1 (lit "hello")) ++ lit "}")
             (Utf8.encode (lit "hello")));
      first [ apply lookup_singleton_eq | apply scenario_package_text
            | reflexivity ].
Defined.

Lemma scenario_bob_other (other : JsString) :
  other <> Scenario.id -> session_of Scenario.bob_world other = None.
Proof. intros H. apply lookup_singleton_ne. congruence. Qed.



Lemma tampered_ciphertext_refused :
  stub_decryptMessage
    (Scenario.with_ciphertext (lit "AAAA") (Scenario.package 1 (lit "hello")))
    Scenario.bob_world
  = (Throw MacMismatch, record CreateHmac Scenario.bob_world).
Proof.
  rewrite decryptMessage_eq.
  change (session_of Scenario.bob_world
            (sessionId (Scenario.with_ciphertext (lit "AAAA")
                          (Scenario.package 1 (lit "hello")))))
    with (session_of Scenario.bob_world Scenario.id).
  rewrite scenario_bob_session. vm_compute. reflexivity.
Qed.

(** ** C5: tampering on the scenario *)

Lemma scenario_valid_package (c : Z) (text : JsString) :
  Json.valid_string (Utf8.encode text) = true ->
  valid_package (Scenario.package c text) = true.
Proof.
  intros H. unfold valid_package.
  change (sessionId (Scenario.package c text)) with Scenario.id.
  change (iv (Scenario.package c text)) with (Scenario.key 9).
  change (ciphertext (Scenario.package c text)) with (1 :: Utf8.encode text).
  cbn [Json.valid_string forallb]. change (Json.valid_string (Utf8.encode text))
    with (forallb is_code_unit (Utf8.encode text)) in H.
  rewrite H. reflexivity.
Qed.

(** The lowest bit of the first character of the ciphertext of Alice's
    package is flipped on the way to Bob. *)
Lemma decryptMessage_detects_tampering_witness :
  let p := Scenario.package 1 (lit "hello") in
  let p' := Scenario.with_ciphertext (Scenario.flip_bit 0 (ciphertext p)) p in
  exists t',
    Json.stringify (authenticated_object p') = Json.Text t'
    /\ Utf8.encode t'
       <> Utf8.encode (authenticated_prefix p ++ lit "}")
    /\ match session_of Scenario.bob_world (sessionId p') with
       | None => stub_decryptMessage p' Scenario.bob_world
                 = (Throw SessionNotFound, Scenario.bob_world)
       | Some s' =>
           if counter p' <=? messageCounter s'
           then stub_decryptMessage p' Scenario.bob_world
                = (Throw ReplayDetected, Scenario.bob_world)
           else
             stub_decryptMessage p' Scenario.bob_world
             = (Throw MacMismatch, record CreateHmac Scenario.bob_world)
             \/ Stub.hmac_sha256 (macKey s') (Utf8.encode t')
                = Stub.hmac_sha256
                    (macKey (Scenario.session_at Scenario.alice 0))
                    (Utf8.encode (authenticated_prefix p ++ lit "}"))
       end.
Proof.
  cbv zeta.
  apply (decryptMessage_detects_tampering Stub.hmac_sha256
           Stub.aes_128_cbc_decrypt Stub.base64_encode Stub.base64_decode
           stub_base64_roundtrip
           (Scenario.package 1 (lit "hello"))
           (Scenario.with_ciphertext
              (Scenario.flip_bit 0 (ciphertext (Scenario.package 1 (lit "hello"))))
              (Scenario.package 1 (lit "hello")))
           Scenario.bob_world (Scenario.session_at Scenario.alice 0)
           (authenticated_prefix (Scenario.package 1 (lit "hello")) ++ lit "}")).
  - apply lookup_singleton_eq.
  - reflexivity.
  - apply scenario_package_text.
  - reflexivity.
  - reflexivity.
  - reflexivity.
  - reflexivity.
  - reflexivity.
  - left. vm_compute. discriminate.
Defined.

(** C5 does not hold as stated: Bob accepts Alice's first package; with
    the lowest bit of its counter flipped (1 becomes 0) it is refused as a
    replay, and with the lowest bit of the first character of its sessionId
    flipped it is refused because no such session exists.  Neither error is
    the MAC mismatch. *)
Lemma tampering_not_always_mac_mismatch :
  let p := Scenario.package 1 (lit "hello") in
  (exists w', stub_decryptMessage p Scenario.bob_world = (Normal (lit "hello"), w'))
  /\ stub_decryptMessage (Scenario.with_counter (Z.lxor (counter p) (2 ^ 0)) p)
       Scenario.bob_world
     = (Throw ReplayDetected, Scenario.bob_world)
  /\ stub_decryptMessage
       (Scenario.with_sessionId (Scenario.flip_bit 0 (sessionId p)) p)
       Scenario.bob_world
     = (Throw SessionNotFound, Scenario.bob_world)
  /\ ReplayDetected <> MacMismatch
  /\ SessionNotFound <> MacMismatch.
Proof.
  cbv zeta. split; [|split; [|split; [|split; discriminate]]].
  - eexists.
    apply (decryptMessage_accepted Stub.hmac_sha256 Stub.aes_128_cbc_decrypt
             Stub.base64_encode Stub.base64_decode
             (Scenario.package 1 (lit "hello")) Scenario.bob_world
             (Scenario.session_at Scenario.alice 0)
             (authenticated_prefix (Scenario.package 1 (lit "hello")) ++ lit "}")
             (Utf8.encode (lit "hello")));
      first [ apply lookup_singleton_eq | apply scenario_package_text
            | reflexivity ].
  - rewrite decryptMessage_eq.
    change (session_of Scenario.bob_world _)
      with (session_of Scenario.bob_world Scenario.id).
    rewrite scenario_bob_session. reflexivity.
  - rewrite decryptMessage_eq.
    rewrite scenario_bob_other by (vm_compute; discriminate).
    reflexivity.
Qed.

(** The exception for equal tags cannot be dropped on what is assumed of
    HMAC-SHA256 here, its length: with a function that returns one tag for
    every text, a package whose ciphertext was replaced keeps its tag and is
    accepted. *)
Lemma equal_tags_pass_the_mac_check :
  exists w',
    decryptMessage Stub.constant_hmac Stub.aes_128_cbc_decrypt
      Stub.base64_encode Stub.base64_decode
      (Scenario.with_ciphertext
         (ciphertext (Scenario.constant_tag_package (lit "jello")))
         (Scenario.constant_tag_package (lit "hello")))
      Scenario.bob_world
    = (Normal (lit "jello"), w').
Proof.
  eexists.
  apply (decryptMessage_accepted Stub.constant_hmac Stub.aes_128_cbc_decrypt
           Stub.base64_encode Stub.base64_decode
           (Scenario.with_ciphertext
              (ciphertext (Scenario.constant_tag_package (lit "jello")))
              (Scenario.constant_tag_package (lit "hello")))
           Scenario.bob_world (Scenario.session_at Scenario.alice 0)
           (authenticated_prefix
              (Scenario.constant_tag_package (lit "jello")) ++ lit "}")
           (Utf8.encode (lit "jello")));
    first [ apply lookup_singleton_eq | reflexivity ].
Qed.

(** ** C3: the round trip on the scenario *)

(** Alice sends a greeting that ends in U+1F600, a surrogate pair. *)
Lemma decrypt_encrypt_roundtrip_witness :
  let message := lit "hello " ++ [0xD83D; 0xDE00] in
  exists p wA' wB' sA' sB',
    stub_encryptMessage Scenario.id message Scenario.alice_world = (Normal p, wA')
    /\ stub_decryptMessage p Scenario.bob_world = (Normal message, wB')
    /\ session_of wA' Scenario.id = Some sA'
    /\ session_of wB' Scenario.id = Some sB'
    /\ encryptionKey sA' = encryptionKey sB'
    /\ macKey sA' = macKey sB'
    /\ chainKey sA' = chainKey sB'
    /\ messageCounter sA' = messageCounter sB'.
Proof.
  cbv zeta.
  apply (decrypt_encrypt_roundtrip Stub.hmac_sha256 Stub.aes_128_cbc_encrypt
           Stub.aes_128_cbc_decrypt Stub.base64_encode Stub.base64_decode
           stub_aes_128_cbc_roundtrip stub_base64_roundtrip
           Scenario.id (lit "hello " ++ [0xD83D; 0xDE00])
           Scenario.alice_world Scenario.bob_world
           (Scenario.session_at Scenario.bob 0)
           (Scenario.session_at Scenario.alice 0)).
  - apply lookup_singleton_eq.
  - apply lookup_singleton_eq.
  - reflexivity.
  - reflexivity.
  - reflexivity.
  - reflexivity.
  - reflexivity.
  - cbn [messageCounter Scenario.session_at]. lia.
  - reflexivity.
Defined.

(** C3 does not hold as stated.  A message that is one unpaired surrogate
    comes back as U+FFFD; and when both sessions stand at counter 2^53 the
    package carries that same counter and the receiver refuses it as a
    replay. *)
Lemma roundtrip_loses_lone_surrogate :
  (exists p wA' wB',
      stub_encryptMessage Scenario.id [0xD800] Scenario.alice_world = (Normal p, wA')
      /\ stub_decryptMessage p Scenario.bob_world = (Normal [0xFFFD], wB'))
  /\ (exists p wA',
        stub_encryptMessage Scenario.id (lit "hello") Scenario.alice_world_at_limit
        = (Normal p, wA')
        /\ stub_decryptMessage p Scenario.bob_world_at_limit
           = (Throw ReplayDetected, Scenario.bob_world_at_limit)).
Proof.
  split.
  - assert (- 2 ^ 53 <= 0 < 2 ^ 53) as Hsafe by lia.
    destruct (decrypt_after_encrypt Stub.hmac_sha256 Stub.aes_128_cbc_encrypt
                Stub.aes_128_cbc_decrypt Stub.base64_encode Stub.base64_decode
                stub_aes_128_cbc_roundtrip stub_base64_roundtrip
                Scenario.id [0xD800] Scenario.alice_world Scenario.bob_world
                (Scenario.session_at Scenario.bob 0)
                (Scenario.session_at Scenario.alice 0)
                scenario_alice_session scenario_bob_session
                eq_refl eq_refl eq_refl eq_refl eq_refl Hsafe)
      as (p & wA' & wB' & _ & _ & He & Hd & _).
    rewrite utf8_lone_surrogate_lost in Hd. now exists p, wA', wB'.
  - eexists _, _. split.
    + rewrite encryptMessage_eq.
      change (session_of Scenario.alice_world_at_limit Scenario.id)
        with (({[ Scenario.id := Scenario.session_at Scenario.bob (2 ^ 53) ]}
                 : gmap JsString Session) !! Scenario.id).
      rewrite lookup_singleton_eq. reflexivity.
    + rewrite decryptMessage_eq.
      change (session_of Scenario.bob_world_at_limit _)
        with (({[ Scenario.id := Scenario.session_at Scenario.alice (2 ^ 53) ]}
                 : gmap JsString Session) !! Scenario.id).
      rewrite lookup_singleton_eq. reflexivity.
Qed.

(** ** C7: counters on the scenario *)




(** ** C8: verification on the scenario *)

(** An empty signature makes the stand-in primitive throw: [verify]
    answers [false]. *)
Lemma verify_fails_closed_witness :
  exists b w',
    stub_verify (JString (lit "PK-bob")) [] (lit "IK-bob") Scenario.alice_world
    = (Normal b, w')
    /\ this w' = this Scenario.alice_world
    /\ (Stub.rsa_sha256_verify (lit "IK-bob") (lit "PK-bob") [] = None ->
        b = false)
    /\ (forall b',
          Stub.rsa_sha256_verify (lit "IK-bob") (lit "PK-bob") [] = Some b' ->
          b = b').
Proof.
  apply (verify_fails_closed Stub.rsa_sha256_verify (JString (lit "PK-bob"))
           [] (lit "IK-bob") (lit "PK-bob") Scenario.alice_world).
  reflexivity.
Defined.

(** C8 does not hold as stated: with [undefined] as data, [verify] throws
    a TypeError: [JSON.stringify(undefined)] is [undefined], which
    [verify.update] refuses outside the [try] block. *)
Lemma verify_throws_on_undefined :
  stub_verify JUndefined (lit "c2ln") (lit "IK-bob") Scenario.alice_world
  = (Throw TypeError, record CreateVerify Scenario.alice_world).
Proof. reflexivity. Qed.

(** ** C1 and C10: establishment on the scenario *)

Lemma scenario_bundle_valid (user : JsString) (oneTime : list JsString) :
  Stub.rsa_sha256_verify (identityKey (Scenario.bundle_of user oneTime))
    (preKey (Scenario.bundle_of user oneTime))
    (signature (Scenario.bundle_of user oneTime)) = Some true.
Proof.
  unfold Scenario.bundle_of, Stub.rsa_sha256_verify.
  cbn [identityKey preKey signature].
  change ((lit "IK-" ++ user) ++ lit "PK-" ++ user)
    with (73 :: (lit "K-" ++ user) ++ lit "PK-" ++ user).
  now rewrite bool_decide_eq_true_2.
Qed.

Lemma establishSession_secret_is_local_witness :
  exists idA idB wA' wB' sA sB,
    stub_establishSession Scenario.bob
      (Scenario.bundle_of Scenario.bob [lit "OT1"]) Scenario.alice_world
    = (Normal idA, wA')
    /\ stub_establishSession Scenario.alice
         (Scenario.bundle_of Scenario.alice [lit "OT2"]) Scenario.bob_world
       = (Normal idB, wB')
    /\ session_of wA' idA = Some sA
    /\ session_of wB' idB = Some sB
    /\ sA = initial_session Stub.sha256 Scenario.bob
              (next_bytes 32 Scenario.alice_world)
    /\ sB = initial_session Stub.sha256 Scenario.alice
              (next_bytes 32 Scenario.bob_world)
    /\ (next_bytes 32 Scenario.alice_world = next_bytes 32 Scenario.bob_world ->
        encryptionKey sA = encryptionKey sB
        /\ macKey sA = macKey sB
        /\ chainKey sA = chainKey sB).
Proof.
  apply (establishSession_secret_is_local Stub.sha256 Stub.rsa_sha256_verify
           Scenario.alice Scenario.bob
           (Scenario.bundle_of Scenario.alice [lit "OT2"])
           (Scenario.bundle_of Scenario.bob [lit "OT1"])
           Scenario.alice_world Scenario.bob_world).
  - reflexivity.
  - reflexivity.
Defined.

(** C1 does not hold as stated: Alice and Bob each establish a session
    from the other's valid bundle; their processes draw different random
    bytes, and the two sessions hold different keys under different
    identifiers. *)
Lemma establishSession_peers_disagree :
  exists idA idB wA' wB' sA sB,
    stub_establishSession Scenario.bob
      (Scenario.bundle_of Scenario.bob [lit "OT1"]) Scenario.alice_world
    = (Normal idA, wA')
    /\ stub_establishSession Scenario.alice
         (Scenario.bundle_of Scenario.alice [lit "OT2"]) Scenario.bob_world
       = (Normal idB, wB')
    /\ session_of wA' idA = Some sA
    /\ session_of wB' idB = Some sB
    /\ encryptionKey sA <> encryptionKey sB
    /\ macKey sA <> macKey sB
    /\ chainKey sA <> chainKey sB
    /\ idA <> idB.
Proof.
  eexists _, _, _, _, _, _.
  split. { rewrite establishSession_eq, scenario_bundle_valid. reflexivity. }
  split. { rewrite establishSession_eq, scenario_bundle_valid. reflexivity. }
  split. { unfold session_of. rewrite established_session. apply lookup_insert_eq. }
  split. { unfold session_of. rewrite established_session. apply lookup_insert_eq. }
  repeat split; vm_compute; discriminate.
Qed.

Lemma establishSession_ignores_oneTimePreKeys_witness :
  let b1 := Scenario.bundle_of Scenario.bob [lit "OT1"; lit "OT2"] in
  let b2 := Scenario.bundle_of Scenario.bob [] in
  stub_establishSession Scenario.bob b1 Scenario.alice_world
  = stub_establishSession Scenario.bob b2 Scenario.alice_world
  /\ (Stub.rsa_sha256_verify (identityKey b1) (preKey b1) (signature b1)
      = Some true ->
      exists id w',
        stub_establishSession Scenario.bob b1 Scenario.alice_world = (Normal id, w')
        /\ stub_establishSession Scenario.bob b2 Scenario.alice_world = (Normal id, w')
        /\ sessionKeys (this w')
           = <[id := initial_session Stub.sha256 Scenario.bob
                       (next_bytes 32 Scenario.alice_world)]>
               (sessionKeys (this Scenario.alice_world))
        /\ identityKeyPair (this w') = identityKeyPair (this Scenario.alice_world)
        /\ preKeyPair (this w') = preKeyPair (this Scenario.alice_world)
        /\ oneTimePreKeys (this w') = oneTimePreKeys (this Scenario.alice_world)
        /\ instanceCounter (this w') = instanceCounter (this Scenario.alice_world)).
Proof.
  cbv zeta.
  apply (establishSession_ignores_oneTimePreKeys Stub.sha256
           Stub.rsa_sha256_verify Scenario.bob
           (Scenario.bundle_of Scenario.bob [lit "OT1"; lit "OT2"])
           (Scenario.bundle_of Scenario.bob []) Scenario.alice_world);
    reflexivity.
Defined.

(** ** The client's added properties, on the scenario *)

Lemma encryptMessage_seals_then_ratchets_witness :
  exists p w',
    stub_encryptMessage Scenario.id (lit "hello") Scenario.alice_world
    = (Normal p, w')
    /\ sessionId p = Scenario.id
    /\ counter p = 1
    /\ extra p = []
    /\ Json.stringify (authenticated_object p)
       = Json.Text (authenticated_prefix p ++ lit "}")
    /\ mac p
       = expected_mac Stub.hmac_sha256 Stub.base64_encode
           (Scenario.session_at Scenario.bob 0)
           (authenticated_prefix p ++ lit "}")
    /\ session_of w' Scenario.id
       = Some (ratchet Stub.hmac_sha256 (Scenario.session_at Scenario.bob 1))
    /\ trace w' = [RandomBytes 16; CreateCipheriv; CreateHmac; CreateHmac].
Proof.
  apply (encryptMessage_seals_then_ratchets Stub.hmac_sha256
           Stub.aes_128_cbc_encrypt Stub.base64_encode
           Scenario.id (lit "hello") Scenario.alice_world
           (Scenario.session_at Scenario.bob 0)).
  - apply lookup_singleton_eq.
  - reflexivity.
Defined.

(** Alice's client adds [sender], [recipient] and [timestamp] to the
    package before it goes to the relay. *)
Lemma added_properties_break_mac_witness :
  let p := Scenario.package 1 (lit "hello") in
  let added := [(lit "sender", JString Scenario.alice);
                (lit "recipient", JString Scenario.bob);
                (lit "timestamp", JNumber 1700000000000)] in
  exists t',
    Json.stringify (authenticated_object (with_extra added p)) = Json.Text t'
    /\ Utf8.encode t' <> Utf8.encode (authenticated_prefix p ++ lit "}")
    /\ (stub_decryptMessage (with_extra added p) Scenario.bob_world
        = (Throw MacMismatch, record CreateHmac Scenario.bob_world)
        \/ Stub.hmac_sha256 (macKey (Scenario.session_at Scenario.alice 0))
             (Utf8.encode t')
           = Stub.hmac_sha256 (macKey (Scenario.session_at Scenario.alice 0))
               (Utf8.encode (authenticated_prefix p ++ lit "}"))).
Proof.
  cbv zeta.
  eapply (added_properties_break_mac Stub.hmac_sha256 Stub.aes_128_cbc_decrypt
            Stub.base64_encode Stub.base64_decode stub_base64_roundtrip
            (Scenario.package 1 (lit "hello")) Scenario.bob_world
            (Scenario.session_at Scenario.alice 0)).
  - apply lookup_singleton_eq.
  - reflexivity.
  - reflexivity.
  - reflexivity.
  - reflexivity.
Defined.

(** ** Key pairs and calls on the stand-ins *)

Lemma stub_rsa_sign_verify (e : nat -> Z) (n : nat) (text : JsString) :
  exists sig,
    Stub.rsa_sha256_sign (privateKey (Stub.rsa_generateKeyPair e n).1) text
    = Some sig
    /\ Stub.rsa_sha256_verify (publicKey (Stub.rsa_generateKeyPair e n).1) text sig
       = Some true.
Proof.
  eexists. split; [reflexivity|].
  cbn. rewrite bool_decide_eq_true_2 by reflexivity. reflexivity.
Qed.

Abbreviation stub_call :=
  (call Stub.sha256 Stub.hmac_sha256 Stub.aes_128_cbc_encrypt
     Stub.aes_128_cbc_decrypt Stub.rsa_sha256_verify Stub.base64_encode
     Stub.base64_decode Stub.rsa_generateKeyPair Stub.rsa_sha256_sign).
Abbreviation stub_run :=
  (run Stub.sha256 Stub.hmac_sha256 Stub.aes_128_cbc_encrypt
     Stub.aes_128_cbc_decrypt Stub.rsa_sha256_verify Stub.base64_encode
     Stub.base64_decode Stub.rsa_generateKeyPair Stub.rsa_sha256_sign).
Abbreviation stub_register := (register Stub.rsa_sha256_sign).
Abbreviation stub_sign := (sign Stub.rsa_sha256_sign).
Abbreviation stub_decryptMessages :=
  (decryptMessages Stub.hmac_sha256 Stub.aes_128_cbc_decrypt Stub.base64_encode
     Stub.base64_decode).


(** An instance is initialized, establishes a session with Bob and
    encrypts a message: the session is well formed. *)
Lemma sessions_stay_well_formed_witness :
  exists s,
    session_of
      (stub_run [CallInitialize;
                 CallEstablishSession Scenario.bob
                   (Scenario.bundle_of Scenario.bob []);
                 CallEncryptMessage (Scenario.id_of Scenario.bob) (lit "hello")]
         (fresh (fun _ => 5)))
      (Scenario.id_of Scenario.bob) = Some s
    /\ length (encryptionKey s) = 16%nat
    /\ length (macKey s) = 16%nat
    /\ length (chainKey s) = 16%nat
    /\ 0 <= messageCounter s
    /\ exists h,
         length h = 32%nat
         /\ Scenario.id_of Scenario.bob = h ++ lit "-" ++ recipientId s.
Proof.
  eexists. split; [vm_compute; reflexivity|].
  apply (sessions_stay_well_formed Stub.sha256 Stub.hmac_sha256
           Stub.aes_128_cbc_encrypt Stub.aes_128_cbc_decrypt
           Stub.rsa_sha256_verify Stub.base64_encode Stub.base64_decode
           stub_sha256_length stub_hmac_sha256_length
           Stub.rsa_generateKeyPair Stub.rsa_sha256_sign
           (fun _ => 5)
           [CallInitialize;
            CallEstablishSession Scenario.bob
              (Scenario.bundle_of Scenario.bob []);
            CallEncryptMessage (Scenario.id_of Scenario.bob) (lit "hello")]
           (Scenario.id_of Scenario.bob)).
  vm_compute. reflexivity.
Defined.

(** After one package for Bob, a second call returns the package with
    counter 2. *)
Lemma encryptMessage_returns_on_stored_sessions_witness :
  exists p w',
    stub_encryptMessage (Scenario.id_of Scenario.bob) (lit "again")
      (stub_run [CallEstablishSession Scenario.bob
                   (Scenario.bundle_of Scenario.bob []);
                 CallEncryptMessage (Scenario.id_of Scenario.bob) (lit "hello")]
         (fresh (fun _ => 5)))
    = (Normal p, w')
    /\ sessionId p = Scenario.id_of Scenario.bob
    /\ counter p = 2.
Proof.
  pose proof (encryptMessage_returns_on_stored_sessions Stub.sha256
                Stub.hmac_sha256 Stub.aes_128_cbc_encrypt
                Stub.aes_128_cbc_decrypt Stub.rsa_sha256_verify
                Stub.base64_encode Stub.base64_decode
                stub_sha256_length stub_hmac_sha256_length
                Stub.rsa_generateKeyPair Stub.rsa_sha256_sign
                (fun _ => 5)
                [CallEstablishSession Scenario.bob
                   (Scenario.bundle_of Scenario.bob []);
                 CallEncryptMessage (Scenario.id_of Scenario.bob) (lit "hello")]
                (Scenario.id_of Scenario.bob) (lit "again")) as H.
  cbv zeta in H.
  assert (exists s,
             session_of
               (stub_run [CallEstablishSession Scenario.bob
                            (Scenario.bundle_of Scenario.bob []);
                          CallEncryptMessage (Scenario.id_of Scenario.bob)
                            (lit "hello")]
                  (fresh (fun _ => 5)))
               (Scenario.id_of Scenario.bob) = Some s
             /\ messageCounter s = 1) as (s & E & Hc).
  { eexists. split; vm_compute; reflexivity. }
  rewrite E in H. destruct H as (p & w' & H1 & H2 & H3).
  exists p, w'. split; [exact H1|]. split; [exact H2|].
  rewrite H3, Hc. reflexivity.
Defined.

(** Alice's instance is initialized once; Bob establishes a session from
    the bundle it registers. *)
Lemma registered_bundle_is_accepted_witness :
  exists b id peer',
    stub_register Scenario.alice (stub_run [CallInitialize] (fresh (fun _ => 5)))
    = (Normal b, stub_run [CallInitialize] (fresh (fun _ => 5)))
    /\ userId b = Scenario.alice
    /\ length (bundleOneTimePreKeys b) = 5%nat
    /\ Stub.rsa_sha256_verify (identityKey b) (preKey b) (signature b)
       = Some true
    /\ stub_establishSession Scenario.alice b Scenario.bob_world
       = (Normal id, peer')
    /\ session_of peer' id
       = Some (initial_session Stub.sha256 Scenario.alice
                 (next_bytes 32 Scenario.bob_world)).
Proof.
  apply (registered_bundle_is_accepted Stub.sha256 Stub.hmac_sha256
           Stub.aes_128_cbc_encrypt Stub.aes_128_cbc_decrypt
           Stub.rsa_sha256_verify Stub.base64_encode Stub.base64_decode
           Stub.rsa_generateKeyPair Stub.rsa_sha256_sign
           stub_rsa_sign_verify
           (fun _ => 5) [CallInitialize] Scenario.alice Scenario.alice
           Scenario.bob_world).
  cbn. lia.
Defined.

(** The array [[1, null]] is signed as the text it is written as. *)
Lemma verify_accepts_signed_data_witness :
  let pair := (Stub.rsa_generateKeyPair (fun _ => 5) 0).1 in
  let data := JArray [JNumber 1; JNull] in
  exists sig,
    stub_sign data (privateKey pair) Scenario.alice_world
    = (Normal sig, Scenario.alice_world)
    /\ stub_sign (JString (lit "[1,null]")) (privateKey pair) Scenario.alice_world
       = (Normal sig, Scenario.alice_world)
    /\ stub_verify data sig (publicKey pair) Scenario.bob_world
       = (Normal true, record CreateVerify Scenario.bob_world)
    /\ stub_verify (JString (lit "[1,null]")) sig (publicKey pair)
         Scenario.bob_world
       = (Normal true, record CreateVerify Scenario.bob_world).
Proof.
  cbv zeta.
  apply (verify_accepts_signed_data Stub.rsa_sha256_verify
           Stub.rsa_generateKeyPair Stub.rsa_sha256_sign stub_rsa_sign_verify
           (fun _ => 5) 0%nat (JArray [JNumber 1; JNull]) (lit "[1,null]")
           Scenario.alice_world Scenario.bob_world).
  reflexivity.
Defined.

Lemma scenario_sessions_well_formed :
  sessions_well_formed
    (Scenario.world_with
       {[ Scenario.id_of Scenario.bob := Scenario.session_at Scenario.bob 0 ]} 5).
Proof.
  intros id s H. cbn [Scenario.world_with this Scenario.instance_with sessionKeys] in H.
  apply lookup_singleton_Some in H. destruct H as [<- <-].
  split; [reflexivity|]. split; [reflexivity|]. split; [reflexivity|].
  split; [cbn; lia|].
  exists (hex (repeat 5 16)). split; reflexivity.
Qed.

(** Alice holds a session with Bob and establishes one with Carol: the
    session with Bob is as it was. *)
Lemma establishSession_keeps_other_recipients_witness :
  session_of
    (after
       (stub_establishSession (lit "carol")
          (Scenario.bundle_of (lit "carol") []))
       (Scenario.world_with
          {[ Scenario.id_of Scenario.bob := Scenario.session_at Scenario.bob 0 ]}
          5))
    (Scenario.id_of Scenario.bob)
  = Some (Scenario.session_at Scenario.bob 0).
Proof.
  apply (establishSession_keeps_other_recipients Stub.sha256
           Stub.rsa_sha256_verify (lit "carol")
           (Scenario.bundle_of (lit "carol") [])).
  - exact scenario_sessions_well_formed.
  - apply lookup_singleton_eq.
  - cbn. discriminate.
Defined.

(** Alice's seventh package reaches Bob before her third: the third is
    refused. *)
Lemma overtaken_packages_are_refused_witness :
  exists w',
    stub_decryptMessage (Scenario.package 7 (lit "hello")) Scenario.bob_world
    = (Normal (lit "hello"), w')
    /\ stub_decryptMessage (Scenario.package 3 (lit "earlier")) w'
       = (Throw ReplayDetected, w').
Proof.
  assert (exists w',
             stub_decryptMessage (Scenario.package 7 (lit "hello"))
               Scenario.bob_world = (Normal (lit "hello"), w')) as [w' H].
  { eexists.
    apply (decryptMessage_accepted Stub.hmac_sha256 Stub.aes_128_cbc_decrypt
             Stub.base64_encode Stub.base64_decode
             (Scenario.package 7 (lit "hello")) Scenario.bob_world
             (Scenario.session_at Scenario.alice 0)
             (authenticated_prefix (Scenario.package 7 (lit "hello")) ++ lit "}")
             (Utf8.encode (lit "hello")));
      first [ apply lookup_singleton_eq | apply scenario_package_text
            | reflexivity ]. }
  exists w'. split; [exact H|].
  apply (overtaken_packages_are_refused Stub.hmac_sha256
           Stub.aes_128_cbc_decrypt Stub.base64_encode Stub.base64_decode
           (Scenario.package 7 (lit "hello"))
           (Scenario.package 3 (lit "earlier"))
           Scenario.bob_world w' (lit "hello") H).
  - vm_compute. reflexivity.
  - vm_compute. discriminate.
Defined.

(** Alice and Bob each send before receiving. *)
Lemma crossing_packages_are_refused_witness :
  exists pA pB wA' wB',
    stub_encryptMessage Scenario.id (lit "ping") Scenario.alice_world
    = (Normal pA, wA')
    /\ stub_encryptMessage Scenario.id (lit "pong") Scenario.bob_world
       = (Normal pB, wB')
    /\ stub_decryptMessage pB wA' = (Throw ReplayDetected, wA')
    /\ stub_decryptMessage pA wB' = (Throw ReplayDetected, wB')
    /\ stub_decryptMessage pA wA' = (Throw ReplayDetected, wA').
Proof.
  apply (crossing_packages_are_refused Stub.hmac_sha256
           Stub.aes_128_cbc_encrypt Stub.aes_128_cbc_decrypt
           Stub.base64_encode Stub.base64_decode
           Scenario.id (lit "ping") (lit "pong")
           Scenario.alice_world Scenario.bob_world
           (Scenario.session_at Scenario.bob 0)
           (Scenario.session_at Scenario.alice 0)).
  - apply lookup_singleton_eq.
  - apply lookup_singleton_eq.
  - reflexivity.
  - reflexivity.
  - reflexivity.
Defined.

(** Alice sends three messages, Bob reads them in order. *)
Lemma conversation_roundtrip_witness :
  let messages := [lit "one"; lit "two"; lit "three"] in
  exists ps wA' wB' sA' sB',
    stub_encryptMessages Scenario.id messages Scenario.alice_world
    = (Normal ps, wA')
    /\ stub_decryptMessages ps Scenario.bob_world = (Normal messages, wB')
    /\ session_of wA' Scenario.id = Some sA'
    /\ session_of wB' Scenario.id = Some sB'
    /\ encryptionKey sA' = encryptionKey sB'
    /\ macKey sA' = macKey sB'
    /\ chainKey sA' = chainKey sB'
    /\ messageCounter sA' = 3
    /\ messageCounter sB' = 3.
Proof.
  cbv zeta.
  apply (conversation_roundtrip Stub.hmac_sha256 Stub.aes_128_cbc_encrypt
           Stub.aes_128_cbc_decrypt Stub.base64_encode Stub.base64_decode
           stub_hmac_sha256_length stub_aes_128_cbc_roundtrip
           stub_base64_roundtrip
           Scenario.id [lit "one"; lit "two"; lit "three"]
           Scenario.alice_world Scenario.bob_world
           (Scenario.session_at Scenario.bob 0)
           (Scenario.session_at Scenario.alice 0)).
  - apply lookup_singleton_eq.
  - apply lookup_singleton_eq.
  - reflexivity.
  - reflexivity.
  - reflexivity.
  - reflexivity.
  - reflexivity.
  - cbn. lia.
  - cbn. lia.
  - repeat constructor.
Defined.

(** In a world whose random bytes count up from 0, the vectors of two
    packages are bytes 0 to 15 and bytes 16 to 31. *)
Lemma encryptMessages_draw_fresh_ivs_witness :
  let w := {| this := Scenario.instance_with
                        {[ Scenario.id := Scenario.session_at Scenario.bob 0 ]};
              entropy := Z.of_nat; drawn := 0; trace := [] |} in
  exists ps w',
    stub_encryptMessages Scenario.id [lit "one"; lit "two"] w = (Normal ps, w')
    /\ List.map iv ps
       = [Stub.base64_encode (List.map Z.of_nat (seq 0 16));
          Stub.base64_encode (List.map Z.of_nat (seq 16 16))]
    /\ drawn w' = 32%nat
    /\ entropy w' = Z.of_nat.
Proof.
  cbv zeta.
  apply (encryptMessages_draw_fresh_ivs Stub.hmac_sha256
           Stub.aes_128_cbc_encrypt Stub.base64_encode stub_hmac_sha256_length
           Scenario.id [lit "one"; lit "two"]
           {| this := Scenario.instance_with
                        {[ Scenario.id := Scenario.session_at Scenario.bob 0 ]};
              entropy := Z.of_nat; drawn := 0; trace := [] |}
           (Scenario.session_at Scenario.bob 0)).
  - apply lookup_singleton_eq.
  - reflexivity.
Defined.

(** ** The client on the stand-ins *)

Abbreviation stub_startSession :=
  (startSession Stub.sha256 Stub.rsa_sha256_verify).
Abbreviation stub_sendMessage :=
  (sendMessage Stub.sha256 Stub.hmac_sha256 Stub.aes_128_cbc_encrypt
     Stub.rsa_sha256_verify Stub.base64_encode).
Abbreviation stub_receiveMessages :=
  (receiveMessages Stub.sha256 Stub.hmac_sha256 Stub.aes_128_cbc_decrypt
     Stub.rsa_sha256_verify Stub.base64_encode Stub.base64_decode).
Abbreviation stub_client_run :=
  (client_run Stub.sha256 Stub.hmac_sha256 Stub.aes_128_cbc_encrypt
     Stub.aes_128_cbc_decrypt Stub.rsa_sha256_verify Stub.base64_encode
     Stub.base64_decode).

(** The relay is out of reach: the caller is told that Bob was not
    found. *)
Lemma startSession_reports_user_not_found_witness :
  exists cw',
    stub_startSession Scenario.bob Scenario.alice_offline
    = (Raised (UserNotFound Scenario.bob), cw')
    /\ requests cw' = [GetUser Scenario.bob]
    /\ activeSessions cw' = activeSessions Scenario.alice_offline
    /\ this (messaging cw') = this (messaging Scenario.alice_offline)
    /\ saved cw' = saved Scenario.alice_offline
    /\ console cw'
       = [LogError (lit "Failed to start session: ")
            (RequestFailed (lit "Request error: connect ECONNREFUSED"))].
Proof.
  destruct (startSession_reports_user_not_found Stub.sha256
              Stub.rsa_sha256_verify Scenario.bob Scenario.alice_offline)
    as (cw' & Hrequests & Hthrown & Hactive & Hthis & Hsaved & Hconsole).
  exists cw'. split; [exact Hthrown|]. split; [exact Hrequests|].
  split; [exact Hactive|]. split; [exact Hthis|]. split; [exact Hsaved|].
  exact Hconsole.
Defined.

(** The relay knows Bob: the call returns the identifier of the session
    it stored. *)
Lemma scenario_startSession_returns :
  exists cw',
    stub_startSession Scenario.bob Scenario.alice_client
    = (Returned (Scenario.id_of Scenario.bob), cw')
    /\ activeSessions cw' !! Scenario.bob = Some (Scenario.id_of Scenario.bob).
Proof. eexists. split; [vm_compute; reflexivity|]. reflexivity. Qed.

(** Alice has started a session with Bob; the relay refuses her
    message. *)
Lemma sendMessage_posts_then_saves_witness :
  let cw := client_after (stub_startSession Scenario.bob) Scenario.alice_refused in
  let s := initial_session Stub.sha256 Scenario.bob (repeat 5 32) in
  exists p cw',
    stub_sendMessage Scenario.bob (lit "hello") cw
    = (Raised (RequestFailed (lit "Request failed")), cw')
    /\ requests cw'
       = requests cw
         ++ [SendMessage {| sealed := p; sender := Scenario.alice;
                            recipient := Scenario.bob;
                            timestamp := 1700000000000 |}]
    /\ sessionId p = Scenario.id_of Scenario.bob
    /\ counter p = 1
    /\ mac p
       = expected_mac Stub.hmac_sha256 Stub.base64_encode s
           (authenticated_prefix p ++ lit "}")
    /\ session_of (messaging cw') (Scenario.id_of Scenario.bob)
       = Some (ratchet Stub.hmac_sha256 (set_messageCounter 1 s))
    /\ saved cw' = saved cw.
Proof.
  cbv zeta.
  apply (sendMessage_posts_then_saves Stub.sha256 Stub.hmac_sha256
           Stub.aes_128_cbc_encrypt Stub.rsa_sha256_verify Stub.base64_encode
           Scenario.bob (lit "hello") (Scenario.id_of Scenario.bob)
           (client_after (stub_startSession Scenario.bob) Scenario.alice_refused)
           (initial_session Stub.sha256 Scenario.bob (repeat 5 32))).
  - vm_compute. reflexivity.
  - vm_compute. discriminate.
  - vm_compute. reflexivity.
  - vm_compute. reflexivity.
Defined.

(** The message Alice's client posts for Bob when it is new and the relay
    knows Bob. *)
Definition scenario_posted : list Message :=
  match last (requests (client_after (stub_sendMessage Scenario.bob (lit "hello"))
                          Scenario.alice_client)) with
  | Some (SendMessage m) => [m]
  | _ => []
  end.

(** Bob's client is new; the relay hands it a message from Alice whose
    session identifier names Bob. *)
Lemma receiveMessages_drops_peer_messages_witness :
  let m := {| sealed := Scenario.with_sessionId (Scenario.id_of Scenario.bob)
                          (Scenario.package 1 (lit "hello"));
              sender := Scenario.alice; recipient := Scenario.bob;
              timestamp := 1700000000000 |} in
  exists cw', stub_receiveMessages (Scenario.bob_client [m]) = (Returned [], cw').
Proof.
  cbv zeta.
  eapply (receiveMessages_drops_peer_messages Stub.sha256 Stub.hmac_sha256
            Stub.aes_128_cbc_decrypt Stub.rsa_sha256_verify Stub.base64_encode
            Stub.base64_decode stub_sha256_length).
  - apply fresh_sessions_well_formed.
  - intros id s H. vm_compute in H. discriminate.
  - reflexivity.
  - constructor; [|constructor]. split.
    + vm_compute. discriminate.
    + exists (hex (repeat 5 16)). split; reflexivity.
Defined.

(** Alice's new client sends [hello] to Bob and the relay takes it; the
    relay hands the message to Bob's new client, which returns nothing. *)
Lemma sent_messages_are_not_delivered_witness :
  exists cwA' posted cwB',
    stub_sendMessage Scenario.bob (lit "hello") Scenario.alice_client
    = (Returned tt, cwA')
    /\ scenario_posted = [posted]
    /\ sender posted = Scenario.alice
    /\ recipient posted = Scenario.bob
    /\ stub_receiveMessages (Scenario.bob_client scenario_posted)
       = (Returned [], cwB').
Proof.
  assert (exists cwA',
             stub_sendMessage Scenario.bob (lit "hello") Scenario.alice_client
             = (Returned tt, cwA')) as [cwA' Hsend]
      by (eexists; vm_compute; reflexivity).
  destruct (sent_messages_are_not_delivered Stub.sha256 Stub.hmac_sha256
              Stub.aes_128_cbc_encrypt Stub.aes_128_cbc_decrypt
              Stub.rsa_sha256_verify Stub.base64_encode Stub.base64_decode
              stub_sha256_length (lit "hello")
              Scenario.alice_client cwA' (Scenario.bob_client scenario_posted))
    as (posted & Hlast & Hsender & Hrecipient & _ & Hreceive).
  - vm_compute. discriminate.
  - intros id H. vm_compute in H. discriminate.
  - apply fresh_sessions_well_formed.
  - intros id s H. vm_compute in H. discriminate.
  - exact Hsend.
  - assert (scenario_posted = [posted]) as Hposted.
    { unfold scenario_posted, client_after. rewrite Hsend. cbn [snd].
      rewrite Hlast. reflexivity. }
    destruct Hreceive as [cwB' Hreceive].
    { cbn [Scenario.bob_client new_client relay Scenario.relay_with get_messages].
      rewrite Hposted. reflexivity. }
    exists cwA', posted, cwB'. repeat split; assumption.
Defined.

(** Alice's client starts a session with Bob, sends and asks for its
    messages. *)
Lemma activeSessions_stay_consistent_witness :
  let cw := stub_client_run
              [CallStartSession Scenario.bob;
               CallSendMessage Scenario.bob (lit "hello");
               CallReceiveMessages]
              Scenario.alice_client in
  exists s,
    session_of (messaging cw) (Scenario.id_of Scenario.bob) = Some s
    /\ recipientId s = Scenario.bob
    /\ names (Scenario.id_of Scenario.bob) Scenario.bob
    /\ length (encryptionKey s) = 16%nat.
Proof.
  cbv zeta.
  apply (activeSessions_stay_consistent Stub.sha256 Stub.hmac_sha256
           Stub.aes_128_cbc_encrypt Stub.aes_128_cbc_decrypt
           Stub.rsa_sha256_verify Stub.base64_encode Stub.base64_decode
           stub_sha256_length stub_hmac_sha256_length
           Scenario.alice
           (Scenario.relay_with (Resolved (Scenario.bundle_of Scenario.bob []))
              (Resolved tt) (Resolved [])
              (Resolved (JObject [(lit "users",
                                   JArray [JString Scenario.alice;
                                           JString Scenario.bob])])))
           Scenario.time (fun _ => 5)
           [CallStartSession Scenario.bob;
            CallSendMessage Scenario.bob (lit "hello");
            CallReceiveMessages]
           Scenario.bob (Scenario.id_of Scenario.bob)).
  vm_compute. reflexivity.
Defined.

(** Alice has started a session with Bob; the relay refuses her message,
    and that is the error she gets. *)
Lemma sendMessage_fails_only_at_the_relay_witness :
  let cw := stub_client_run [CallStartSession Scenario.bob]
              Scenario.alice_refused in
  exists cw',
    stub_sendMessage Scenario.bob (lit "hello") cw
    = (Raised (RequestFailed (lit "Request failed")), cw')
    /\ length (requests cw') = 2%nat.
Proof.
  cbv zeta.
  apply (sendMessage_fails_only_at_the_relay Stub.sha256 Stub.hmac_sha256
           Stub.aes_128_cbc_encrypt Stub.aes_128_cbc_decrypt
           Stub.rsa_sha256_verify Stub.base64_encode Stub.base64_decode
           stub_sha256_length stub_hmac_sha256_length
           Scenario.alice
           (Scenario.relay_with (Resolved (Scenario.bundle_of Scenario.bob []))
              (Rejected (lit "Request failed")) (Resolved []) (Resolved JNull))
           Scenario.time (fun _ => 5)
           [CallStartSession Scenario.bob]
           Scenario.bob (lit "hello")).
  eexists. vm_compute. reflexivity.
Defined.

(** ** More of the class and the client on the scenario *)

(** Alice encrypts for the session of the scenario; her other session is
    as it was. *)
Lemma calls_touch_one_session_witness :
  session_of
    (stub_call (CallEncryptMessage Scenario.id (lit "hello")) Scenario.two_sessions)
    (Scenario.id_of Scenario.bob)
  = session_of Scenario.two_sessions (Scenario.id_of Scenario.bob).
Proof.
  apply (calls_touch_one_session Stub.sha256 Stub.hmac_sha256
           Stub.aes_128_cbc_encrypt Stub.aes_128_cbc_decrypt
           Stub.rsa_sha256_verify Stub.base64_encode Stub.base64_decode
           Stub.rsa_generateKeyPair Stub.rsa_sha256_sign
           (CallEncryptMessage Scenario.id (lit "hello")) Scenario.two_sessions
           (Scenario.id_of Scenario.bob)).
  vm_compute. discriminate.
Defined.

(** Alice asks for Bob's bundle and is given Mallory's: the session is
    the one Bob's bundle would have given. *)
Lemma establishSession_accepts_any_signed_bundle_witness :
  stub_establishSession Scenario.bob (Scenario.bundle_of Scenario.bob [])
    Scenario.alice_world
  = stub_establishSession Scenario.bob (Scenario.bundle_of (lit "mallory") [])
      Scenario.alice_world
  /\ exists id w',
       stub_establishSession Scenario.bob (Scenario.bundle_of Scenario.bob [])
         Scenario.alice_world = (Normal id, w')
       /\ names id Scenario.bob
       /\ session_of w' id
          = Some (initial_session Stub.sha256 Scenario.bob
                    (next_bytes 32 Scenario.alice_world)).
Proof.
  apply (establishSession_accepts_any_signed_bundle Stub.sha256
           Stub.rsa_sha256_verify Scenario.bob
           (Scenario.bundle_of Scenario.bob [])
           (Scenario.bundle_of (lit "mallory") []) Scenario.alice_world).
  - apply scenario_bundle_valid.
  - apply scenario_bundle_valid.
Defined.

(** Three messages from Alice: the chain key has advanced three times. *)
Lemma later_keys_follow_from_the_chain_witness :
  exists ps w' s',
    stub_encryptMessages Scenario.id [lit "one"; lit "two"; lit "three"]
      Scenario.alice_world = (Normal ps, w')
    /\ session_of w' Scenario.id = Some s'
    /\ chainKey s'
       = next_chainKey Stub.hmac_sha256
           (next_chainKey Stub.hmac_sha256
              (next_chainKey Stub.hmac_sha256 (Scenario.key 3)))
    /\ ([lit "one"; lit "two"; lit "three"] <> [] ->
        encryptionKey s' = chainKey s'
        /\ macKey s'
           = next_macKey Stub.hmac_sha256
               (next_chainKey Stub.hmac_sha256
                  (next_chainKey Stub.hmac_sha256 (Scenario.key 3)))).
Proof.
  apply (later_keys_follow_from_the_chain Stub.hmac_sha256
           Stub.aes_128_cbc_encrypt Stub.base64_encode stub_hmac_sha256_length
           Scenario.id [lit "one"; lit "two"; lit "three"]
           Scenario.alice_world (Scenario.session_at Scenario.bob 0)).
  - apply lookup_singleton_eq.
  - reflexivity.
Defined.

(** Bob holds the session and knows Alice; the relay hands him her first
    package with the three fields her client added. *)
Lemma receiveMessages_refuses_added_fields_witness :
  let m := {| sealed := Scenario.package 1 (lit "hello");
              sender := Scenario.alice; recipient := Scenario.bob;
              timestamp := 1700000000000 |} in
  let s := Scenario.session_at Scenario.alice 0 in
  exists t',
    Json.stringify (authenticated_object (message_object m)) = Json.Text t'
    /\ Utf8.encode t'
       <> Utf8.encode (authenticated_prefix (sealed m) ++ lit "}")
    /\ ((exists cw',
           stub_receiveMessages (Scenario.bob_in_session [m]) = (Returned [], cw'))
        \/ Stub.hmac_sha256 (macKey s) (Utf8.encode t')
           = Stub.hmac_sha256 (macKey s)
               (Utf8.encode (authenticated_prefix (sealed m) ++ lit "}"))).
Proof.
  cbv zeta.
  apply (receiveMessages_refuses_added_fields Stub.sha256 Stub.hmac_sha256
           Stub.aes_128_cbc_decrypt Stub.rsa_sha256_verify Stub.base64_encode
           Stub.base64_decode stub_base64_roundtrip
           (Scenario.bob_in_session
              [{| sealed := Scenario.package 1 (lit "hello");
                  sender := Scenario.alice; recipient := Scenario.bob;
                  timestamp := 1700000000000 |}])
           {| sealed := Scenario.package 1 (lit "hello");
              sender := Scenario.alice; recipient := Scenario.bob;
              timestamp := 1700000000000 |}
           (Scenario.session_at Scenario.alice 0)).
  - reflexivity.
  - eexists. apply lookup_singleton_eq.
  - apply lookup_singleton_eq.
  - vm_compute. reflexivity.
  - vm_compute. reflexivity.
  - vm_compute. reflexivity.
Defined.

(** On the stand-ins the two tags differ: Bob's client returns nothing. *)
Lemma scenario_added_fields_refused :
  exists cw',
    stub_receiveMessages
      (Scenario.bob_in_session
         [{| sealed := Scenario.package 1 (lit "hello");
             sender := Scenario.alice; recipient := Scenario.bob;
             timestamp := 1700000000000 |}])
    = (Returned [], cw').
Proof. eexists. vm_compute. reflexivity. Qed.

(** Without the three fields the same package is read. *)
Lemma scenario_package_accepted :
  exists w',
    stub_decryptMessage (Scenario.package 1 (lit "hello")) Scenario.bob_world
    = (Normal (lit "hello"), w').
Proof. eexists. vm_compute. reflexivity. Qed.

(** Alice's new client sends [hello] to Bob: it asks the relay for Bob,
    then posts the first package of the new session. *)
Lemma sendMessage_starts_a_session_first_witness :
  exists cw' p,
    stub_sendMessage Scenario.bob (lit "hello") Scenario.alice_client
    = (Returned tt, cw')
    /\ requests cw'
       = [GetUser Scenario.bob;
          SendMessage {| sealed := p; sender := Scenario.alice;
                         recipient := Scenario.bob;
                         timestamp := 1700000000000 |}]
    /\ sessionId p = Scenario.id_of Scenario.bob
    /\ counter p = 1
    /\ activeSessions cw' = <[Scenario.bob := Scenario.id_of Scenario.bob]> ∅.
Proof.
  destruct (sendMessage_starts_a_session_first Stub.sha256 Stub.hmac_sha256
              Stub.aes_128_cbc_encrypt Stub.rsa_sha256_verify Stub.base64_encode
              stub_sha256_length Scenario.bob (lit "hello") Scenario.alice_client
              (lookup_empty _))
    as (cw' & p & id & Hsend & Hrequests & Hid & Hcounter & Hnames & Hactive).
  assert (activeSessions cw' !! Scenario.bob = Some (Scenario.id_of Scenario.bob))
    as Hfound.
  { assert (activeSessions
              (stub_sendMessage Scenario.bob (lit "hello") Scenario.alice_client).2
            !! Scenario.bob
            = Some (Scenario.id_of Scenario.bob)) as Hrun
      by (vm_compute; reflexivity).
    rewrite Hsend in Hrun. exact Hrun. }
  rewrite Hactive, lookup_insert_eq in Hfound. injection Hfound as ->.
  exists cw', p. split; [exact Hsend|]. split; [exact Hrequests|].
  split; [exact Hid|]. split; [exact Hcounter|exact Hactive].
Defined.

(** With a relay out of reach the same call throws that Bob was not
    found, and posts nothing. *)
Lemma scenario_first_contact_offline :
  exists cw',
    stub_sendMessage Scenario.bob (lit "hello") Scenario.alice_offline
    = (Raised (UserNotFound Scenario.bob), cw')
    /\ requests cw' = [GetUser Scenario.bob]
    /\ activeSessions cw' = ∅.
Proof. eexists. split; [vm_compute; reflexivity|]. split; reflexivity. Qed.

(** Bob's new client is handed a message under Alice's name. *)
Lemma receiveMessages_opens_sessions_for_strangers_witness :
  let m := {| sealed := Scenario.package 1 (lit "hello");
              sender := Scenario.alice; recipient := Scenario.bob;
              timestamp := 1700000000000 |} in
  exists decrypted cw' id,
    stub_receiveMessages (Scenario.bob_client [m]) = (Returned decrypted, cw')
    /\ names id Scenario.alice
    /\ activeSessions cw' = <[Scenario.alice := id]> ∅
    /\ requests cw' = [GetMessages Scenario.bob; GetUser Scenario.alice]
    /\ exists stored more,
         saved cw' = (<[Scenario.alice := id]> ∅, stored) :: more
         /\ stored !! id
            = Some (initial_session Stub.sha256 Scenario.alice (repeat 6 32)).
Proof.
  cbv zeta.
  apply (receiveMessages_opens_sessions_for_strangers Stub.sha256
           Stub.hmac_sha256 Stub.aes_128_cbc_decrypt Stub.rsa_sha256_verify
           Stub.base64_encode Stub.base64_decode
           (Scenario.bob_client
              [{| sealed := Scenario.package 1 (lit "hello");
                  sender := Scenario.alice; recipient := Scenario.bob;
                  timestamp := 1700000000000 |}])
           {| sealed := Scenario.package 1 (lit "hello");
              sender := Scenario.alice; recipient := Scenario.bob;
              timestamp := 1700000000000 |}
           (Scenario.bundle_of Scenario.alice [])).
  - reflexivity.
  - apply lookup_empty.
  - reflexivity.
  - vm_compute. reflexivity.
Defined.

(** Bob's client, in session with Alice, reads the message whose tag
    covers all of it. *)
Lemma receiveMessages_reads_fully_tagged_messages_witness :
  let m := Scenario.tagged_message 1 (lit "hello") in
  exists cw',
    stub_receiveMessages (Scenario.bob_in_session [m])
    = (Returned [{| from := Scenario.alice;
                    content := Utf8.decode (Utf8.encode (lit "hello"));
                    decryptedTimestamp := 1700000000000 |}], cw')
    /\ session_of (messaging cw') Scenario.id
       = Some (ratchet Stub.hmac_sha256
                 (set_messageCounter 1 (Scenario.session_at Scenario.alice 0)))
    /\ saved cw'
       = [({[ Scenario.alice := Scenario.id ]}, sessionKeys (this (messaging cw')))]
    /\ requests cw' = [GetMessages Scenario.bob].
Proof.
  cbv zeta.
  assert (exists t,
             Json.stringify
               (authenticated_object
                  (message_object (Scenario.tagged_message 1 (lit "hello"))))
             = Json.Text t
             /\ mac (sealed (Scenario.tagged_message 1 (lit "hello")))
                = expected_mac Stub.hmac_sha256 Stub.base64_encode
                    (Scenario.session_at Scenario.alice 0) t)
    as (t & Ht & Hm)
    by (eexists; split; [vm_compute; reflexivity|vm_compute; reflexivity]).
  apply (receiveMessages_reads_fully_tagged_messages Stub.sha256
           Stub.hmac_sha256 Stub.aes_128_cbc_decrypt Stub.rsa_sha256_verify
           Stub.base64_encode Stub.base64_decode
           (Scenario.bob_in_session [Scenario.tagged_message 1 (lit "hello")])
           (Scenario.tagged_message 1 (lit "hello"))
           (Scenario.session_at Scenario.alice 0) t
           (Utf8.encode (lit "hello"))).
  - reflexivity.
  - eexists. apply lookup_singleton_eq.
  - apply lookup_singleton_eq.
  - vm_compute. reflexivity.
  - exact Ht.
  - exact Hm.
  - reflexivity.
  - vm_compute. reflexivity.
  - vm_compute. reflexivity.
Defined.

(** The text it reads is the text that was sealed. *)
Lemma scenario_fully_tagged_content :
  Utf8.decode (Utf8.encode (lit "hello")) = lit "hello".
Proof. vm_compute. reflexivity. Qed.

Abbreviation stub_readEach :=
  (readEach Stub.hmac_sha256 Stub.aes_128_cbc_decrypt Stub.base64_encode
     Stub.base64_decode).

(** Bob's client, in session with Alice, is handed a message for a
    session it does not hold and then one it can read: it returns the
    second. *)
Lemma receiveMessages_always_returns_witness :
  exists cw',
    stub_receiveMessages
      (Scenario.bob_in_session
         [Scenario.unreadable_message; Scenario.tagged_message 1 (lit "hello")])
    = (Returned [{| from := Scenario.alice; content := lit "hello";
                    decryptedTimestamp := 1700000000000 |}], cw')
    /\ requests cw' = [GetMessages Scenario.bob]
    /\ activeSessions cw' = {[ Scenario.alice := Scenario.id ]}.
Proof.
  destruct (receiveMessages_always_returns Stub.sha256 Stub.hmac_sha256
              Stub.aes_128_cbc_decrypt Stub.rsa_sha256_verify Stub.base64_encode
              Stub.base64_decode
              (Scenario.bob_in_session
                 [Scenario.unreadable_message;
                  Scenario.tagged_message 1 (lit "hello")]))
    as (decrypted & cw' & more & Hreturned & Hrequests & _ & Hknown).
  destruct Hknown as (-> & -> & Hactive).
  { repeat constructor; eexists; apply lookup_singleton_eq. }
  exists cw'. split; [|split; [exact Hrequests|exact Hactive]].
  rewrite Hreturned.
  assert (stub_readEach
            [Scenario.unreadable_message; Scenario.tagged_message 1 (lit "hello")]
            Scenario.bob_world
          = [{| from := Scenario.alice; content := lit "hello";
                decryptedTimestamp := 1700000000000 |}]) as Hread
    by (vm_compute; reflexivity).
  change (messaging (Scenario.bob_in_session _)) with Scenario.bob_world.
  rewrite Hread. reflexivity.
Defined.
